(** * Detection fusion, intention resolution and mask compositing

    A shallow embedding of the detection-to-replacement pipeline:

    - [client/src/components/pen-selector.tsx]: [objectsOverlap], the hybrid
      fusion step of [recognitionMutation.mutationFn], [analyzeUserIntention]
      and its helpers [calculateEnclosureScore], [calculateContainmentScore],
      [isPointInPath] and [getPathBounds];
    - the YOLO capability table ([canSegment], [mapToYOLOClass]);
    - the server image service: [cropObjectFromImage],
      [createSegmentationMaskSVG], [extractObjectUsingSegmentation],
      [replaceObjectWithSceneDiff];
    - the client replacement service: [replaceObjectStepByStep], and its
      requests [cropObject], [generateReplacement], [replaceObjectComplete]
      against the routes under [/api/grok];
    - the post-processing of the browser detectors: [applyNMS],
      [calculateIoU], [filterByDrawingPath], and the filter of the vision
      service, [filterObjectsByDrawingPath];
    - the pixel loops of [extractImageDifferences] and the deprecated
      workflow [replaceObject];
    - the two-step replacement of [server/openai-service.ts],
      [replaceObjectTwoStep] with its removal and generation steps, and its
      route.

    Numbers.  A JavaScript number is modelled by [num]: an exact rational, or
    one of the three special values [+Infinity], [-Infinity] and [NaN].  The
    arithmetic is exact (no rounding); the special values follow the IEEE 754
    rules the code can observe: division by zero, [Infinity - Infinity],
    comparisons with [NaN].  The sign of zero is not modelled, and
    [Math.sqrt] is exact on squares of rationals and truncated elsewhere.
    An absent numeric field ([undefined]) is read as [NaN], as the arithmetic
    and the comparisons of the code read it.

    Collaborators.  The network, the image library and the image generator
    are parameters of the service ([ImageLib]); a call that can throw returns
    an [exc], and [try ... catch] is a match on it.  Console output is left
    out. *)

From Stdlib Require Import QArith Qround ZArith List String Ascii Bool.
From Stdlib Require Import Lia Lqa Permutation Sorted Setoid Morphisms.
From Stdlib Require Import DecimalString.
Import ListNotations.

Set Implicit Arguments.

(* ================================================================= *)
(** ** JavaScript numbers *)

Module JS.

Inductive num : Type :=
| Fin (q : Q)
| PInf
| NInf
| NaN.

Coercion Fin : Q >-> num.

(** Numeric equality of two numbers ([Qeq] on the rationals). *)
Definition num_eq (a b : num) : Prop :=
  match a, b with
  | Fin p, Fin q => p == q
  | PInf, PInf | NInf, NInf | NaN, NaN => True
  | _, _ => False
  end.

Definition Qlt_bool (p q : Q) : bool := negb (Qle_bool q p).

(** The infinity (or NaN) obtained from the sign of a rational: the value of
    [p / 0] and of [p * Infinity]. *)
Definition inf_of_sign (p : Q) : num :=
  if Qlt_bool 0 p then PInf else if Qlt_bool p 0 then NInf else NaN.

Definition opp (a : num) : num :=
  match a with
  | Fin p => Fin (- p)
  | PInf => NInf
  | NInf => PInf
  | NaN => NaN
  end.

Definition add (a b : num) : num :=
  match a, b with
  | NaN, _ | _, NaN => NaN
  | Fin p, Fin q => Fin (p + q)
  | PInf, NInf | NInf, PInf => NaN
  | PInf, _ | _, PInf => PInf
  | NInf, _ | _, NInf => NInf
  end.

Definition sub (a b : num) : num := add a (opp b).

Definition mul (a b : num) : num :=
  match a, b with
  | NaN, _ | _, NaN => NaN
  | Fin p, Fin q => Fin (p * q)
  | Fin p, PInf | PInf, Fin p => inf_of_sign p
  | Fin p, NInf | NInf, Fin p => inf_of_sign (- p)
  | PInf, PInf | NInf, NInf => PInf
  | PInf, NInf | NInf, PInf => NInf
  end.

Definition div (a b : num) : num :=
  match a, b with
  | NaN, _ | _, NaN => NaN
  | Fin p, Fin q => if Qeq_bool q 0 then inf_of_sign p else Fin (p / q)
  | Fin _, (PInf | NInf) => Fin 0
  | PInf, Fin q => if Qlt_bool q 0 then NInf else PInf
  | NInf, Fin q => if Qlt_bool q 0 then PInf else NInf
  | (PInf | NInf), (PInf | NInf) => NaN
  end.

(** [a < b]; false as soon as one side is [NaN]. *)
Definition lt (a b : num) : bool :=
  match a, b with
  | NaN, _ | _, NaN => false
  | Fin p, Fin q => Qlt_bool p q
  | NInf, (Fin _ | PInf) => true
  | Fin _, PInf => true
  | _, _ => false
  end.

(** [a <= b]; false as soon as one side is [NaN]. *)
Definition le (a b : num) : bool :=
  match a, b with
  | NaN, _ | _, NaN => false
  | Fin p, Fin q => Qle_bool p q
  | NInf, _ => true
  | _, PInf => true
  | _, _ => false
  end.

Definition gt (a b : num) : bool := lt b a.
Definition ge (a b : num) : bool := le b a.

(** [a === b] on numbers: [NaN] differs from everything. *)
Definition eqb (a b : num) : bool :=
  match a, b with
  | Fin p, Fin q => Qeq_bool p q
  | PInf, PInf | NInf, NInf => true
  | _, _ => false
  end.

Definition is_nan (a : num) : bool :=
  match a with NaN => true | _ => false end.

(** Truthiness of a number: [0] and [NaN] are falsy. *)
Definition truthy (a : num) : bool :=
  match a with
  | NaN => false
  | Fin p => negb (Qeq_bool p 0)
  | _ => true
  end.

(** [a || b] on numbers. *)
Definition or (a b : num) : num := if truthy a then a else b.

(** [Math.max(a, b)] and [Math.min(a, b)]: [NaN] if an argument is [NaN]. *)
Definition Math_max (a b : num) : num :=
  if is_nan a || is_nan b then NaN else if lt a b then b else a.

Definition Math_min (a b : num) : num :=
  if is_nan a || is_nan b then NaN else if lt b a then b else a.

(** [Math.max(...xs)] and [Math.min(...xs)]: [-Infinity] and [+Infinity] on
    the empty list. *)
Definition Math_max_list (xs : list num) : num := fold_left Math_max xs NInf.
Definition Math_min_list (xs : list num) : num := fold_left Math_min xs PInf.

Definition Math_floor (a : num) : num :=
  match a with Fin p => Fin (inject_Z (Qfloor p)) | _ => a end.

Definition Math_ceil (a : num) : num :=
  match a with Fin p => Fin (inject_Z (Qceiling p)) | _ => a end.

(** [Math.pow(a, 2)]. *)
Definition Math_pow2 (a : num) : num := mul a a.

(** Square root of a non-negative rational [n/d], computed as
    [sqrt(n * d) / d]: exact whenever [n * d] is a perfect square (so on every
    square of a rational), and otherwise truncated at resolution
    [1 / (d * 2^64)]. *)
Definition Qsqrt (p : Q) : Q :=
  let n := Qnum p in
  let d := Zpos (Qden p) in
  let s := (2 ^ 64)%Z in
  Qmake (Z.sqrt (n * d * s * s)) (Qden p * 2 ^ 64).

Definition Math_sqrt (a : num) : num :=
  match a with
  | Fin p => if Qlt_bool p 0 then NaN else Fin (Qsqrt p)
  | PInf => PInf
  | NInf | NaN => NaN
  end.

(** [Number.isInteger]. *)
Definition is_integer (a : num) : bool :=
  match a with
  | Fin p => Qeq_bool (inject_Z (Qfloor p)) p
  | _ => false
  end.

(** The integer a number denotes, when it is finite. *)
Definition to_Z (a : num) : option Z :=
  match a with Fin p => Some (Qfloor p) | _ => None end.

Definition of_nat (n : nat) : num := Fin (inject_Z (Z.of_nat n)).
Definition of_Z (z : Z) : num := Fin (inject_Z z).

(** ASCII model of [String.prototype.toLowerCase]. *)
Definition lower_ascii (c : ascii) : ascii :=
  let n := nat_of_ascii c in
  if (65 <=? n)%nat && (n <=? 90)%nat then ascii_of_nat (n + 32) else c.

Fixpoint toLowerCase (s : string) : string :=
  match s with
  | EmptyString => EmptyString
  | String c s' => String (lower_ascii c) (toLowerCase s')
  end.

End JS.

Declare Scope js_scope.
Delimit Scope js_scope with js.
Bind Scope js_scope with JS.num.
Infix "+" := JS.add : js_scope.
Infix "-" := JS.sub : js_scope.
Infix "*" := JS.mul : js_scope.
Infix "/" := JS.div : js_scope.
Infix "<?" := JS.lt (at level 70) : js_scope.
Infix "<=?" := JS.le (at level 70) : js_scope.
Infix ">?" := JS.gt (at level 70) : js_scope.
Infix ">=?" := JS.ge (at level 70) : js_scope.
Notation "a '||n' b" := (JS.or a b) (at level 50, left associativity) : js_scope.

Local Open Scope string_scope.
Local Open Scope list_scope.

(* ================================================================= *)
(** ** The YOLO capability table ([YOLO11APIDetector]) *)

Module YOLO11API.

Definition supportedClasses : list string :=
  [ "person"; "bicycle"; "car"; "motorcycle"; "airplane"; "bus"; "train";
    "truck"; "boat"; "traffic light"; "fire hydrant"; "stop sign";
    "parking meter"; "bench"; "bird"; "cat"; "dog"; "horse"; "sheep"; "cow";
    "elephant"; "bear"; "zebra"; "giraffe"; "backpack"; "umbrella"; "handbag";
    "tie"; "suitcase"; "frisbee"; "skis"; "snowboard"; "sports ball"; "kite";
    "baseball bat"; "baseball glove"; "skateboard"; "surfboard";
    "tennis racket"; "bottle"; "wine glass"; "cup"; "fork"; "knife"; "spoon";
    "bowl"; "banana"; "apple"; "sandwich"; "orange"; "broccoli"; "carrot";
    "hot dog"; "pizza"; "donut"; "cake"; "chair"; "couch"; "potted plant";
    "bed"; "dining table"; "toilet"; "tv"; "laptop"; "mouse"; "remote";
    "keyboard"; "cell phone"; "microwave"; "oven"; "toaster"; "sink";
    "refrigerator"; "book"; "clock"; "vase"; "scissors"; "teddy bear";
    "hair drier"; "toothbrush" ].

Definition modelVersions : list (string * list string) :=
  [ ("walls_floors", ["wall"; "floor"; "ceiling"]);
    ("furniture",
     ["wall"; "floor"; "ceiling"; "chair"; "table"; "couch"; "lamp"]);
    ("complete",
     ["wall"; "floor"; "ceiling"; "chair"; "table"; "couch"; "lamp";
      "cabinet"; "tv"; "plant"; "artwork"; "curtain"]) ].

Definition mappings : list (string * string) :=
  [ ("sofa", "couch"); ("table", "dining table"); ("television", "tv");
    ("plant", "potted plant"); ("lamp", "tv"); ("lighting", "tv");
    ("picture frame", "book"); ("cabinetry", "refrigerator") ].

(** [Array.prototype.includes] on strings. *)
Definition includes (l : list string) (s : string) : bool :=
  existsb (String.eqb s) l.

(** Lookup of a key in an object literal used as a table. *)
Fixpoint lookup {A} (k : string) (t : list (string * A)) : option A :=
  match t with
  | [] => None
  | (k', v) :: t' => if String.eqb k k' then Some v else lookup k t'
  end.

Record YOLO11APIDetector : Type := {
  useCustomModel : bool;
  modelVersion : string
}.

Definition canSegment (this : YOLO11APIDetector) (objectName : string) : bool :=
  let name := JS.toLowerCase objectName in
  if useCustomModel this then
    let customClasses :=
      match lookup (modelVersion this) modelVersions with
      | Some cs => cs
      | None => ["wall"; "floor"; "ceiling"; "chair"; "table"; "couch"; "lamp";
                 "cabinet"; "tv"; "plant"; "artwork"; "curtain"]
      end in
    includes customClasses name || includes supportedClasses name
  else includes supportedClasses name.

Definition mapToYOLOClass (this : YOLO11APIDetector) (objectName : string)
  : option string :=
  let name := JS.toLowerCase objectName in
  if includes supportedClasses name then Some name
  else match lookup name mappings with
       | Some "" => None           (* [mappings[name] || null] *)
       | r => r
       end.

(** The exported general-purpose instance (base model). *)
Definition yolo11APIDetector : YOLO11APIDetector :=
  {| useCustomModel := false; modelVersion := "walls_floors" |}.

End YOLO11API.

(* ================================================================= *)
(** ** [pen-selector.tsx]: fusion and intention resolution *)

Module PenSelector.

Import JS.
Local Open Scope js_scope.

Record DetectedObject : Type := {
  name : string;
  confidence : num;
  x : num;
  y : num;
  width : num;
  height : num;
  refinedPath : option string;
  segmentation : option (list num);
  source : option string;
  canSegment : option bool;
  (* the two fields the fusion step adds to the detections it keeps *)
  yoloEquivalent : option string;
  segmentationNote : option string
}.

Record Point : Type := { px : num; py : num }.

(** *** Overlap of two detections *)

(** The intersection-over-union value [overlapArea / unionArea] that
    [objectsOverlap] compares with its threshold. *)
Definition overlapRatio (obj1 obj2 : DetectedObject) : num :=
  let obj1Right := x obj1 + width obj1 in
  let obj1Bottom := y obj1 + height obj1 in
  let obj2Right := x obj2 + width obj2 in
  let obj2Bottom := y obj2 + height obj2 in
  let overlapX :=
    Math_max (Fin 0)
      (Math_min obj1Right obj2Right - Math_max (x obj1) (x obj2)) in
  let overlapY :=
    Math_max (Fin 0)
      (Math_min obj1Bottom obj2Bottom - Math_max (y obj1) (y obj2)) in
  let overlapArea := overlapX * overlapY in
  let obj1Area := width obj1 * height obj1 in
  let obj2Area := width obj2 * height obj2 in
  let unionArea := obj1Area + obj2Area - overlapArea in
  overlapArea / unionArea.

Definition objectsOverlap (obj1 obj2 : DetectedObject) (threshold : num)
  : bool :=
  overlapRatio obj1 obj2 >? threshold.

(** *** Hybrid detection ([recognitionMutation.mutationFn], step 3) *)

Definition CONFIDENCE_THRESHOLD : num := Fin 0.35.

(** [{ ...obj, source: 'YOLO11', canSegment: true }] *)
Definition tagYolo (obj : DetectedObject) : DetectedObject :=
  {| name := name obj; confidence := confidence obj;
     x := x obj; y := y obj; width := width obj; height := height obj;
     refinedPath := refinedPath obj; segmentation := segmentation obj;
     source := Some "YOLO11"; canSegment := Some true;
     yoloEquivalent := yoloEquivalent obj;
     segmentationNote := segmentationNote obj |}.

Definition highConfidenceYolo (yoloObjects : list DetectedObject)
  : list DetectedObject :=
  filter (fun obj => confidence obj >=? CONFIDENCE_THRESHOLD) yoloObjects.

(** The callback of [yoloObjects.some(...)]: the Google detection conflicts
    with one YOLO detection. *)
Definition conflicts (googleObj yoloObj : DetectedObject) : bool :=
  objectsOverlap googleObj yoloObj (Fin 0.3)
  || (String.eqb (toLowerCase (name googleObj)) (toLowerCase (name yoloObj))
      && objectsOverlap googleObj yoloObj (Fin 0.1)).

Definition hasOverlapWithYolo (yoloObjects : list DetectedObject)
  (googleObj : DetectedObject) : bool :=
  existsb (conflicts googleObj) yoloObjects.

(** The template literal [`${yoloMappedClass}`]: [null] prints as "null". *)
Definition show_class (c : option string) : string :=
  match c with Some s => s | None => "null" end.

(** The object pushed for a Google detection that is kept. *)
Definition tagGoogle (googleObj : DetectedObject) : DetectedObject :=
  let canSeg :=
    YOLO11API.canSegment YOLO11API.yolo11APIDetector (name googleObj) in
  let yoloMappedClass :=
    YOLO11API.mapToYOLOClass YOLO11API.yolo11APIDetector (name googleObj) in
  {| name := name googleObj;
     confidence := confidence googleObj ||n Fin 0.6;
     x := x googleObj; y := y googleObj;
     width := width googleObj; height := height googleObj;
     refinedPath := refinedPath googleObj;
     segmentation := segmentation googleObj;
     source := Some "Google Vision";
     canSegment := Some canSeg;
     yoloEquivalent := yoloMappedClass;
     segmentationNote :=
       Some (if canSeg
             then ("Can be re-detected with YOLO as '"
                   ++ show_class yoloMappedClass ++ "' for segmentation")%string
             else "No YOLO equivalent - bounding box only") |}.

(** The loop over [googleObjects], pushing onto [hybridObjects]. *)
Fixpoint processGoogle (yoloObjects googleObjects hybridObjects
  : list DetectedObject) : list DetectedObject :=
  match googleObjects with
  | [] => hybridObjects
  | googleObj :: rest =>
      if negb (hasOverlapWithYolo yoloObjects googleObj)
      then processGoogle yoloObjects rest (hybridObjects ++ [tagGoogle googleObj])
      else processGoogle yoloObjects rest hybridObjects
  end.

Record HybridResult : Type := {
  success : bool;
  objects : list DetectedObject;
  detectionMethod : string;
  yoloCount : nat;
  googleCount : nat
}.

Definition hybridDetection (yoloObjects googleObjects : list DetectedObject)
  : HybridResult :=
  let hybridObjects := map tagYolo (highConfidenceYolo yoloObjects) in
  let hybridObjects := processGoogle yoloObjects googleObjects hybridObjects in
  {| success := true;
     objects := hybridObjects;
     detectionMethod := "Hybrid (YOLO + Google Vision)";
     yoloCount := List.length (highConfidenceYolo yoloObjects);
     googleCount :=
       (List.length hybridObjects
        - List.length (highConfidenceYolo yoloObjects))%nat |}.

(** *** Geometry helpers *)

Record Bounds : Type := {
  bounds_x : num;
  bounds_y : num;
  bounds_width : num;
  bounds_height : num
}.

(** [getPathBounds]: the zero box on the empty path. *)
Definition getPathBounds (path : list Point) : Bounds :=
  match path with
  | [] => {| bounds_x := Fin 0; bounds_y := Fin 0;
             bounds_width := Fin 0; bounds_height := Fin 0 |}
  | _ =>
      let xs := map px path in
      let ys := map py path in
      let minX := Math_min_list xs in
      let maxX := Math_max_list xs in
      let minY := Math_min_list ys in
      let maxY := Math_max_list ys in
      {| bounds_x := minX; bounds_y := minY;
         bounds_width := maxX - minX; bounds_height := maxY - minY |}
  end.

(** The test of one edge [(path[i], path[j])] in the ray casting loop. *)
Definition edgeCrossed (x y : num) (pi pj : Point) : bool :=
  negb (Bool.eqb (py pi >? y) (py pj >? y))
  && (x <? (px pj - px pi) * (y - py pi) / (py pj - py pi) + px pi).

(** The loop [for (i = 0, j = n - 1; i < n; j = i++)]: [pj] is the vertex
    before the head of [rest]. *)
Fixpoint rayCast (x y : num) (pj : Point) (rest : list Point) (inside : bool)
  : bool :=
  match rest with
  | [] => inside
  | pi :: rest' =>
      rayCast x y pi rest'
        (if edgeCrossed x y pi pj then negb inside else inside)
  end.

Definition origin : Point := {| px := Fin 0; py := Fin 0 |}.

(** [isPointInPath]: point-in-polygon by ray casting. *)
Definition isPointInPath (x y : num) (path : list Point) : bool :=
  if (List.length path <? 3)%nat then false
  else rayCast x y (last path origin) path false.

Definition samplePoints : nat := 15.

(** The sample grid of [calculateEnclosureScore], in loop order. *)
Definition sampleGrid : list (nat * nat) :=
  list_prod (seq 0 samplePoints) (seq 0 samplePoints).

Definition calculateEnclosureScore (path : list Point) (obj : DetectedObject)
  : num :=
  let enclosed :=
    filter
      (fun ij =>
         let testX :=
           x obj + (width obj * of_nat (fst ij)) / of_nat (samplePoints - 1) in
         let testY :=
           y obj + (height obj * of_nat (snd ij)) / of_nat (samplePoints - 1) in
         isPointInPath testX testY path)
      sampleGrid in
  of_nat (List.length enclosed) / of_nat (samplePoints * samplePoints).

Definition objCorners (obj : DetectedObject) : list Point :=
  [ {| px := x obj; py := y obj |};
    {| px := x obj + width obj; py := y obj |};
    {| px := x obj + width obj; py := y obj + height obj |};
    {| px := x obj; py := y obj + height obj |} ].

Definition calculateContainmentScore (path : list Point) (obj : DetectedObject)
  : num :=
  let containedCorners :=
    filter (fun corner => isPointInPath (px corner) (py corner) path)
           (objCorners obj) in
  of_nat (List.length containedCorners) / of_nat (List.length (objCorners obj)).

(** *** Intention resolution ([analyzeUserIntention]) *)

Record Factors : Type := {
  enclosure : num;
  distance : num;
  size : num;
  confidenceFactor : num;
  containment : num
}.

Record ScoredCandidate : Type := {
  object : DetectedObject;
  score : num;
  factors : Factors
}.

(** The callback of [objects.map] that scores one candidate. *)
Definition scoreObject (path : list Point) (obj : DetectedObject)
  : ScoredCandidate :=
  let pathBounds := getPathBounds path in
  let pathCenterX := bounds_x pathBounds + bounds_width pathBounds / Fin 2 in
  let pathCenterY := bounds_y pathBounds + bounds_height pathBounds / Fin 2 in
  let pathArea := bounds_width pathBounds * bounds_height pathBounds in
  let objCenterX := x obj + width obj / Fin 2 in
  let objCenterY := y obj + height obj / Fin 2 in
  let objArea := width obj * height obj in
  let enclosureScore := calculateEnclosureScore path obj in
  let dist :=
    Math_sqrt (Math_pow2 (pathCenterX - objCenterX)
               + Math_pow2 (pathCenterY - objCenterY)) in
  let maxDistance :=
    Math_sqrt (Math_pow2 (bounds_width pathBounds)
               + Math_pow2 (bounds_height pathBounds)) in
  let distanceScore := Fin 1 - dist / Math_max maxDistance (Fin 1) in
  let sizeRatio := Math_min pathArea objArea / Math_max pathArea objArea in
  let sizeScore := sizeRatio in
  let confidenceScore := confidence obj in
  let containmentScore := calculateContainmentScore path obj in
  let totalScore :=
    enclosureScore * Fin 0.3
    + distanceScore * Fin 0.2
    + sizeScore * Fin 0.15
    + confidenceScore * Fin 0.15
    + containmentScore * Fin 0.2 in
  {| object := obj;
     score := totalScore;
     factors := {| enclosure := enclosureScore;
                   distance := distanceScore;
                   size := sizeScore;
                   confidenceFactor := confidenceScore;
                   containment := containmentScore |} |}.

(** [Array.prototype.sort(compare)]: a stable sort; [a] is moved after [b]
    only when [compare(a, b) > 0], and a [NaN] result counts as [0].  The
    sort is written as an insertion sort, which gives the order every stable
    sort gives when the comparator is consistent.  When it is not (a
    comparison with a [NaN] score gives [NaN]), the order is the engine's
    own; an array in which no element is, for the comparator, before its
    predecessor is left as it is by the engine, which finds it to be one
    run in order, and by the insertion sort. *)
Section Sort.
Variable A : Type.
Variable compare : A -> A -> num.

Fixpoint insert (a : A) (l : list A) : list A :=
  match l with
  | [] => [a]
  | b :: l' => if compare a b >? Fin 0 then b :: insert a l' else a :: l
  end.

Definition sort (l : list A) : list A := fold_right insert [] l.
End Sort.

(** The comparator [(a, b) => b.score - a.score]. *)
Definition byScoreDesc (a b : ScoredCandidate) : num := score b - score a.

Definition meaningful (scoredObjects : list ScoredCandidate)
  : list ScoredCandidate :=
  filter (fun item => score item >? Fin 0.3) scoredObjects.

(** The selection made on the sorted list of scored candidates. *)
Definition selectCandidates (scoredObjects : list ScoredCandidate)
  : list DetectedObject :=
  let meaningfulObjects := meaningful scoredObjects in
  match meaningfulObjects with
  | [] => []
  | top :: _ =>
      let topScore := score top in
      let secondScore :=
        match nth_error meaningfulObjects 1 with
        | Some second => score second ||n Fin 0
        | None => Fin 0
        end in
      if topScore - secondScore >? Fin 0.2 then [object top]
      else
        map object
          (firstn (Nat.min 3 (List.length meaningfulObjects)) meaningfulObjects)
  end.

Definition analyzeUserIntention (path : list Point)
  (objects : list DetectedObject) : list DetectedObject :=
  match path with
  | [] => objects
  | _ =>
      let scoredObjects := map (scoreObject path) objects in
      let scoredObjects := sort byScoreDesc scoredObjects in
      selectCandidates scoredObjects
  end.

End PenSelector.

(* ================================================================= *)
(** ** Exceptions *)

(** A computation that returns a value or throws an [Error] with a message;
    [try ... catch] is a match on the result. *)
Module Exc.

Inductive exc (A : Type) : Type :=
| Ok (a : A)
| Throw (message : string).

Arguments Ok {A} a.
Arguments Throw {A} message.

Definition bind {A B} (m : exc A) (k : A -> exc B) : exc B :=
  match m with
  | Ok a => k a
  | Throw e => Throw e
  end.

Definition ret {A} (a : A) : exc A := Ok a.

End Exc.

Notation "x <- m ;; k" := (Exc.bind m (fun x => k))
  (at level 61, m at next level, right associativity).
Notation "' pat <- m ;; k" := (Exc.bind m (fun x => let pat := x in k))
  (at level 61, pat pattern, m at next level, right associativity).

(* ================================================================= *)
(** ** SVG masks *)

(** An SVG document is modelled by its element tree rather than by its text.
    Only the elements the service emits are present. *)
Module Svg.

Import JS.
Local Open Scope js_scope.

Inductive FillRule : Type := NonZero | EvenOdd.

Inductive Paint : Type := White | Black | Transparent.

(** Path data: [M x,y], [L x,y] and [Z]. *)
Inductive PathCmd : Type :=
| MoveTo (x y : num)
| LineTo (x y : num)
| ClosePath.

Inductive Shape : Type :=
| Path (d : list PathCmd) (fill : Paint) (fill_rule : option FillRule)
       (stroke : option string)
| Polygon (points : list num) (fill : Paint)
| FullRect (fill : Paint).   (* [<rect width="100%" height="100%" .../>] *)

(** A shape drawn as it is, or drawn through a [<mask>] whose content is
    given inline. *)
Inductive Element : Type :=
| Plain (s : Shape)
| Masked (s : Shape) (mask : list Shape).

Record Document : Type := {
  svg_width : num;
  svg_height : num;
  elements : list Element
}.

(** *** Filling a path

    The SVG fill rules, on the polygon a path describes.  A path without a
    [fill-rule] attribute is filled with the initial value [nonzero]. *)

Definition effectiveRule (r : option FillRule) : FillRule :=
  match r with Some r => r | None => NonZero end.

Definition vertices (d : list PathCmd) : list (num * num) :=
  flat_map (fun c => match c with
                     | MoveTo x y | LineTo x y => [(x, y)]
                     | ClosePath => []
                     end) d.

(** Signed crossing of the edge [a -> b] with the horizontal ray from
    [(x, y)] towards increasing abscissas. *)
Definition crossing (x y : num) (a b : num * num) : Z :=
  let '(ax, ay) := a in
  let '(bx, by_) := b in
  if negb (Bool.eqb (ay >? y) (by_ >? y))
     && (x <? (bx - ax) * (y - ay) / (by_ - ay) + ax)
  then if by_ >? ay then 1%Z else (-1)%Z
  else 0%Z.

Fixpoint windingFrom (x y : num) (prev : num * num) (rest : list (num * num))
  (first : num * num) : Z :=
  match rest with
  | [] => crossing x y prev first
  | p :: rest' => (crossing x y prev p + windingFrom x y p rest' first)%Z
  end.

Definition windingNumber (x y : num) (poly : list (num * num)) : Z :=
  match poly with
  | [] => 0%Z
  | p :: rest => windingFrom x y p rest p
  end.

Definition inside (rule : FillRule) (x y : num) (poly : list (num * num))
  : bool :=
  match rule with
  | NonZero => negb (windingNumber x y poly =? 0)%Z
  | EvenOdd => Z.odd (windingNumber x y poly)
  end.

(** The value of a mask at pixel [(i, j)]: selected when the centre of the
    pixel lies inside a white path of the document. *)
Definition covers (e : Element) (i j : Z) : bool :=
  match e with
  | Plain (Path d White rule _) =>
      inside (effectiveRule rule)
             (Fin (inject_Z i + 0.5)) (Fin (inject_Z j + 0.5)) (vertices d)
  | _ => false
  end.

Definition inCanvas (doc : Document) (i j : Z) : bool :=
  (0 <=? i)%Z && (0 <=? j)%Z
  && (of_Z i <? svg_width doc) && (of_Z j <? svg_height doc).

Definition selected (doc : Document) (i j : Z) : bool :=
  inCanvas doc i j && existsb (fun e => covers e i j) (elements doc).

End Svg.

(* ================================================================= *)
(** ** The server image service ([GrokImageService]) *)

Module GrokImageService.

Import JS Exc.
Local Open Scope js_scope.

Inductive Blend : Type := DestIn | Over.

(** The collaborators of the service: the network, the image library
    ([sharp]) and the image generator.  [Buffer] is the type of image
    buffers. *)
Record ImageLib (Buffer : Type) : Type := {
  (* [fetch(url)] followed by [arrayBuffer()] *)
  fetch : string -> exc Buffer;
  (* [sharp(buf).metadata()]: the [width] and [height] it reports *)
  metadata : Buffer -> exc (option Z * option Z);
  (* [Buffer.from(svg)] *)
  svgBuffer : Svg.Document -> Buffer;
  (* [sharp(base).composite([{ input, blend }]).png().toBuffer()] *)
  composite : Buffer -> Buffer -> Blend -> exc Buffer;
  (* [sharp(buf).extract({ left, top, width, height }).png().toBuffer()] *)
  extract : Buffer -> num -> num -> num -> num -> exc Buffer;
  (* [sharp(buf).resize(w, h)] *)
  resize : Buffer -> Z -> Z -> Buffer;
  (* [sharp(buf).png().toBuffer()] *)
  png : Buffer -> exc Buffer;
  toBase64 : Buffer -> string;
  fromBase64 : string -> Buffer;
  (* [openaiClient.images.edit(...)]: the [b64_json] of [response.data[0]],
     when there is a first item *)
  imagesEdit : string -> string -> exc (option (option string))
}.

Arguments fetch {Buffer}.
Arguments metadata {Buffer}.
Arguments svgBuffer {Buffer}.
Arguments composite {Buffer}.
Arguments extract {Buffer}.
Arguments resize {Buffer}.
Arguments png {Buffer}.
Arguments toBase64 {Buffer}.
Arguments fromBase64 {Buffer}.
Arguments imagesEdit {Buffer}.

(** A string-valued field that may be absent; [""] and [undefined] are the
    falsy strings. *)
Definition present (s : option string) : bool :=
  match s with
  | Some s => negb (String.eqb s "")
  | None => false
  end.

(** [`${s}`] for a possibly absent string. *)
Definition show (s : option string) : string :=
  match s with Some s => s | None => "undefined" end.

(** *** [cropObjectFromImage] *)

Record BoundingBox : Type := {
  box_x : num;
  box_y : num;
  box_width : num;
  box_height : num
}.

Record CropResult : Type := {
  crop_success : bool;
  croppedImageBase64 : option string;
  boundingBox : option BoundingBox;
  crop_error : option string
}.

(** The loop [for (i = 0; i < points.length; i += 2)] filling [xCoords] and
    [yCoords]; [points[i + 1]] past the end is [undefined], which the
    arithmetic reads as [NaN]. *)
Fixpoint splitCoords (points : list num) : list num * list num :=
  match points with
  | [] => ([], [])
  | [px] => ([px], [NaN])
  | px :: py :: rest =>
      let '(xCoords, yCoords) := splitCoords rest in
      (px :: xCoords, py :: yCoords)
  end.

Record CropBounds : Type := {
  minX : num;
  maxX : num;
  minY : num;
  maxY : num
}.

Definition cropBounds (points : list num) (imgWidth imgHeight : num)
  : CropBounds :=
  let '(xCoords, yCoords) := splitCoords points in
  {| minX := Math_max (Fin 0) (Math_floor (Math_min_list xCoords));
     maxX := Math_min imgWidth (Math_ceil (Math_max_list xCoords));
     minY := Math_max (Fin 0) (Math_floor (Math_min_list yCoords));
     maxY := Math_min imgHeight (Math_ceil (Math_max_list yCoords)) |}.

Definition cropWidth (b : CropBounds) : num := maxX b - minX b.
Definition cropHeight (b : CropBounds) : num := maxY b - minY b.

(** The mask document built inline by [cropObjectFromImage]. *)
Definition cropMaskSvg (points : list num) (imgWidth imgHeight : num)
  : Svg.Document :=
  {| Svg.svg_width := imgWidth;
     Svg.svg_height := imgHeight;
     Svg.elements :=
       [ Svg.Masked (Svg.FullRect Svg.Transparent)
           [ Svg.FullRect Svg.Black; Svg.Polygon points Svg.White ] ] |}.

Definition cropFailure (message : string) : CropResult :=
  {| crop_success := false; croppedImageBase64 := None;
     boundingBox := None; crop_error := Some message |}.

(** [!imgWidth]: absent or zero. *)
Definition dimension (d : option Z) : option Z :=
  match d with
  | Some 0%Z | None => None
  | Some w => Some w
  end.

(** *** [createSegmentationMaskSVG] *)

(** The loop building [points]: one ["x,y"] item per pair of coordinates. *)
Fixpoint coordPairs (segmentationCoords : list num) : list (num * num) :=
  match segmentationCoords with
  | [] => []
  | [cx] => [(cx, NaN)]
  | cx :: cy :: rest => (cx, cy) :: coordPairs rest
  end.

(** [`M${points.join(" L")} Z`] *)
Definition pathData (points : list (num * num)) : list Svg.PathCmd :=
  match points with
  | [] => [Svg.ClosePath]
  | (x0, y0) :: rest =>
      Svg.MoveTo x0 y0 :: map (fun p => Svg.LineTo (fst p) (snd p)) rest
      ++ [Svg.ClosePath]
  end.

Definition createSegmentationMaskSVG (segmentationCoords : list num)
  (width height : num) : Svg.Document :=
  let points := coordPairs segmentationCoords in
  {| Svg.svg_width := width;
     Svg.svg_height := height;
     Svg.elements :=
       [ Svg.Plain (Svg.Path (pathData points) Svg.White None (Some "none")) ] |}.

(** The mask document built by [extractObjectUsingSegmentation] from a path
    string (given here as its path commands). *)
Definition extractionMaskSvg (segmentationPath : list Svg.PathCmd)
  (width height : num) : Svg.Document :=
  {| Svg.svg_width := width;
     Svg.svg_height := height;
     Svg.elements :=
       [ Svg.Plain (Svg.Path segmentationPath Svg.White (Some Svg.EvenOdd) None) ] |}.

(** [imageUrl.split(",")[1]] *)
Fixpoint untilComma (s : string) : string * option string :=
  match s with
  | EmptyString => (EmptyString, None)
  | String c s' =>
      if Ascii.eqb c ","%char then (EmptyString, Some s')
      else let '(h, t) := untilComma s' in (String c h, t)
  end.

Definition secondField (s : string) : option string :=
  match snd (untilComma s) with
  | Some rest => Some (fst (untilComma rest))
  | None => None
  end.

(** *** Results of the scene workflow *)

Record SceneRequest : Type := {
  req_replacementPrompt : string;
  req_originalImageBase64 : string;
  req_objectName : string;
  req_croppedObjectImage : string;
  req_originalImageUrl : string
}.

(** The result of [generateSceneReplacement] ([processingTime], a wall-clock
    difference, is left out). *)
Record SceneResult : Type := {
  scene_success : bool;
  generatedImageBase64 : option string;
  scene_originalImageBase64 : option string;
  scene_revisedPrompt : option string;
  scene_error : option string
}.

Record DiffResult : Type := {
  diff_success : bool;
  differenceImageBase64 : option string;
  diff_error : option string
}.

Record SceneDiffResult : Type := {
  success : bool;
  finalImageBase64 : option string;
  originalScene : option string;
  generatedScene : option string;
  extractedDifferences : option string;
  revisedPrompt : option string;
  error : option string
}.

Definition sceneDiffFailure (message : string) : SceneDiffResult :=
  {| success := false; finalImageBase64 := None; originalScene := None;
     generatedScene := None; extractedDifferences := None;
     revisedPrompt := None; error := Some message |}.

Section Service.
Variable Buffer : Type.
Variable lib : ImageLib Buffer.

Definition cropObjectFromImage (imageUrl : string)
  (segmentationMask : list num) : CropResult :=
  let attempt : exc CropResult :=
    imageBuffer <- fetch lib imageUrl ;;
    dims <- metadata lib imageBuffer ;;
    match dimension (fst dims), dimension (snd dims) with
    | Some imgWidth, Some imgHeight =>
        let points := segmentationMask in
        let b := cropBounds points (of_Z imgWidth) (of_Z imgHeight) in
        let maskSvg := cropMaskSvg points (of_Z imgWidth) (of_Z imgHeight) in
        maskedImage <- composite lib imageBuffer (svgBuffer lib maskSvg) DestIn ;;
        croppedImage <-
          extract lib maskedImage (minX b) (minY b) (cropWidth b) (cropHeight b) ;;
        Ok {| crop_success := true;
              croppedImageBase64 := Some (toBase64 lib croppedImage);
              boundingBox :=
                Some {| box_x := minX b; box_y := minY b;
                        box_width := cropWidth b;
                        box_height := cropHeight b |};
              crop_error := None |}
    | _, _ => Throw "Could not get image dimensions"
    end in
  match attempt with
  | Ok r => r
  | Throw message => cropFailure message
  end.

Definition extractObjectUsingSegmentation (imageUrl : string)
  (segmentationPath : list Svg.PathCmd) : CropResult :=
  let attempt : exc CropResult :=
    imageBuffer <-
      (if String.prefix "data:" imageUrl
       then match secondField imageUrl with
            | Some base64Data => Ok (fromBase64 lib base64Data)
            | None => Throw "The first argument must be of type string"
            end
       else fetch lib imageUrl) ;;
    dims <- metadata lib imageBuffer ;;
    match dimension (fst dims), dimension (snd dims) with
    | Some width, Some height =>
        let maskSvg :=
          extractionMaskSvg segmentationPath (of_Z width) (of_Z height) in
        mask <- png lib (svgBuffer lib maskSvg) ;;
        result <- composite lib imageBuffer mask DestIn ;;
        Ok {| crop_success := true;
              croppedImageBase64 := Some (toBase64 lib result);
              boundingBox := None;
              crop_error := None |}
    | _, _ => Throw "Could not get image dimensions"
    end in
  match attempt with
  | Ok r => r
  | Throw message => cropFailure message
  end.

(** *** [generateSceneReplacement] *)

Definition enhancedPrompt (request : SceneRequest) : string :=
  ("Change the " ++ req_objectName request ++ " to "
   ++ req_replacementPrompt request
   ++ ", don't change anything else. Keep the same room layout, lighting, perspective, and all other objects exactly the same. Only modify the "
   ++ req_objectName request ++ " as requested.")%string.

Definition generateSceneReplacement (request : SceneRequest) : SceneResult :=
  let attempt : exc SceneResult :=
    first <- imagesEdit lib (req_originalImageBase64 request)
               (enhancedPrompt request) ;;
    match first with
    | None => Throw "No image generated by DALL-E"
    | Some b64_json =>
        Ok {| scene_success := true;
              generatedImageBase64 := b64_json;
              scene_originalImageBase64 :=
                Some (req_originalImageBase64 request);
              scene_revisedPrompt := Some (enhancedPrompt request);
              scene_error := None |}
    end in
  match attempt with
  | Ok r => r
  | Throw message =>
      {| scene_success := false; generatedImageBase64 := None;
         scene_originalImageBase64 := None; scene_revisedPrompt := None;
         scene_error := Some message |}
  end.

(** *** [replaceObjectWithSceneDiff] *)

(** [extractImageDifferences] enters the workflow through its result
    only; it is taken as given. *)
Variable extractImageDifferences :
  string -> string -> list num -> DiffResult.

Definition replaceObjectWithSceneDiff (imageUrl : string)
  (segmentationMask : list num) (replacementPrompt objectName : string)
  : SceneDiffResult :=
  let attempt : exc SceneDiffResult :=
    originalBuffer <- fetch lib imageUrl ;;
    let originalBase64 := toBase64 lib originalBuffer in
    let sceneResult :=
      generateSceneReplacement
        {| req_replacementPrompt := replacementPrompt;
           req_originalImageBase64 := originalBase64;
           req_objectName := objectName;
           req_croppedObjectImage := "";
           req_originalImageUrl := imageUrl |} in
    match (if scene_success sceneResult
           then (if present (generatedImageBase64 sceneResult)
                 then generatedImageBase64 sceneResult else None)
           else None) with
    | None =>
        Throw ("Scene generation failed: " ++ show (scene_error sceneResult))
    | Some generated =>
        let diffResult :=
          extractImageDifferences originalBase64 generated segmentationMask in
        match (if diff_success diffResult
               then (if present (differenceImageBase64 diffResult)
                     then differenceImageBase64 diffResult else None)
               else None) with
        | None =>
            Throw ("Difference extraction failed: "
                   ++ show (diff_error diffResult))
        | Some difference =>
            let originalImageBuffer := fromBase64 lib originalBase64 in
            let differenceBuffer := fromBase64 lib difference in
            finalImage <-
              composite lib (resize lib originalImageBuffer 1024 1024)
                differenceBuffer Over ;;
            Ok {| success := true;
                  finalImageBase64 := Some (toBase64 lib finalImage);
                  originalScene := Some originalBase64;
                  generatedScene := Some generated;
                  extractedDifferences := Some difference;
                  revisedPrompt := scene_revisedPrompt sceneResult;
                  error := None |}
        end
    end in
  match attempt with
  | Ok r => r
  | Throw message => sceneDiffFailure message
  end.

End Service.

End GrokImageService.

(* ================================================================= *)
(** ** The client replacement service ([GrokReplacementService]) *)

Module GrokReplacementService.

Import JS.

Record BoundingBox : Type := {
  box_x : num;
  box_y : num;
  box_width : num;
  box_height : num
}.

Record CropResult : Type := {
  crop_success : bool;
  croppedImageBase64 : option string;
  boundingBox : option BoundingBox;
  crop_error : option string
}.

Record GenerateResult : Type := {
  gen_success : bool;
  generatedImageBase64 : option string;
  gen_revisedPrompt : option string;
  gen_error : option string
}.

Record CompleteReplacementResult : Type := {
  success : bool;
  finalImageBase64 : option string;
  croppedObject : option string;
  generatedReplacement : option string;
  resultBoundingBox : option BoundingBox;
  revisedPrompt : option string;
  error : option string
}.

(** The calls of [onProgress], in order. *)
Inductive Progress : Type :=
| cropping
| cropped (croppedImage : string)
| generating
| generated (generatedImage : string) (revised : option string)
| placing.

Definition present (s : option string) : option string :=
  match s with
  | Some "" | None => None
  | Some s => Some s
  end.

Definition show (s : option string) : string :=
  match s with Some s => s | None => "undefined" end.

Section Workflow.
(** [cropObject] and [generateReplacement] post a request to the backend
    and return its answer, or a failure result when the request fails;
    neither throws.  The optional callback [onProgress] is taken not to
    throw, so the outer [catch] is never entered. *)
Variable cropObject : string -> list num -> CropResult.
Variable generateReplacement : string -> string -> string -> GenerateResult.

(** [replaceObjectStepByStep]: the result together with the progress
    reported to the caller. *)
Definition replaceObjectStepByStep (imageUrl : string)
  (segmentationMask : list num) (replacementPrompt : string)
  : list Progress * CompleteReplacementResult :=
  let cropResult := cropObject imageUrl segmentationMask in
  match (if crop_success cropResult
         then present (croppedImageBase64 cropResult) else None) with
  | None =>
      ([cropping],
       {| success := false; finalImageBase64 := None; croppedObject := None;
          generatedReplacement := None; resultBoundingBox := None;
          revisedPrompt := None;
          error :=
            Some ("Cropping failed: " ++ show (crop_error cropResult))%string |})
  | Some croppedImage =>
      let generateResult :=
        generateReplacement croppedImage replacementPrompt imageUrl in
      match (if gen_success generateResult
             then present (generatedImageBase64 generateResult)
             else None) with
      | None =>
          ([cropping; cropped croppedImage; generating],
           {| success := false; finalImageBase64 := None;
              croppedObject := croppedImageBase64 cropResult;
              generatedReplacement := None; resultBoundingBox := None;
              revisedPrompt := None;
              error :=
                Some ("Generation failed: "
                      ++ show (gen_error generateResult))%string |})
      | Some generatedImage =>
          ([cropping; cropped croppedImage; generating;
            generated generatedImage (gen_revisedPrompt generateResult);
            placing],
           {| success := true; finalImageBase64 := None;
              croppedObject := croppedImageBase64 cropResult;
              generatedReplacement := generatedImageBase64 generateResult;
              resultBoundingBox := boundingBox cropResult;
              revisedPrompt := gen_revisedPrompt generateResult;
              error := None |})
      end
  end.

End Workflow.

End GrokReplacementService.

Unset Implicit Arguments.

(* ================================================================= *)
(** ** The specification's wording of the fusion rules

    These definitions follow the specification, not the code; they are what
    the code is compared with. *)

Module FusionSpec.

Import JS PenSelector.
Local Open Scope js_scope.

(** A highest-priority detection is accepted when its confidence
    "exceeds" the threshold. *)
Definition spec_accepts (obj : DetectedObject) : bool :=
  confidence obj >? Fin 0.35.

(** Overlap "above the threshold": IoU at least 0.1 for the same name, at
    least 0.3 for different names. *)
Definition spec_overlaps (googleObj accepted : DetectedObject) : bool :=
  if String.eqb (name googleObj) (name accepted)
  then overlapRatio googleObj accepted >=? Fin 0.1
  else overlapRatio googleObj accepted >=? Fin 0.3.

(** A lower-priority detection is discarded when it overlaps some accepted
    detection. *)
Definition spec_discards (accepted : list DetectedObject)
  (googleObj : DetectedObject) : bool :=
  existsb (spec_overlaps googleObj) accepted.

End FusionSpec.

(* ================================================================= *)
(** ** Sample detections and paths *)

Module Samples.

Import JS PenSelector.

Definition detection (nm : string) (conf : Q) (bx by_ w h : Q)
  : DetectedObject :=
  {| name := nm; confidence := Fin conf;
     x := Fin bx; y := Fin by_; width := Fin w; height := Fin h;
     refinedPath := None; segmentation := None;
     source := None; canSegment := None;
     yoloEquivalent := None; segmentationNote := None |}.

Definition point (a b : Q) : Point := {| px := Fin a; py := Fin b |}.

(** A polygon-capable detection at confidence exactly 0.35. *)
Definition borderlineChair : DetectedObject :=
  detection "chair" 0.35 100 100 50 80.

(** Two boxes of different names with IoU exactly 3/10. *)
Definition wideTable : DetectedObject := detection "table" 0.9 0 0 10 1.
Definition smallDesk : DetectedObject := detection "desk" 0.9 0 0 3 1.

(** The same table seen by both detectors, IoU 6/10. *)
Definition yoloTable : DetectedObject := detection "table" 0.5 0 0 10 10.
Definition googleTable : DetectedObject := detection "table" 0.9 0 0 10 6.

(** A bbox-only detection named with a capital letter, IoU 2/10 with
    [yoloTable]. *)
Definition capitalTable : DetectedObject := detection "Table" 0.9 0 0 10 2.

(** A polygon-capable detection below the acceptance threshold. *)
Definition faintTable : DetectedObject := detection "table" 0.2 0 0 10 10.

(** A tight outline around a chair. *)
Definition chair : DetectedObject := detection "chair" 0.9 100 100 50 80.
Definition chairOutline : list Point :=
  [ point 95 95; point 155 95; point 155 185; point 95 185 ].

(** A 3 x 4 outline and a candidate whose centre is 50 away from its
    centre. *)
Definition smallOutline : list Point :=
  [ point 0 0; point 3 0; point 3 4; point 0 4 ].
Definition farLamp : DetectedObject := detection "lamp" 0.9 30 40 3 4.

(** An outline whose points gather in one corner of its bounding box, and
    a candidate filling that bounding box. *)
Definition lopsidedOutline : list Point :=
  [ point 0 0; point 0 0; point 0 0; point 6 8 ].
Definition rug : DetectedObject := detection "rug" 0.9 0 0 6 8.

(** A path of a single point and a small candidate next to it. *)
Definition singlePoint : list Point := [ point 5 5 ].
Definition dot : DetectedObject := detection "dot" 0.9 5 4.5 1 1.

(** A vertical stroke: its bounding box has no area. *)
Definition stroke : list Point :=
  [ point 10 0; point 10 3; point 10 7; point 10 10 ].

(** Four candidates centred where the stroke is centred, of rising
    confidence, and a candidate without area. *)
Definition candA : DetectedObject := detection "a" 0.85 9 4 2 2.
Definition candB : DetectedObject := detection "b" 0.9 9 4 2 2.
Definition candC : DetectedObject := detection "c" 0.95 9 4 2 2.
Definition candD : DetectedObject := detection "d" 1 9 4 2 2.
Definition flat : DetectedObject := detection "flat" 0.9 10 5 0 2.

End Samples.

(* ================================================================= *)
(** ** Predicates used in the statements *)

Module Predicates.

Import JS PenSelector.
Local Open Scope js_scope.

Definition is_finite (a : num) : bool :=
  match a with Fin _ => true | _ => false end.

(** [a] lies in the interval [0, 1]. *)
Definition in_unit_interval (a : num) : Prop :=
  (Fin 0 <=? a) = true /\ (a <=? Fin 1) = true.

Definition finite_point (p : Point) : Prop :=
  is_finite (px p) = true /\ is_finite (py p) = true.

Definition finite_box (obj : DetectedObject) : Prop :=
  is_finite (x obj) = true /\ is_finite (y obj) = true
  /\ is_finite (width obj) = true /\ is_finite (height obj) = true.

(** The order the comparator [byScoreDesc] induces on candidates. *)
Definition scoreGe (a b : ScoredCandidate) : Prop :=
  (score a >=? score b) = true.

(** The score of a candidate is a number (not [NaN]). *)
Definition scored_number (c : ScoredCandidate) : Prop :=
  is_nan (score c) = false.

(** The Euclidean distance from the centre of the path's bounding box to
    the centre of the candidate, and the diagonal of that bounding box, as
    [scoreObject] computes them. *)
Definition centreDistance (path : list Point) (obj : DetectedObject) : num :=
  let pathBounds := getPathBounds path in
  Math_sqrt
    (Math_pow2 (bounds_x pathBounds + bounds_width pathBounds / Fin 2
                - (x obj + width obj / Fin 2))
     + Math_pow2 (bounds_y pathBounds + bounds_height pathBounds / Fin 2
                  - (y obj + height obj / Fin 2))).

Definition pathDiagonal (path : list Point) : num :=
  let pathBounds := getPathBounds path in
  Math_sqrt (Math_pow2 (bounds_width pathBounds)
             + Math_pow2 (bounds_height pathBounds)).

Definition pathArea (path : list Point) : num :=
  bounds_width (getPathBounds path) * bounds_height (getPathBounds path).

Definition objArea (obj : DetectedObject) : num := width obj * height obj.

End Predicates.

(* ================================================================= *)
(** ** The specification's wording of the distance factor *)

Module ResolverSpec.

Import JS PenSelector.
Local Open Scope js_scope.

(** The centroid of a path: the mean of its points. *)
Definition spec_centroid (path : list Point) : num * num :=
  let n := of_nat (List.length path) in
  (fold_left add (map px path) (Fin 0) / n,
   fold_left add (map py path) (Fin 0) / n).

(** "1 minus the Euclidean distance between the path's centroid and the
    candidate's center, normalized by the path's own diagonal length". *)
Definition spec_distance_factor (path : list Point) (obj : DetectedObject)
  : num :=
  let c := spec_centroid path in
  let d :=
    Math_sqrt (Math_pow2 (fst c - (x obj + width obj / Fin 2))
               + Math_pow2 (snd c - (y obj + height obj / Fin 2))) in
  Fin 1 - d / Predicates.pathDiagonal path.

(** The selection the specification describes, made on the remaining
    candidates in descending order of score: the top candidate alone when
    its score exceeds the second-best score by more than 0.2, the top three
    otherwise. *)
Definition spec_selection (kept : list ScoredCandidate)
  : list ScoredCandidate :=
  match kept with
  | [] => []
  | top :: rest =>
      let second := match rest with s :: _ => score s | [] => Fin 0 end in
      if score top - second >? Fin 0.2 then [top] else firstn 3 kept
  end.

(** "The top candidate", "the top three candidates": a candidate that
    remains (its score is above 0.3) and is not returned scores no higher
    than any returned one. *)
Definition spec_top_ranked (path : list Point)
  (objects result : list DetectedObject) : Prop :=
  forall o r,
    In o objects -> (score (scoreObject path o) >? Fin 0.3) = true ->
    ~ In o result -> In r result ->
    (score (scoreObject path r) >=? score (scoreObject path o)) = true.

End ResolverSpec.

(* ================================================================= *)
(** ** The image library: its contract and a reference instance

    The reference instance reduces an image buffer to its dimensions.
    [extractArea] follows the checks [sharp] and [libvips] make on an
    extract region: integer options that are not negative, a positive
    extent, a region inside the image. *)

Module ReferenceLib.

Import JS Exc GrokImageService.
Local Open Scope js_scope.

(** What the crop relies on: the library refuses an extract region whose
    width or height is not positive. *)
Definition rejects_empty_area {Buffer : Type} (lib : ImageLib Buffer)
  : Prop :=
  forall buf left top w h,
    (w >? Fin 0) = false \/ (h >? Fin 0) = false ->
    exists message, extract lib buf left top w h = Throw message.

Record Dims : Type := { dims_width : Z; dims_height : Z }.

(** The option check of [sharp]'s [extract]: an integer that is not
    negative. *)
Definition validOffset (v : num) : bool := is_integer v && (Fin 0 <=? v).

Definition extractArea (img : Dims) (left top width height : num) : exc Dims :=
  if negb (validOffset left) then Throw "Expected integer for left"
  else if negb (validOffset top) then Throw "Expected integer for top"
  else if negb (validOffset width) then Throw "Expected integer for width"
  else if negb (validOffset height) then Throw "Expected integer for height"
  else if (width >? Fin 0) && (height >? Fin 0)
          && (left + width <=? of_Z (dims_width img))
          && (top + height <=? of_Z (dims_height img))
  then match to_Z width, to_Z height with
       | Some w, Some h => Ok {| dims_width := w; dims_height := h |}
       | _, _ => Throw "extract_area: bad extract area"
       end
  else Throw "extract_area: bad extract area".

Definition documentDims (doc : Svg.Document) : Dims :=
  {| dims_width := match to_Z (Svg.svg_width doc) with
                   | Some w => w | None => 0%Z end;
     dims_height := match to_Z (Svg.svg_height doc) with
                    | Some h => h | None => 0%Z end |}.

(** The library serving one [source] image, with a generator that answers
    [generation]. *)
Definition lib (source : Dims) (generation : exc (option (option string)))
  : ImageLib Dims :=
  {| fetch := fun _ => Ok source;
     metadata := fun b => Ok (Some (dims_width b), Some (dims_height b));
     svgBuffer := documentDims;
     composite := fun base _ _ => Ok base;
     extract := extractArea;
     resize := fun _ w h => {| dims_width := w; dims_height := h |};
     png := fun b => Ok b;
     toBase64 := fun _ => "iVBORw0KGgo=";
     fromBase64 := fun _ => source;
     imagesEdit := fun _ _ => generation |}.

End ReferenceLib.

(* ================================================================= *)
(** ** The specification's wording of the service rules *)

Module ServiceSpec.

Import JS GrokImageService.
Local Open Scope js_scope.

(** "Clamp to image bounds": the four edges of the crop rectangle lie in
    [0, width] and [0, height]. *)
Definition spec_clamped (b : CropBounds) (imgWidth imgHeight : num) : Prop :=
  ((Fin 0 <=? minX b) = true /\ (minX b <=? imgWidth) = true)
  /\ ((Fin 0 <=? maxX b) = true /\ (maxX b <=? imgWidth) = true)
  /\ ((Fin 0 <=? minY b) = true /\ (minY b <=? imgHeight) = true)
  /\ ((Fin 0 <=? maxY b) = true /\ (maxY b <=? imgHeight) = true).

(** A result of the scene workflow that carries an image. *)
Definition scene_carries_image (r : SceneDiffResult) : Prop :=
  finalImageBase64 r <> None \/ originalScene r <> None
  \/ generatedScene r <> None \/ extractedDifferences r <> None.

End ServiceSpec.

(* ================================================================= *)
(** ** Sample polygons and answers of the backend *)

Module ServiceSamples.

Import JS GrokImageService.

Definition coords (l : list Q) : list num := map Fin l.

(** A polygon lying entirely to the right of a 100 x 100 image. *)
Definition outsidePolygon : list num := coords [150; 10; 200; 10; 200; 20].

(** A degenerate polygon: a vertical segment at abscissa 5. *)
Definition flatPolygon : list num := coords [5; 10; 5; 20].

(** A polygon reaching past the right and bottom edges of the image. *)
Definition overhangingPolygon : list num :=
  coords [80.5; 90; 120; 90; 120; 130.2; 80.5; 130.2].

(** A pentagram: its inner pentagon is wound twice. *)
Definition pentagram : list num :=
  coords [50; 0; 79; 90; 2; 35; 98; 35; 21; 90].

Definition image100 : ReferenceLib.Dims :=
  {| ReferenceLib.dims_width := 100; ReferenceLib.dims_height := 100 |}.

(** A library whose generator is unavailable. *)
Definition failingGenerator : ImageLib ReferenceLib.Dims :=
  ReferenceLib.lib image100 (Exc.Throw "503 Service Unavailable").

(** The backend answers of the client workflow: cropping succeeds,
    generation fails. *)
Definition cropOk (_ : string) (_ : list num)
  : GrokReplacementService.CropResult :=
  {| GrokReplacementService.crop_success := true;
     GrokReplacementService.croppedImageBase64 := Some "Q1JPUA==";
     GrokReplacementService.boundingBox := None;
     GrokReplacementService.crop_error := None |}.

Definition generateFails (_ _ _ : string)
  : GrokReplacementService.GenerateResult :=
  {| GrokReplacementService.gen_success := false;
     GrokReplacementService.generatedImageBase64 := None;
     GrokReplacementService.gen_revisedPrompt := None;
     GrokReplacementService.gen_error :=
       Some "Generation request failed: 500" |}.

Definition noDifferences (_ _ : string) (_ : list num) : DiffResult :=
  {| diff_success := false; differenceImageBase64 := None;
     diff_error := Some "Difference extraction failed" |}.

End ServiceSamples.

(* ================================================================= *)
(** ** Further predicates and sample inputs *)

Module CapabilityPredicates.

(** The names every JavaScript object inherits from [Object.prototype]: a
    lookup of one of them in an object literal does not answer
    [undefined], so they lie outside the tables of [YOLO11API]. *)
Definition objectPrototypeKeys : list string :=
  [ "constructor"; "__defineGetter__"; "__defineSetter__"; "hasOwnProperty";
    "__lookupGetter__"; "__lookupSetter__"; "isPrototypeOf";
    "propertyIsEnumerable"; "toString"; "valueOf"; "__proto__";
    "toLocaleString" ].

Definition ownKey (k : string) : Prop :=
  YOLO11API.includes objectPrototypeKeys k = false.

End CapabilityPredicates.

Module GeometryPredicates.

Import JS PenSelector.
Local Open Scope js_scope.

(** A point with rational coordinates inside the closed box
    [lox, hix] x [loy, hiy]. *)
Definition within (lox hix loy hiy : Q) (p : Point) : Prop :=
  exists a b, p = {| px := Fin a; py := Fin b |}
              /\ (lox <= a <= hix)%Q /\ (loy <= b <= hiy)%Q.

(** A box with finite coordinates whose width and height are not
    negative. *)
Definition proper_bounds (b : Bounds) : Prop :=
  Predicates.is_finite (bounds_x b) = true
  /\ Predicates.is_finite (bounds_y b) = true
  /\ Predicates.is_finite (bounds_width b) = true
  /\ Predicates.is_finite (bounds_height b) = true
  /\ (Fin 0 <=? bounds_width b) = true
  /\ (Fin 0 <=? bounds_height b) = true.

(** The box [inner] lies in the box [outer]. *)
Definition insideBounds (inner outer : Bounds) : Prop :=
  (bounds_x outer <=? bounds_x inner) = true
  /\ (bounds_x inner + bounds_width inner
      <=? bounds_x outer + bounds_width outer) = true
  /\ (bounds_y outer <=? bounds_y inner) = true
  /\ (bounds_y inner + bounds_height inner
      <=? bounds_y outer + bounds_height outer) = true.

(** The two boxes lie apart, or merely touch, along one axis. *)
Definition apartBounds (a b : Bounds) : Prop :=
  (bounds_x a + bounds_width a <=? bounds_x b) = true
  \/ (bounds_x b + bounds_width b <=? bounds_x a) = true
  \/ (bounds_y a + bounds_height a <=? bounds_y b) = true
  \/ (bounds_y b + bounds_height b <=? bounds_y a) = true.

(** The box of a detection. *)
Definition boxOf (d : DetectedObject) : Bounds :=
  {| bounds_x := x d; bounds_y := y d;
     bounds_width := width d; bounds_height := height d |}.

End GeometryPredicates.

(* ================================================================= *)
(** ** [yolo-detector.ts] and [yolo11-real.ts]: non-maximum suppression *)

(** A [Detection] of the detectors is a [DetectedObject] whose optional
    fields are absent.  [Array.prototype.sort] sorts the argument in place;
    the loops that follow read the sorted array. *)
Module YOLOv8.

Import JS PenSelector.
Local Open Scope js_scope.

Definition iouThreshold : num := Fin 0.5.

Definition calculateIoU (box1 box2 : DetectedObject) : num :=
  let x1 := Math_max (x box1) (x box2) in
  let y1 := Math_max (y box1) (y box2) in
  let x2 := Math_min (x box1 + width box1) (x box2 + width box2) in
  let y2 := Math_min (y box1 + height box1) (y box2 + height box2) in
  let intersection :=
    Math_max (Fin 0) (x2 - x1) * Math_max (Fin 0) (y2 - y1) in
  let area1 := width box1 * height box1 in
  let area2 := width box2 * height box2 in
  let union := area1 + area2 - intersection in
  intersection / union.

(** The comparator [(a, b) => b.confidence - a.confidence]. *)
Definition byConfidenceDesc (a b : DetectedObject) : num :=
  confidence b - confidence a.

(** The inner loop: [shouldKeep] stays true when no detection kept so far
    overlaps [detection] above the threshold. *)
Definition shouldKeep (filteredDetections : list DetectedObject)
  (detection : DetectedObject) : bool :=
  negb (existsb (fun kept => calculateIoU detection kept >? iouThreshold)
                filteredDetections).

(** The outer loop over the sorted detections, pushing onto
    [filteredDetections]. *)
Fixpoint suppress (detections filteredDetections : list DetectedObject)
  : list DetectedObject :=
  match detections with
  | [] => filteredDetections
  | detection :: rest =>
      if shouldKeep filteredDetections detection
      then suppress rest (filteredDetections ++ [detection])
      else suppress rest filteredDetections
  end.

Definition applyNMS (detections : list DetectedObject)
  : list DetectedObject :=
  suppress (sort byConfidenceDesc detections) [].

(** Size of the image the detections refer to. *)
Record ImageElement : Type := { naturalWidth : num; naturalHeight : num }.

(** [calculatePathBounds]: the drawing is scaled from the 800 x 600 canvas
    to the image first. *)
Definition calculatePathBounds (points : list Point)
  (imageElement : ImageElement) : Bounds :=
  let scaleX := naturalWidth imageElement / Fin 800 in
  let scaleY := naturalHeight imageElement / Fin 600 in
  let scaledPoints :=
    map (fun p => {| px := px p * scaleX; py := py p * scaleY |}) points in
  let xs := map px scaledPoints in
  let ys := map py scaledPoints in
  let minX := Math_min_list xs in
  let minY := Math_min_list ys in
  let maxX := Math_max_list xs in
  let maxY := Math_max_list ys in
  {| bounds_x := minX; bounds_y := minY;
     bounds_width := maxX - minX; bounds_height := maxY - minY |}.

(** The callback of [detections.filter] in [filterByDrawingPath]. *)
Definition overlapsPath (pathBounds : Bounds) (detection : DetectedObject)
  : bool :=
  let overlapX :=
    Math_max (Fin 0)
      (Math_min (x detection + width detection)
                (bounds_x pathBounds + bounds_width pathBounds)
       - Math_max (x detection) (bounds_x pathBounds)) in
  let overlapY :=
    Math_max (Fin 0)
      (Math_min (y detection + height detection)
                (bounds_y pathBounds + bounds_height pathBounds)
       - Math_max (y detection) (bounds_y pathBounds)) in
  let overlapArea := overlapX * overlapY in
  let objectArea := width detection * height detection in
  let overlapRatio :=
    if objectArea >? Fin 0 then overlapArea / objectArea else Fin 0 in
  overlapRatio >? Fin 0.3.

Definition filterByDrawingPath (detections : list DetectedObject)
  (drawingPath : list Point) (imageElement : ImageElement)
  : list DetectedObject :=
  let pathBounds := calculatePathBounds drawingPath imageElement in
  filter (overlapsPath pathBounds) detections.

End YOLOv8.

Module YOLO11Real.

Import JS PenSelector.
Local Open Scope js_scope.

Definition iouThreshold : num := Fin 0.5.

Definition calculateIoU (boxA boxB : DetectedObject) : num :=
  let xA := Math_max (x boxA) (x boxB) in
  let yA := Math_max (y boxA) (y boxB) in
  let xB := Math_min (x boxA + width boxA) (x boxB + width boxB) in
  let yB := Math_min (y boxA + height boxA) (y boxB + height boxB) in
  let interArea := Math_max (Fin 0) (xB - xA) * Math_max (Fin 0) (yB - yA) in
  let boxAArea := width boxA * height boxA in
  let boxBArea := width boxB * height boxB in
  interArea / (boxAArea + boxBArea - interArea).

Definition byConfidenceDesc (a b : DetectedObject) : num :=
  confidence b - confidence a.

Definition shouldKeep (kept : list DetectedObject) (detection : DetectedObject)
  : bool :=
  negb (existsb (fun keptDetection =>
                   calculateIoU detection keptDetection >? iouThreshold)
                kept).

Fixpoint suppress (detections kept : list DetectedObject)
  : list DetectedObject :=
  match detections with
  | [] => kept
  | detection :: rest =>
      if shouldKeep kept detection
      then suppress rest (kept ++ [detection])
      else suppress rest kept
  end.

(** [kept.slice(0, 10)]. *)
Definition applyNMS (detections : list DetectedObject)
  : list DetectedObject :=
  firstn 10 (suppress (sort byConfidenceDesc detections) []).

End YOLO11Real.

(* ================================================================= *)
(** ** [GoogleVisionService]: filtering by the drawing *)

Module GoogleVision.

Import JS PenSelector.
Local Open Scope js_scope.

(** A detection before its outline is generated
    ([Omit<DetectedObject, 'refinedPath'>]); [Bounds] is the [BoundingBox]
    interface. *)
Record VisionObject : Type := {
  name : string;
  confidence : num;
  boundingBox : Bounds
}.

(** [points] may be absent. *)
Record DrawingPath : Type := { points : option (list Point) }.

(** [calculatePathBounds]: no guard on the empty list. *)
Definition calculatePathBounds (points : list Point) : Bounds :=
  let xs := map px points in
  let ys := map py points in
  let minX := Math_min_list xs in
  let minY := Math_min_list ys in
  let maxX := Math_max_list xs in
  let maxY := Math_max_list ys in
  {| bounds_x := minX; bounds_y := minY;
     bounds_width := maxX - minX; bounds_height := maxY - minY |}.

(** The share of the object's box that lies in the box of the drawing. *)
Definition overlapRatio (pathBounds : Bounds) (obj : VisionObject) : num :=
  let objLeft := bounds_x (boundingBox obj) in
  let objRight := bounds_x (boundingBox obj) + bounds_width (boundingBox obj) in
  let objTop := bounds_y (boundingBox obj) in
  let objBottom :=
    bounds_y (boundingBox obj) + bounds_height (boundingBox obj) in
  let overlapX :=
    Math_max (Fin 0)
      (Math_min objRight (bounds_x pathBounds + bounds_width pathBounds)
       - Math_max objLeft (bounds_x pathBounds)) in
  let overlapY :=
    Math_max (Fin 0)
      (Math_min objBottom (bounds_y pathBounds + bounds_height pathBounds)
       - Math_max objTop (bounds_y pathBounds)) in
  let overlapArea := overlapX * overlapY in
  let objectArea :=
    bounds_width (boundingBox obj) * bounds_height (boundingBox obj) in
  if objectArea >? Fin 0 then overlapArea / objectArea else Fin 0.

Definition intersects (pathBounds : Bounds) (obj : VisionObject) : bool :=
  overlapRatio pathBounds obj >? Fin 0.3.

Definition filterObjectsByDrawingPath (objects : list VisionObject)
  (drawingPath : DrawingPath) : list VisionObject :=
  match points drawingPath with
  | None | Some [] => objects
  | Some pts => filter (intersects (calculatePathBounds pts)) objects
  end.

End GoogleVision.

(* ================================================================= *)
(** ** Predicates on suppressed detections *)

Module NMSPredicates.

Import JS PenSelector.
Local Open Scope js_scope.

(** [b], tested after [a] was kept, passes the overlap test against it. *)
Definition compatible (a b : DetectedObject) : Prop :=
  (YOLOv8.calculateIoU b a >? YOLOv8.iouThreshold) = false.

Definition numericConfidence (d : DetectedObject) : Prop :=
  is_nan (confidence d) = false.

(** The order the comparator [byConfidenceDesc] induces. *)
Definition confidenceGe (a b : DetectedObject) : Prop :=
  (confidence a >=? confidence b) = true.

End NMSPredicates.

(* ================================================================= *)
(** ** [extractImageDifferences]: the pixel loops *)

Module ImageDiff.

Import Exc.

(** A [Buffer] of raw 8-bit samples. *)
Definition Buffer : Type := list Byte.byte.

(** [data[i]]: [undefined] past the end. *)
Definition get (data : Buffer) (i : nat) : option Byte.byte := nth_error data i.

(** [buf[i] = v]: a store past the end is ignored, and [undefined] is
    stored as 0. *)
Fixpoint set (buf : Buffer) (i : nat) (v : option Byte.byte) : Buffer :=
  match buf, i with
  | [], _ => []
  | _ :: rest, O => match v with Some b => b | None => Byte.x00 end :: rest
  | b :: rest, S i' => b :: set rest i' v
  end.

(** [Buffer.alloc(n)]. *)
Definition alloc (n : nat) : Buffer := repeat Byte.x00 n.

(** The number a sample denotes. *)
Definition sample (b : Byte.byte) : Z := Z.of_N (Byte.to_N b).

(** [Math.abs(a - b)] on two reads: [NaN] ([None]) when one is
    [undefined]. *)
Definition absDiff (a b : option Byte.byte) : option Z :=
  match a, b with
  | Some a, Some b => Some (Z.abs (sample a - sample b))
  | _, _ => None
  end.

Definition plus (a b : option Z) : option Z :=
  match a, b with
  | Some a, Some b => Some (a + b)%Z
  | _, _ => None
  end.

Definition threshold : Z := 30.

(** [totalDiff > threshold]: false on [NaN]. *)
Definition exceeds (totalDiff : option Z) : bool :=
  match totalDiff with
  | Some t => (threshold <? t)%Z
  | None => false
  end.

Definition black (buf : Buffer) (i : nat) : Buffer :=
  set (set (set buf i (Some Byte.x00)) (i + 1) (Some Byte.x00))
      (i + 2) (Some Byte.x00).

(** The loop [for (i = 0, maskIndex = 0; i < length; i += 3, maskIndex++)]
    around [body]; [fuel] bounds the number of iterations. *)
Fixpoint forPixels (body : nat -> nat -> Buffer -> Buffer) (length : nat)
  (fuel i maskIndex : nat) (buf : Buffer) : Buffer :=
  match fuel with
  | O => buf
  | S fuel' =>
      if (i <? length)%nat
      then forPixels body length fuel' (i + 3) (maskIndex + 1)
             (body i maskIndex buf)
      else buf
  end.

Definition totalDiff (originalData generatedData : Buffer) (i : nat)
  : option Z :=
  let rDiff := absDiff (get originalData i) (get generatedData i) in
  let gDiff := absDiff (get originalData (i + 1)) (get generatedData (i + 1)) in
  let bDiff := absDiff (get originalData (i + 2)) (get generatedData (i + 2)) in
  plus (plus rDiff gDiff) bDiff.

(** The body of the first loop. *)
Definition diffPixel (originalData generatedData : Buffer)
  (i maskIndex : nat) (diffBuffer : Buffer) : Buffer :=
  if exceeds (totalDiff originalData generatedData i)
  then set (set (set diffBuffer i (get generatedData i))
                (i + 1) (get generatedData (i + 1)))
           (i + 2) (get generatedData (i + 2))
  else black diffBuffer i.

(** The first loop, on a fresh buffer of the length of [originalData]. *)
Definition thresholdLoop (originalData generatedData : Buffer) : Buffer :=
  forPixels (diffPixel originalData generatedData)
    (List.length originalData) (List.length originalData) 0 0
    (alloc (List.length originalData)).

(** [maskBuffer[maskIndex] < 128]: false on [undefined]. *)
Definition masked (maskBuffer : Buffer) (maskIndex : nat) : bool :=
  match get maskBuffer maskIndex with
  | Some m => (sample m <? 128)%Z
  | None => false
  end.

(** The body of the second loop. *)
Definition maskPixel (maskBuffer : Buffer) (i maskIndex : nat)
  (diffBuffer : Buffer) : Buffer :=
  if masked maskBuffer maskIndex then black diffBuffer i else diffBuffer.

Definition maskLoop (maskBuffer diffBuffer : Buffer) : Buffer :=
  forPixels (maskPixel maskBuffer)
    (List.length diffBuffer) (List.length diffBuffer) 0 0 diffBuffer.

(** The image library as this function uses it. *)
Record RawLib : Type := {
  (* [sharp(Buffer.from(b64, "base64")).resize(1024, 1024).raw()
     .toBuffer({ resolveWithObject: true })]: the data, and the width and
     height of [info] *)
  rawResized : string -> exc (Buffer * (Z * Z));
  (* [sharp(Buffer.from(maskSvg)).resize(1024, 1024).greyscale().raw()
     .toBuffer()] *)
  rawMask : Svg.Document -> exc Buffer;
  (* [sharp(diffBuffer, { raw: { width, height, channels: 3 } }).png()
     .toBuffer()], then [toString("base64")] *)
  pngBase64 : Buffer -> Z * Z -> exc string
}.

Definition diffFailure (message : string) : GrokImageService.DiffResult :=
  {| GrokImageService.diff_success := false;
     GrokImageService.differenceImageBase64 := None;
     GrokImageService.diff_error := Some message |}.

(** The two images are decoded under [Promise.all]; when both decodings
    fail, the error reported here is that of the original. *)
Definition extractImageDifferences (lib : RawLib)
  (originalBase64 generatedBase64 : string) (segmentationMask : list JS.num)
  : GrokImageService.DiffResult :=
  let attempt : exc GrokImageService.DiffResult :=
    original <- rawResized lib originalBase64 ;;
    generated <- rawResized lib generatedBase64 ;;
    let originalData := fst original in
    let originalInfo := snd original in
    let generatedData := fst generated in
    let diffBuffer := thresholdLoop originalData generatedData in
    diffBuffer <-
      (match segmentationMask with
       | [] => Ok diffBuffer
       | _ =>
           let maskSvg :=
             GrokImageService.createSegmentationMaskSVG segmentationMask
               (JS.Fin 1024) (JS.Fin 1024) in
           maskBuffer <- rawMask lib maskSvg ;;
           Ok (maskLoop maskBuffer diffBuffer)
       end) ;;
    differenceImage <- pngBase64 lib diffBuffer originalInfo ;;
    Ok {| GrokImageService.diff_success := true;
          GrokImageService.differenceImageBase64 := Some differenceImage;
          GrokImageService.diff_error := None |} in
  match attempt with
  | Ok r => r
  | Throw message => diffFailure message
  end.

End ImageDiff.

(** What the two loops leave at index [j], pixel [j / 3]. *)
Module ImageDiffPredicates.

Import ImageDiff.

Definition differenceSample (originalData generatedData : Buffer) (j : nat)
  : Byte.byte :=
  if exceeds (totalDiff originalData generatedData (3 * (j / 3)))
  then match get generatedData j with Some b => b | None => Byte.x00 end
  else Byte.x00.

Definition maskedSample (maskBuffer : Buffer) (j : nat) (old : Byte.byte)
  : Byte.byte :=
  if masked maskBuffer (j / 3) then Byte.x00 else old.

(** The result that carries the encoding of [diffBuffer]. *)
Definition encoded (lib : RawLib) (diffBuffer : Buffer) (info : Z * Z)
  : GrokImageService.DiffResult :=
  match pngBase64 lib diffBuffer info with
  | Exc.Ok differenceImage =>
      {| GrokImageService.diff_success := true;
         GrokImageService.differenceImageBase64 := Some differenceImage;
         GrokImageService.diff_error := None |}
  | Exc.Throw message => diffFailure message
  end.

End ImageDiffPredicates.

(* ================================================================= *)
(** ** The deprecated workflow [replaceObject] *)

Module ReplaceObject.

Import JS Exc GrokImageService.

(** The result of [replaceObject]. *)
Record ReplaceResult : Type := {
  ro_success : bool;
  ro_finalImageBase64 : option string;
  ro_croppedObject : option string;
  ro_generatedReplacement : option string;
  ro_boundingBox : option BoundingBox;
  ro_revisedPrompt : option string;
  ro_error : option string
}.

Definition replaceFailure (message : string) : ReplaceResult :=
  {| ro_success := false; ro_finalImageBase64 := None;
     ro_croppedObject := None; ro_generatedReplacement := None;
     ro_boundingBox := None; ro_revisedPrompt := None;
     ro_error := Some message |}.

(** The object literal that stands for the generation step. *)
Record GenerateResult : Type := {
  gen_success : bool;
  gen_generatedImageBase64 : option string;
  gen_revisedPrompt : option string;
  gen_error : option string
}.

Definition generateResult : GenerateResult :=
  {| gen_success := false; gen_generatedImageBase64 := None;
     gen_revisedPrompt := None;
     gen_error :=
       Some "This method is deprecated. Use replaceObjectWithSceneDiff instead." |}.

Section Workflow.
(** The crop never throws; the placement returns the final image of its
    result, or throws. *)
Variable cropObjectFromImage : string -> list num -> CropResult.
Variable placeGeneratedObjectWithMask :
  string -> option string -> list num -> option BoundingBox
  -> exc (option string).

(** [replaceObject] as bundled ([dist]). *)
Definition replaceObject (imageUrl : string) (segmentationMask : list num)
  (replacementPrompt : string) : ReplaceResult :=
  let attempt : exc ReplaceResult :=
    let cropResult := cropObjectFromImage imageUrl segmentationMask in
    if negb (crop_success cropResult)
       || negb (present (croppedImageBase64 cropResult))
    then Throw ("Cropping failed: " ++ show (crop_error cropResult))
    else
      if negb (gen_success generateResult)
         || negb (present (gen_generatedImageBase64 generateResult))
      then Throw ("Generation failed: " ++ show (gen_error generateResult))
      else
        finalImageBase64 <-
          placeGeneratedObjectWithMask imageUrl
            (gen_generatedImageBase64 generateResult)
            segmentationMask (boundingBox cropResult) ;;
        Ok {| ro_success := true;
              ro_finalImageBase64 := finalImageBase64;
              ro_croppedObject := croppedImageBase64 cropResult;
              ro_generatedReplacement :=
                gen_generatedImageBase64 generateResult;
              ro_boundingBox := boundingBox cropResult;
              ro_revisedPrompt := gen_revisedPrompt generateResult;
              ro_error := None |} in
  match attempt with
  | Ok r => r
  | Throw message => replaceFailure message
  end.

(** [replaceObject] of [server/grok-image-service.ts]: the generation and
    the placement are replaced by one [throw]. *)
Definition replaceObjectTs (imageUrl : string) (segmentationMask : list num)
  (replacementPrompt : string) : ReplaceResult :=
  let attempt : exc ReplaceResult :=
    let cropResult := cropObjectFromImage imageUrl segmentationMask in
    if negb (crop_success cropResult)
       || negb (present (croppedImageBase64 cropResult))
    then Throw ("Cropping failed: " ++ show (crop_error cropResult))
    else
      Throw "This method is deprecated. Use replaceObjectWithSceneDiff instead." in
  match attempt with
  | Ok r => r
  | Throw message => replaceFailure message
  end.

End Workflow.

End ReplaceObject.

(* ================================================================= *)
(** ** The routes under [/api/grok] ([server/routes.ts]) *)

Module GrokRoutes.

Import JS Exc GrokImageService.

(** What a handler answers: the status, and the value given to
    [res.json]. *)
Record Response (A : Type) : Type := { status : nat; json : A }.
Arguments status {A}.
Arguments json {A}.

(** The answer of the generation route. *)
Record GenerateJson : Type := {
  gj_success : bool;
  gj_generatedImageBase64 : option string;
  gj_revisedPrompt : option string;
  gj_error : option string
}.

Definition generateError (message : string) : GenerateJson :=
  {| gj_success := false; gj_generatedImageBase64 := None;
     gj_revisedPrompt := None; gj_error := Some message |}.

Section Handlers.
(** The service behind the routes, loaded by [await import(...)] in each
    handler; the load succeeds or throws.  The service has no method
    [generateReplacement]: calling it throws a [TypeError], whose message
    is [notAFunction]. *)
Variable importService : exc unit.
Variable cropObjectFromImage : string -> list num -> CropResult.
Variable replaceObject :
  string -> list num -> string -> ReplaceObject.ReplaceResult.
Variable notAFunction : string.

Definition generateReplacement (croppedObjectImage replacementPrompt : string)
  (originalImageUrl : option string) : exc GenerateJson :=
  Throw notAFunction.

(** [POST /api/grok/crop-object]; an absent field of the body is [None]. *)
Definition cropObjectRoute (imageUrl : option string)
  (segmentationMask : option (list num)) : Response CropResult :=
  match imageUrl, segmentationMask with
  | Some url, Some mask =>
      if present imageUrl
      then
        match (_ <- importService ;; Ok (cropObjectFromImage url mask)) with
        | Ok result => {| status := 200; json := result |}
        | Throw message => {| status := 500; json := cropFailure message |}
        end
      else {| status := 400;
              json := cropFailure "imageUrl and segmentationMask are required" |}
  | _, _ =>
      {| status := 400;
         json := cropFailure "imageUrl and segmentationMask are required" |}
  end.

(** [POST /api/grok/generate-replacement]. *)
Definition generateReplacementRoute
  (croppedObjectImage replacementPrompt originalImageUrl : option string)
  : Response GenerateJson :=
  match croppedObjectImage, replacementPrompt with
  | Some cropped, Some prompt =>
      if present croppedObjectImage && present replacementPrompt
      then
        match (_ <- importService ;;
               generateReplacement cropped prompt originalImageUrl) with
        | Ok result => {| status := 200; json := result |}
        | Throw message => {| status := 500; json := generateError message |}
        end
      else {| status := 400;
              json := generateError
                        "croppedObjectImage and replacementPrompt are required" |}
  | _, _ =>
      {| status := 400;
         json := generateError
                   "croppedObjectImage and replacementPrompt are required" |}
  end.

(** [POST /api/grok/replace-object]. *)
Definition replaceObjectRoute (imageUrl : option string)
  (segmentationMask : option (list num)) (replacementPrompt : option string)
  : Response ReplaceObject.ReplaceResult :=
  match imageUrl, segmentationMask, replacementPrompt with
  | Some url, Some mask, Some prompt =>
      if present imageUrl && present replacementPrompt
      then
        match (_ <- importService ;; Ok (replaceObject url mask prompt)) with
        | Ok result => {| status := 200; json := result |}
        | Throw message =>
            {| status := 500; json := ReplaceObject.replaceFailure message |}
        end
      else {| status := 400;
              json := ReplaceObject.replaceFailure
                        "imageUrl, segmentationMask, and replacementPrompt are required" |}
  | _, _, _ =>
      {| status := 400;
         json := ReplaceObject.replaceFailure
                   "imageUrl, segmentationMask, and replacementPrompt are required" |}
  end.

End Handlers.

End GrokRoutes.

(* ================================================================= *)
(** ** The requests of the client ([GrokReplacementService]) *)

Module GrokReplacementClient.

Import JS Exc GrokReplacementService.

(** [response.ok]. *)
Definition ok (status : nat) : bool :=
  ((200 <=? status) && (status <=? 299))%nat.

(** [`${response.status}`]. *)
Definition showStatus (status : nat) : string :=
  NilEmpty.string_of_uint (Nat.to_uint status).

Section Client.
Variable baseUrl : string.
(** [fetch(url, { method: 'POST', body: JSON.stringify(request) })],
    one function for each shape of request: it throws, or resolves to the
    status and the parsed body of the response. *)
Variable postCrop :
  string -> string -> list num -> exc (GrokRoutes.Response CropResult).
Variable postGenerate :
  string -> string -> string -> string
  -> exc (GrokRoutes.Response GenerateResult).
Variable postComplete :
  string -> string -> list num -> string
  -> exc (GrokRoutes.Response CompleteReplacementResult).

Definition cropObject (imageUrl : string) (segmentationMask : list num)
  : CropResult :=
  let attempt : exc CropResult :=
    response <-
      postCrop (baseUrl ++ "/api/grok/crop-object")%string
        imageUrl segmentationMask ;;
    if negb (ok (GrokRoutes.status response))
    then Throw ("Crop request failed: "
                ++ showStatus (GrokRoutes.status response))
    else Ok (GrokRoutes.json response) in
  match attempt with
  | Ok result => result
  | Throw message =>
      {| crop_success := false; croppedImageBase64 := None;
         boundingBox := None; crop_error := Some message |}
  end.

Definition generateReplacement
  (croppedObjectImage replacementPrompt originalImageUrl : string)
  : GenerateResult :=
  let attempt : exc GenerateResult :=
    response <-
      postGenerate (baseUrl ++ "/api/grok/generate-replacement")%string
        croppedObjectImage replacementPrompt originalImageUrl ;;
    if negb (ok (GrokRoutes.status response))
    then Throw ("Generation request failed: "
                ++ showStatus (GrokRoutes.status response))
    else Ok (GrokRoutes.json response) in
  match attempt with
  | Ok result => result
  | Throw message =>
      {| gen_success := false; generatedImageBase64 := None;
         gen_revisedPrompt := None; gen_error := Some message |}
  end.

Definition replaceObjectComplete (imageUrl : string)
  (segmentationMask : list num) (replacementPrompt : string)
  : CompleteReplacementResult :=
  let attempt : exc CompleteReplacementResult :=
    response <-
      postComplete (baseUrl ++ "/api/grok/replace-object")%string
        imageUrl segmentationMask replacementPrompt ;;
    if negb (ok (GrokRoutes.status response))
    then Throw ("Complete replacement failed: "
                ++ showStatus (GrokRoutes.status response))
    else Ok (GrokRoutes.json response) in
  match attempt with
  | Ok result => result
  | Throw message =>
      {| success := false; finalImageBase64 := None; croppedObject := None;
         generatedReplacement := None; resultBoundingBox := None;
         revisedPrompt := None; error := Some message |}
  end.

End Client.

(** *** The wire format: a result of the server as the client reads it *)

Definition boxOnWire (b : GrokImageService.BoundingBox) : BoundingBox :=
  {| box_x := GrokImageService.box_x b; box_y := GrokImageService.box_y b;
     box_width := GrokImageService.box_width b;
     box_height := GrokImageService.box_height b |}.

Definition cropOnWire (r : GrokImageService.CropResult) : CropResult :=
  {| crop_success := GrokImageService.crop_success r;
     croppedImageBase64 := GrokImageService.croppedImageBase64 r;
     boundingBox := option_map boxOnWire (GrokImageService.boundingBox r);
     crop_error := GrokImageService.crop_error r |}.

Definition generateOnWire (r : GrokRoutes.GenerateJson) : GenerateResult :=
  {| gen_success := GrokRoutes.gj_success r;
     generatedImageBase64 := GrokRoutes.gj_generatedImageBase64 r;
     gen_revisedPrompt := GrokRoutes.gj_revisedPrompt r;
     gen_error := GrokRoutes.gj_error r |}.

Definition replaceOnWire (r : ReplaceObject.ReplaceResult)
  : CompleteReplacementResult :=
  {| success := ReplaceObject.ro_success r;
     finalImageBase64 := ReplaceObject.ro_finalImageBase64 r;
     croppedObject := ReplaceObject.ro_croppedObject r;
     generatedReplacement := ReplaceObject.ro_generatedReplacement r;
     resultBoundingBox :=
       option_map boxOnWire (ReplaceObject.ro_boundingBox r);
     revisedPrompt := ReplaceObject.ro_revisedPrompt r;
     error := ReplaceObject.ro_error r |}.

Definition onWire {A B} (f : A -> B) (r : GrokRoutes.Response A)
  : GrokRoutes.Response B :=
  {| GrokRoutes.status := GrokRoutes.status r;
     GrokRoutes.json := f (GrokRoutes.json r) |}.

(** *** A network that delivers, or fails

    A request that gets through is answered by the route of its path.  The
    strings of the request arrive as they were sent; the mask arrives as
    [JSON.stringify] and the body parser leave it.  Numbers that are not
    finite, which JSON writes as [null], are outside this wire format. *)
Section Network.
Variable importService : exc unit.
Variable cropObjectFromImage : string -> list num -> GrokImageService.CropResult.
Variable replaceObject :
  string -> list num -> string -> ReplaceObject.ReplaceResult.
Variable notAFunction : string.
Variable baseUrl : string.

Definition generateServed
  (postGenerate : string -> string -> string -> string
                  -> exc (GrokRoutes.Response GenerateResult)) : Prop :=
  forall croppedObjectImage replacementPrompt originalImageUrl response,
    postGenerate (baseUrl ++ "/api/grok/generate-replacement")%string
      croppedObjectImage replacementPrompt originalImageUrl
    = Ok response ->
    response
    = onWire generateOnWire
        (GrokRoutes.generateReplacementRoute importService notAFunction
           (Some croppedObjectImage) (Some replacementPrompt)
           (Some originalImageUrl)).

Definition completeServed
  (postComplete : string -> string -> list num -> string
                  -> exc (GrokRoutes.Response CompleteReplacementResult))
  : Prop :=
  forall imageUrl segmentationMask replacementPrompt response,
    postComplete (baseUrl ++ "/api/grok/replace-object")%string
      imageUrl segmentationMask replacementPrompt
    = Ok response ->
    exists received,
      response
      = onWire replaceOnWire
          (GrokRoutes.replaceObjectRoute importService replaceObject
             (Some imageUrl) (Some received) (Some replacementPrompt)).

End Network.

End GrokReplacementClient.

(* ================================================================= *)
(** ** The two-step replacement ([server/openai-service.ts]) and its route *)

Module OpenAIService.

Import JS Exc.

Record Bounds : Type := {
  x : num;
  y : num;
  width : num;
  height : num
}.

(** [ObjectModificationRequest & { objectMask?: string }]. *)
Record Request : Type := {
  objectName : string;
  originalImageUrl : string;
  modificationPrompt : string;
  objectBounds : Bounds;
  objectMask : option string
}.

Record RemovalResult : Type := {
  removal_success : bool;
  removal_cleanedImageUrl : string;
  method : option string
}.

Record TwoStepResult : Type := {
  success : bool;
  result_originalImageUrl : string;
  cleanedImageUrl : string;
  finalImageUrl : string;
  result_modificationPrompt : string
}.

(** A string that is not falsy. *)
Definition present (s : option string) : option string :=
  match s with
  | Some "" | None => None
  | Some s => Some s
  end.

Definition quote : string := String (ascii_of_nat 34) "".

Definition removalPrompt : string :=
  "interior room with clean background, no objects, seamless walls and flooring, professional photography".

Definition objectPrompt (objectName modificationPrompt : string) : string :=
  "A photorealistic " ++ objectName ++ " that is " ++ modificationPrompt
  ++ ". Professional interior design photography, well-lit, modern style, placed in a room setting. High quality, detailed, realistic materials and textures.".

Definition analysisRequest (objectName userPrompt : string) : string :=
  "I want to modify a " ++ objectName ++ ". User request: " ++ quote
  ++ userPrompt ++ quote
  ++ ". Create a detailed prompt for image generation that captures the specific modifications while maintaining realism.".

Section Service.
(** [openai.images.generate] with a given prompt (the other fields of the
    request are constants): the request throws, or answers, and
    [response.data?.[0]?.url] is the URL of the answer, if it has one.  The
    two requests of the workflow never have the same prompt, so a function
    of the prompt covers every pair of outcomes.
    [openai.chat.completions.create] with a given user message: throws, or
    answers with [choices[0].message.content]. *)
Variable imagesGenerate : string -> exc (option string).
Variable chatCompletion : string -> exc (option string).

(** [catch (error) { throw new Error(`...: ${error.message}`) }]. *)
Definition rethrow {A : Type} (prefix : string) (m : exc A) : exc A :=
  match m with
  | Ok a => Ok a
  | Throw message => Throw (prefix ++ message)
  end.

Definition removeObjectWithInpainting (imageUrl : string)
  (objectBounds : Bounds) (objectMask : option string) : exc RemovalResult :=
  rethrow "Object removal failed: "
    (response <- imagesGenerate removalPrompt ;;
     match present response with
     | None => Throw "No cleaned image URL returned from DALL-E 3"
     | Some url =>
         Ok {| removal_success := true;
               removal_cleanedImageUrl := url;
               method := Some "OpenAI Inpainting" |}
     end).

(** The result is [compositeImageUrl]. *)
Definition generateAndPlaceObject (cleanedImageUrl objectName
  modificationPrompt : string) (targetBounds : Bounds) : exc string :=
  rethrow "Object generation failed: "
    (objectResponse <-
       imagesGenerate (objectPrompt objectName modificationPrompt) ;;
     match present objectResponse with
     | None => Throw "No object image URL returned from DALL-E 3"
     | Some url => Ok url
     end).

Definition replaceObjectTwoStep (request : Request) : exc TwoStepResult :=
  rethrow "Object replacement failed: "
    (removalResult <-
       removeObjectWithInpainting (originalImageUrl request)
         (objectBounds request) (objectMask request) ;;
     if negb (removal_success removalResult)
     then Throw "Object removal failed"
     else
       compositeImageUrl <-
         generateAndPlaceObject (removal_cleanedImageUrl removalResult)
           (objectName request) (modificationPrompt request)
           (objectBounds request) ;;
       Ok {| success := true;
             result_originalImageUrl := originalImageUrl request;
             cleanedImageUrl := removal_cleanedImageUrl removalResult;
             finalImageUrl := compositeImageUrl;
             result_modificationPrompt := modificationPrompt request |}).

(** Never throws: a failed request gives the user's prompt back. *)
Definition analyzeObjectForModification (objectName userPrompt : string)
  : string :=
  match chatCompletion (analysisRequest objectName userPrompt) with
  | Ok content =>
      match present content with
      | Some content => content
      | None => userPrompt
      end
  | Throw _ => userPrompt
  end.

(** *** [POST /api/objects/:objectId/replace] *)

(** The fields read from the body; an absent field is [None]. *)
Record Body : Type := {
  body_modificationPrompt : option string;
  body_objectName : option string;
  body_originalImageUrl : option string;
  body_objectBounds : option Bounds;
  body_objectMask : option string
}.

(** The [replacement] of the answer, without its [id] and [createdAt],
    which are read from the clock. *)
Record Replacement : Type := {
  objectId : num;
  replacement_originalImageUrl : string;
  replacement_cleanedImageUrl : string;
  replacement_finalImageUrl : string;
  replacement_modificationPrompt : string;
  replacement_method : string
}.

Inductive ReplaceJson : Type :=
| replaced (replacement : Replacement) (step1 step2 technology : string)
| missingFields (message : string)
| failed (message error details : string).

Definition defaultBounds : Bounds :=
  {| x := Fin 0; y := Fin 0; width := Fin 100; height := Fin 100 |}.

(** The handler; [objectId] is [parseInt(req.params.objectId)].  [res.json]
    is taken not to throw, so the inner [catch] is never entered. *)
Definition replaceRoute (objectId : num) (body : Body)
  : GrokRoutes.Response ReplaceJson :=
  match present (body_modificationPrompt body),
        present (body_objectName body),
        present (body_originalImageUrl body) with
  | Some modificationPrompt, Some objectName, Some originalImageUrl =>
      let enhancedPrompt :=
        analyzeObjectForModification objectName modificationPrompt in
      match replaceObjectTwoStep
              {| objectName := objectName;
                 originalImageUrl := originalImageUrl;
                 modificationPrompt := enhancedPrompt;
                 objectBounds :=
                   match body_objectBounds body with
                   | Some objectBounds => objectBounds
                   | None => defaultBounds
                   end;
                 objectMask := body_objectMask body |} with
      | Ok result =>
          {| GrokRoutes.status := 200;
             GrokRoutes.json :=
               replaced
                 {| objectId := objectId;
                    replacement_originalImageUrl :=
                      result_originalImageUrl result;
                    replacement_cleanedImageUrl := cleanedImageUrl result;
                    replacement_finalImageUrl := finalImageUrl result;
                    replacement_modificationPrompt := enhancedPrompt;
                    replacement_method := "two-step-replacement" |}
                 "Object removed and background filled using AI inpainting"
                 "New object generated and placed in the scene"
                 "Samsung-style object removal + DALL-E 3 generation" |}
      | Throw message =>
          {| GrokRoutes.status := 500;
             GrokRoutes.json :=
               failed "Failed to replace object" message
                 "Two-step replacement process failed" |}
      end
  | _, _, _ =>
      {| GrokRoutes.status := 400;
         GrokRoutes.json :=
           missingFields
             "Missing required fields: modificationPrompt, objectName, originalImageUrl" |}
  end.

End Service.

End OpenAIService.

(* ================================================================= *)
(** ** The specification's wording of the partial result *)

Module ReplacementSpec.

Import Exc OpenAIService.

(** "Returns the cleaned (object-removed) image to the caller": the
    workflow returns a result, and the result carries the cleaned image. *)
Definition returns_cleaned_image (cleaned : string)
  (outcome : exc TwoStepResult) : Prop :=
  exists result, outcome = Ok result /\ cleanedImageUrl result = cleaned.

(** The answer of the route carries the cleaned image. *)
Definition answers_cleaned_image (cleaned : string)
  (answer : GrokRoutes.Response ReplaceJson) : Prop :=
  exists replacement step1 step2 technology,
    GrokRoutes.json answer = replaced replacement step1 step2 technology
    /\ replacement_cleanedImageUrl replacement = cleaned.

End ReplacementSpec.

Module TwoStepSamples.

Import JS Exc OpenAIService.

Definition sofaBounds : Bounds :=
  {| x := Fin 120; y := Fin 200; width := Fin 300; height := Fin 150 |}.

(** The image service answers the removal request and refuses the next
    one. *)
Definition removalOnly (prompt : string) : exc (option string) :=
  if String.eqb prompt removalPrompt
  then Ok (Some "https://images.example/cleaned.png")
  else Throw "429 Rate limit reached".

Definition chatUnavailable (_ : string) : exc (option string) :=
  Throw "503 Service Unavailable".

Definition sofaRequest : Request :=
  {| objectName := "sofa";
     originalImageUrl := "https://images.example/room.png";
     modificationPrompt := "a red sofa";
     objectBounds := sofaBounds;
     objectMask := None |}.

Definition sofaBody : Body :=
  {| body_modificationPrompt := Some "a red sofa";
     body_objectName := Some "sofa";
     body_originalImageUrl := Some "https://images.example/room.png";
     body_objectBounds := Some sofaBounds;
     body_objectMask := None |}.

End TwoStepSamples.

Module MoreSamples.

Import JS PenSelector Samples.

Definition box (bx by_ w h : Q) : Bounds :=
  {| bounds_x := Fin bx; bounds_y := Fin by_;
     bounds_width := Fin w; bounds_height := Fin h |}.

(** The walls-and-floors detector (custom model). *)
Definition wallsFloorsYOLODetector : YOLO11API.YOLO11APIDetector :=
  {| YOLO11API.useCustomModel := true;
     YOLO11API.modelVersion := "walls_floors" |}.

(** An image of the size of the canvas, and one twice as large. *)
Definition canvasSized : YOLOv8.ImageElement :=
  {| YOLOv8.naturalWidth := Fin 800; YOLOv8.naturalHeight := Fin 600 |}.
Definition doubleSized : YOLOv8.ImageElement :=
  {| YOLOv8.naturalWidth := Fin 1600; YOLOv8.naturalHeight := Fin 1200 |}.

(** A chair inside the outline [chairOutline], a lamp away from it and a
    detection without extent. *)
Definition visionChair : GoogleVision.VisionObject :=
  {| GoogleVision.name := "Chair"; GoogleVision.confidence := Fin 0.8;
     GoogleVision.boundingBox := box 100 100 50 80 |}.
Definition visionLamp : GoogleVision.VisionObject :=
  {| GoogleVision.name := "Lamp"; GoogleVision.confidence := Fin 0.7;
     GoogleVision.boundingBox := box 300 20 30 60 |}.
Definition visionSpeck : GoogleVision.VisionObject :=
  {| GoogleVision.name := "Speck"; GoogleVision.confidence := Fin 0.7;
     GoogleVision.boundingBox := box 120 120 0 0 |}.

(** Raw data of two pixels, and a library that decodes every image to
    it. *)
Definition twoPixels : ImageDiff.Buffer :=
  [Byte.x10; Byte.x20; Byte.x30; Byte.xff; Byte.x00; Byte.x80].
Definition twoPixelsChanged : ImageDiff.Buffer :=
  [Byte.x10; Byte.x20; Byte.x3a; Byte.x00; Byte.x00; Byte.x80].
Definition halfMask : ImageDiff.Buffer := [Byte.xff; Byte.x00].

Definition constantLib : ImageDiff.RawLib :=
  {| ImageDiff.rawResized := fun _ => Exc.Ok (twoPixels, (2, 1)%Z);
     ImageDiff.rawMask := fun _ => Exc.Ok halfMask;
     ImageDiff.pngBase64 := fun _ _ => Exc.Ok "iVBORw0KGgo=" |}.

(** A crop request answered with a cropped image. *)
Definition deliverCrop (url imageUrl : string) (mask : list JS.num)
  : Exc.exc (GrokRoutes.Response GrokReplacementService.CropResult) :=
  Exc.Ok {| GrokRoutes.status := 200;
            GrokRoutes.json := ServiceSamples.cropOk imageUrl mask |}.

(** A network that delivers every request to the routes. *)
Definition deliverGenerate (url cropped prompt original : string)
  : Exc.exc (GrokRoutes.Response GrokReplacementService.GenerateResult) :=
  Exc.Ok (GrokReplacementClient.onWire GrokReplacementClient.generateOnWire
            (GrokRoutes.generateReplacementRoute (Exc.Ok tt)
               "grokImageService.generateReplacement is not a function"
               (Some cropped) (Some prompt) (Some original))).

Definition neverPlaced (_ : string) (_ : option string) (_ : list JS.num)
  (_ : option GrokImageService.BoundingBox) : Exc.exc (option string) :=
  Exc.Throw "not reached".

Definition deliverComplete (url imageUrl : string) (mask : list JS.num)
  (prompt : string)
  : Exc.exc (GrokRoutes.Response
               GrokReplacementService.CompleteReplacementResult) :=
  Exc.Ok (GrokReplacementClient.onWire GrokReplacementClient.replaceOnWire
            (GrokRoutes.replaceObjectRoute (Exc.Ok tt)
               (ReplaceObject.replaceObject
                  (GrokImageService.cropObjectFromImage
                     ServiceSamples.failingGenerator)
                  neverPlaced)
               (Some imageUrl) (Some mask) (Some prompt))).

End MoreSamples.

(* ================================================================= *)
(** * Properties *)

(* ================================================================= *)
(** ** Facts about numbers *)

Module JSFacts.

Import JS.
Local Open Scope js_scope.

(** *** The special values at work *)

Example div_by_zero :
  Fin 1 / Fin 0 = PInf /\ Fin (-1) / Fin 0 = NInf /\ Fin 0 / Fin 0 = NaN.
Proof. repeat split. Qed.

Example nan_compares_false (a : num) :
  (NaN <? a) = false /\ (a <? NaN) = false
  /\ (NaN <=? a) = false /\ (a >=? NaN) = false.
Proof. destruct a; repeat split. Qed.

Example min_max_of_nothing :
  Math_min_list [] = PInf /\ Math_max_list [] = NInf.
Proof. split; reflexivity. Qed.

Example sqrt_of_squares :
  num_eq (Math_sqrt (Fin 2500)) (Fin 50)
  /\ num_eq (Math_sqrt (Fin (9 # 4))) (Fin (3 # 2))
  /\ Math_sqrt (Fin (-1)) = NaN.
Proof. repeat split. Qed.

(** *** Rational tests as propositions *)
Lemma Qlt_bool_iff (p q : Q) : Qlt_bool p q = true <-> (p < q)%Q.
Proof.
  unfold Qlt_bool. rewrite negb_true_iff, <- not_true_iff_false, Qle_bool_iff.
  split; intro H; [apply Qnot_le_lt, H | apply Qlt_not_le, H].
Qed.

Lemma Qlt_bool_false_iff (p q : Q) : Qlt_bool p q = false <-> (q <= p)%Q.
Proof.
  unfold Qlt_bool. rewrite negb_false_iff. apply Qle_bool_iff.
Qed.

Lemma Qle_bool_false_iff (p q : Q) : Qle_bool p q = false <-> (q < p)%Q.
Proof.
  rewrite <- not_true_iff_false, Qle_bool_iff.
  split; intro H; [apply Qnot_le_lt, H | apply Qlt_not_le, H].
Qed.

Lemma Qeq_bool_false_iff (p q : Q) : Qeq_bool p q = false <-> ~ (p == q)%Q.
Proof.
  rewrite <- not_true_iff_false, Qeq_bool_iff. tauto.
Qed.

(** Case analysis on every rational test in sight. *)
Ltac qcases :=
  repeat match goal with
  | |- context [Qlt_bool ?a ?b] =>
      let H := fresh "Hq" in
      destruct (Qlt_bool a b) eqn:H;
      [apply Qlt_bool_iff in H | apply Qlt_bool_false_iff in H]
  | |- context [Qle_bool ?a ?b] =>
      let H := fresh "Hq" in
      destruct (Qle_bool a b) eqn:H;
      [apply Qle_bool_iff in H | apply Qle_bool_false_iff in H]
  | |- context [Qeq_bool ?a ?b] =>
      let H := fresh "Hq" in
      destruct (Qeq_bool a b) eqn:H;
      [apply Qeq_bool_iff in H | apply Qeq_bool_false_iff in H]
  end.

Ltac qhyps :=
  repeat match goal with
  | H : Qlt_bool _ _ = true |- _ => apply Qlt_bool_iff in H
  | H : Qlt_bool _ _ = false |- _ => apply Qlt_bool_false_iff in H
  | H : Qle_bool _ _ = true |- _ => apply Qle_bool_iff in H
  | H : Qle_bool _ _ = false |- _ => apply Qle_bool_false_iff in H
  | H : Qeq_bool _ _ = true |- _ => apply Qeq_bool_iff in H
  | H : Qeq_bool _ _ = false |- _ => apply Qeq_bool_false_iff in H
  end.

(** *** [num_eq] is an equivalence the operations respect *)

#[export] Instance num_eq_equiv : Equivalence num_eq.
Proof.
  split.
  - intros [p| | |]; simpl; auto. reflexivity.
  - intros [p| | |] [q| | |]; simpl; auto. intro; symmetry; assumption.
  - intros [p| | |] [q| | |] [r| | |]; simpl; auto; try tauto.
    intros; etransitivity; eassumption.
Qed.

Ltac num_cases :=
  repeat match goal with
  | a : num |- _ => destruct a
  end; simpl in *; try tauto.

#[export] Instance inf_of_sign_proper : Proper (Qeq ==> eq) inf_of_sign.
Proof.
  intros p q H. unfold inf_of_sign. qcases; auto; exfalso; lra.
Qed.

#[export] Instance opp_proper : Proper (num_eq ==> num_eq) opp.
Proof. intros a b H. num_cases. lra. Qed.

#[export] Instance add_proper : Proper (num_eq ==> num_eq ==> num_eq) add.
Proof. intros a b H c d H'. num_cases. lra. Qed.

#[export] Instance sub_proper : Proper (num_eq ==> num_eq ==> num_eq) sub.
Proof. intros a b H c d H'. unfold sub. rewrite H, H'. reflexivity. Qed.

#[export] Instance mul_proper : Proper (num_eq ==> num_eq ==> num_eq) mul.
Proof.
  intros a b H c d H'. num_cases;
    try (rewrite H; reflexivity); try (rewrite H'; reflexivity).
  rewrite H, H'. reflexivity.
Qed.

#[export] Instance Qlt_bool_proper : Proper (Qeq ==> Qeq ==> eq) Qlt_bool.
Proof. intros p q H p' q' H'. unfold Qlt_bool. rewrite H, H'. reflexivity. Qed.

#[export] Instance div_proper : Proper (num_eq ==> num_eq ==> num_eq) div.
Proof.
  intros a b H c d H'. destruct a, b, c, d; simpl in *; try tauto.
  - rewrite (Qeqb_comp _ _ H' 0%Q 0%Q (Qeq_refl 0)), (inf_of_sign_proper _ _ H).
    destruct (Qeq_bool _ 0); simpl; [reflexivity | rewrite H, H'; reflexivity].
  - reflexivity.
  - reflexivity.
  - rewrite (Qlt_bool_proper _ _ H' _ _ (Qeq_refl 0)). reflexivity.
  - rewrite (Qlt_bool_proper _ _ H' _ _ (Qeq_refl 0)). reflexivity.
Qed.

#[export] Instance lt_proper : Proper (num_eq ==> num_eq ==> eq) lt.
Proof. intros a b H c d H'. num_cases. rewrite H, H'. reflexivity. Qed.

#[export] Instance le_proper : Proper (num_eq ==> num_eq ==> eq) le.
Proof. intros a b H c d H'. num_cases. rewrite H, H'. reflexivity. Qed.

#[export] Instance gt_proper : Proper (num_eq ==> num_eq ==> eq) gt.
Proof. intros a b H c d H'. unfold gt. rewrite H, H'. reflexivity. Qed.

#[export] Instance ge_proper : Proper (num_eq ==> num_eq ==> eq) ge.
Proof. intros a b H c d H'. unfold ge. rewrite H, H'. reflexivity. Qed.

#[export] Instance is_nan_proper : Proper (num_eq ==> eq) is_nan.
Proof. intros a b H. num_cases. Qed.

#[export] Instance Math_max_proper :
  Proper (num_eq ==> num_eq ==> num_eq) Math_max.
Proof.
  intros a b H c d H'. unfold Math_max.
  rewrite (is_nan_proper _ _ H), (is_nan_proper _ _ H'), (lt_proper _ _ H _ _ H').
  destruct (is_nan b || is_nan d); [reflexivity|].
  destruct (lt b d); assumption.
Qed.

#[export] Instance Math_min_proper :
  Proper (num_eq ==> num_eq ==> num_eq) Math_min.
Proof.
  intros a b H c d H'. unfold Math_min.
  rewrite (is_nan_proper _ _ H), (is_nan_proper _ _ H'), (lt_proper _ _ H' _ _ H).
  destruct (is_nan b || is_nan d); [reflexivity|].
  destruct (lt d b); assumption.
Qed.

(** *** Commutativity *)

Lemma add_comm (a b : num) : num_eq (a + b) (b + a).
Proof. num_cases. lra. Qed.

Lemma mul_comm (a b : num) : num_eq (a * b) (b * a).
Proof. num_cases; try reflexivity. lra. Qed.

Lemma Math_max_comm (a b : num) : num_eq (Math_max a b) (Math_max b a).
Proof.
  unfold Math_max. num_cases; try reflexivity. qcases; simpl; lra.
Qed.

Lemma Math_min_comm (a b : num) : num_eq (Math_min a b) (Math_min b a).
Proof.
  unfold Math_min. num_cases; try reflexivity. qcases; simpl; lra.
Qed.

End JSFacts.

(* ================================================================= *)
(** ** Detection fusion *)

Module FusionProofs.

Import JS JSFacts PenSelector FusionSpec Samples.
Local Open Scope js_scope.

(** *** The shape of the fused list *)

Lemma processGoogle_spec (yoloObjects googleObjects acc : list DetectedObject) :
  processGoogle yoloObjects googleObjects acc
  = acc ++ map tagGoogle
             (filter (fun g => negb (hasOverlapWithYolo yoloObjects g))
                     googleObjects).
Proof.
  revert acc. induction googleObjects as [|g rest IH]; intro acc; simpl.
  - now rewrite app_nil_r.
  - destruct (hasOverlapWithYolo yoloObjects g); simpl.
    + apply IH.
    + rewrite IH, <- app_assoc. reflexivity.
Qed.

Lemma hybridDetection_objects (yoloObjects googleObjects : list DetectedObject) :
  objects (hybridDetection yoloObjects googleObjects)
  = map tagYolo (highConfidenceYolo yoloObjects)
    ++ map tagGoogle
         (filter (fun g => negb (hasOverlapWithYolo yoloObjects g))
                 googleObjects).
Proof. unfold hybridDetection; simpl. apply processGoogle_spec. Qed.

Lemma source_tagYolo (obj : DetectedObject) : source (tagYolo obj) = Some "YOLO11".
Proof. reflexivity. Qed.

Lemma source_tagGoogle (obj : DetectedObject) :
  source (tagGoogle obj) = Some "Google Vision".
Proof. reflexivity. Qed.

(** *** C6 *)

(** C6, counterexample: a polygon-capable detection whose confidence is
    exactly 0.35 does not exceed the threshold, yet fusion accepts it. *)
Lemma C6_counterexample :
  ~ (In (tagYolo borderlineChair)
        (objects (hybridDetection [borderlineChair] []))
     <-> spec_accepts borderlineChair = true).
Proof.
  intros [H _]. assert (E : spec_accepts borderlineChair = false) by reflexivity.
  rewrite E in H. discriminate H. left. reflexivity.
Qed.

(** C6, as amended: fusion accepts exactly the detections of the
    polygon-capable detector whose confidence is at least 0.35 (the
    threshold itself included), each tagged with source YOLO11 and
    [canSegment = true], and puts them, in their order, in front of the
    fused list; [yoloCount] counts them and every later entry comes from
    the other detector. *)
Theorem C6_accepts_confidence_at_least_threshold
  (yoloObjects googleObjects : list DetectedObject) :
  let r := hybridDetection yoloObjects googleObjects in
  firstn (yoloCount r) (objects r)
  = map tagYolo
        (filter (fun obj => confidence obj >=? Fin 0.35) yoloObjects)
  /\ Forall (fun obj => source obj = Some "Google Vision")
            (skipn (yoloCount r) (objects r))
  /\ (forall obj,
        In obj (objects r) /\ source obj = Some "YOLO11"
        <-> exists y, In y yoloObjects
                      /\ (confidence y >=? Fin 0.35) = true
                      /\ obj = tagYolo y).
Proof.
  intro r. subst r. rewrite hybridDetection_objects.
  assert (Hlen : yoloCount (hybridDetection yoloObjects googleObjects)
                 = List.length (map tagYolo (highConfidenceYolo yoloObjects)))
    by (simpl; now rewrite length_map).
  rewrite Hlen. split; [|split].
  - rewrite firstn_app, firstn_all, Nat.sub_diag. simpl. now rewrite app_nil_r.
  - rewrite skipn_app, skipn_all, Nat.sub_diag. simpl.
    apply Forall_forall. intros obj Hin. apply in_map_iff in Hin.
    destruct Hin as [g [<- _]]. reflexivity.
  - intro obj. split.
    + intros [Hin Hsrc]. apply in_app_or in Hin. destruct Hin as [Hin|Hin].
      * apply in_map_iff in Hin. destruct Hin as [y0 [<- Hy]].
        apply filter_In in Hy. destruct Hy as [Hy Hc]. exists y0. auto.
      * apply in_map_iff in Hin. destruct Hin as [g [<- _]]. discriminate Hsrc.
    + intros [y0 [Hy [Hc ->]]]. split; [|reflexivity].
      apply in_or_app. left. apply in_map. apply filter_In. auto.
Qed.

(** *** C1 *)

Lemma conflicts_iff (g y0 : DetectedObject) :
  conflicts g y0 = true
  <-> (overlapRatio g y0 >? Fin 0.3) = true
      \/ (toLowerCase (name g) = toLowerCase (name y0)
          /\ (overlapRatio g y0 >? Fin 0.1) = true).
Proof.
  unfold conflicts, objectsOverlap.
  rewrite orb_true_iff, andb_true_iff, String.eqb_eq. reflexivity.
Qed.

Lemma hasOverlapWithYolo_iff (yoloObjects : list DetectedObject)
  (g : DetectedObject) :
  hasOverlapWithYolo yoloObjects g = true
  <-> exists y0, In y0 yoloObjects /\ conflicts g y0 = true.
Proof. apply existsb_exists. Qed.

(** C1, counterexample: the bbox-only "desk" overlaps the accepted "table"
    with IoU exactly 3/10 under a different name, which the specification
    counts as overlapping above the threshold, and fusion keeps it. *)
Lemma C1_counterexample :
  In wideTable (highConfidenceYolo [wideTable])
  /\ num_eq (overlapRatio smallDesk wideTable) (Fin 0.3)
  /\ ~ (~ In (tagGoogle smallDesk)
            (objects (hybridDetection [wideTable] [smallDesk]))
        <-> spec_discards (highConfidenceYolo [wideTable]) smallDesk = true).
Proof.
  split; [left; reflexivity|]. split; [reflexivity|].
  intros [_ H]. apply H; [reflexivity|].
  right. left. reflexivity.
Qed.

(** Names are compared after [toLowerCase]: "Table" and "table" count as the
    same name, and an IoU of 2/10 discards the bbox-only detection. *)
Example fusion_names_ignore_case :
  num_eq (overlapRatio capitalTable yoloTable) (Fin 0.2)
  /\ objects (hybridDetection [yoloTable] [capitalTable]) = [tagYolo yoloTable].
Proof. split; reflexivity. Qed.

(** The overlap test runs over every detection of the polygon-capable
    detector, the ones below the acceptance threshold included. *)
Example fusion_overlap_with_unaccepted :
  highConfidenceYolo [faintTable] = []
  /\ objects (hybridDetection [faintTable] [googleTable]) = [].
Proof. split; reflexivity. Qed.

(** C1, as amended: the bbox-only detections that fusion keeps are those
    with no conflict, appended in their order after the accepted ones.  A
    bbox-only detection is discarded when it overlaps an accepted
    polygon-capable detection with IoU strictly above 0.3, or strictly above
    0.1 when the two names are equal up to letter case; it is kept when it
    overlaps no polygon-capable detection to that extent.  In particular a
    bbox-only detection overlapping an accepted polygon-capable one at IoU
    0.6 is dropped, and only the polygon-capable one remains. *)
Theorem C1_fusion_discards_overlapping
  (yoloObjects googleObjects : list DetectedObject) :
  let r := hybridDetection yoloObjects googleObjects in
  skipn (yoloCount r) (objects r)
  = map tagGoogle
        (filter (fun g => negb (hasOverlapWithYolo yoloObjects g))
                googleObjects)
  /\ (forall g y0,
        In y0 yoloObjects ->
        (confidence y0 >=? Fin 0.35) = true ->
        (overlapRatio g y0 >? Fin 0.3) = true
        \/ (toLowerCase (name g) = toLowerCase (name y0)
            /\ (overlapRatio g y0 >? Fin 0.1) = true) ->
        hasOverlapWithYolo yoloObjects g = true)
  /\ (forall g,
        (forall y0, In y0 yoloObjects ->
           (overlapRatio g y0 >? Fin 0.3) = false
           /\ (toLowerCase (name g) = toLowerCase (name y0) ->
               (overlapRatio g y0 >? Fin 0.1) = false)) ->
        hasOverlapWithYolo yoloObjects g = false)
  /\ (forall g y0,
        (confidence y0 >=? Fin 0.35) = true ->
        num_eq (overlapRatio g y0) (Fin 0.6) ->
        objects (hybridDetection [y0] [g]) = [tagYolo y0]).
Proof.
  intro r. subst r. split; [|split; [|split]].
  - rewrite hybridDetection_objects.
    assert (Hlen : yoloCount (hybridDetection yoloObjects googleObjects)
                   = List.length (map tagYolo (highConfidenceYolo yoloObjects)))
      by (simpl; now rewrite length_map).
    rewrite Hlen, skipn_app, skipn_all, Nat.sub_diag. reflexivity.
  - intros g y0 Hin _ Hov. apply hasOverlapWithYolo_iff.
    exists y0. split; [assumption|]. apply conflicts_iff. assumption.
  - intros g Hno. apply not_true_iff_false. intro H.
    apply hasOverlapWithYolo_iff in H. destruct H as [y0 [Hin Hc]].
    apply conflicts_iff in Hc. destruct (Hno y0 Hin) as [H3 H1].
    destruct Hc as [Hc|[Hn Hc]]; [|specialize (H1 Hn)]; congruence.
  - intros g y0 Hconf Hiou. rewrite hybridDetection_objects.
    unfold highConfidenceYolo, CONFIDENCE_THRESHOLD. cbn [filter].
    rewrite Hconf.
    assert (Hc : conflicts g y0 = true).
    { apply conflicts_iff. left. unfold gt.
      rewrite (lt_proper _ _ (reflexivity (Fin 0.3)) _ _ Hiou). reflexivity. }
    unfold hasOverlapWithYolo. cbn [filter existsb]. rewrite Hc. reflexivity.
Qed.

(** C1, witness: the table seen by both detectors. *)
Lemma C1_witness :
  objects (hybridDetection [yoloTable] [googleTable]) = [tagYolo yoloTable].
Proof.
  apply (C1_fusion_discards_overlapping [yoloTable] [googleTable]);
    reflexivity.
Defined.

(** *** C9 *)

(** C9: the intersection-over-union value is symmetric in its two boxes,
    and so is the overlap test at every threshold. *)
Theorem C9_overlap_symmetric (a b : DetectedObject) (t : num) :
  num_eq (overlapRatio a b) (overlapRatio b a)
  /\ objectsOverlap a b t = objectsOverlap b a t.
Proof.
  assert (H : num_eq (overlapRatio a b) (overlapRatio b a)).
  { unfold overlapRatio.
    rewrite (Math_min_comm (x a + width a) (x b + width b)).
    rewrite (Math_max_comm (x a) (x b)).
    rewrite (Math_min_comm (y a + height a) (y b + height b)).
    rewrite (Math_max_comm (y a) (y b)).
    rewrite (add_comm (width a * height a) (width b * height b)).
    reflexivity. }
  split; [exact H|]. unfold objectsOverlap. rewrite H. reflexivity.
Qed.

End FusionProofs.

(* ================================================================= *)
(** ** Intention resolution *)

Module ResolverProofs.

Import JS JSFacts PenSelector Samples Predicates.
Local Open Scope js_scope.

(** *** The sort *)

Section SortFacts.
Variable A : Type.
Variable compare : A -> A -> num.

Lemma insert_perm (a : A) (l : list A) :
  Permutation (insert compare a l) (a :: l).
Proof.
  induction l as [|b l IH]; cbn [insert]; [reflexivity|].
  destruct (compare a b >? Fin 0); [|reflexivity].
  rewrite IH. apply perm_swap.
Qed.

Lemma sort_perm (l : list A) : Permutation (sort compare l) l.
Proof.
  induction l as [|a l IH]; cbn [sort fold_right]; [reflexivity|].
  fold (sort compare l). rewrite insert_perm. now constructor.
Qed.

Lemma filter_sort_perm (f : A -> bool) (l : list A) :
  Permutation (filter f (sort compare l)) (filter f l).
Proof.
  assert (H : forall l1 l2 : list A,
             Permutation l1 l2 -> Permutation (filter f l1) (filter f l2)).
  { induction 1 as [|e l1 l2 Hp IH|e1 e2 l1|l1 l2 l3 H1 IH1 H2 IH2]; simpl.
    - reflexivity.
    - destruct (f e); [constructor|]; assumption.
    - destruct (f e1), (f e2); try reflexivity. apply perm_swap.
    - etransitivity; eassumption. }
  apply H, sort_perm.
Qed.
End SortFacts.

Lemma ge_trans (a b c : num) :
  (a >=? b) = true -> (b >=? c) = true -> (a >=? c) = true.
Proof.
  unfold ge. destruct a, b, c; simpl; try congruence.
  intros. qhyps. apply Qle_bool_iff. lra.
Qed.

Lemma scoreGe_trans : Transitive scoreGe.
Proof. intros a b c. apply ge_trans. Qed.

Lemma sub_gt_0 (a b : num) :
  is_nan a = false -> is_nan b = false ->
  (b - a >? Fin 0) = (a <? b).
Proof.
  unfold gt, sub. destruct a, b; simpl; try congruence; intros _ _.
  unfold Qlt_bool. f_equal.
  destruct (Qle_bool q0 q) eqn:H1, (Qle_bool (q0 + - q) 0) eqn:H2;
    qhyps; try reflexivity; exfalso; lra.
Qed.

Lemma not_lt_ge (a b : num) :
  is_nan a = false -> is_nan b = false ->
  (a <? b) = false -> (a >=? b) = true.
Proof.
  unfold ge. destruct a, b; simpl; try congruence; intros _ _ H.
  qhyps. apply Qle_bool_iff. assumption.
Qed.

Lemma lt_ge (a b : num) : (a <? b) = true -> (b >=? a) = true.
Proof.
  unfold ge. destruct a, b; simpl; try congruence; intros H.
  qhyps. apply Qle_bool_iff. lra.
Qed.

Lemma insert_sorted (a : ScoredCandidate) (l : list ScoredCandidate) :
  scored_number a -> Forall scored_number l ->
  Sorted scoreGe l -> Sorted scoreGe (insert byScoreDesc a l).
Proof.
  intros Ha Hl Hs. induction l as [|b l IH]; cbn [insert].
  - repeat constructor.
  - inversion Hl as [|? ? Hb Hl']; subst. inversion Hs as [|? ? Hs' Hhd]; subst.
    unfold byScoreDesc. rewrite (sub_gt_0 _ _ Ha Hb).
    destruct (score a <? score b) eqn:Hlt.
    + constructor; [apply IH; assumption|].
      destruct l as [|c l]; cbn [insert].
      * constructor. apply lt_ge, Hlt.
      * unfold byScoreDesc. destruct (score c - score a >? Fin 0).
        -- inversion Hhd; subst. constructor. assumption.
        -- constructor. apply lt_ge, Hlt.
    + constructor; [assumption|]. constructor.
      apply not_lt_ge; assumption.
Qed.

Lemma sort_sorted (l : list ScoredCandidate) :
  Forall scored_number l -> StronglySorted scoreGe (sort byScoreDesc l).
Proof.
  intro Hl. apply Sorted_StronglySorted; [exact scoreGe_trans|].
  induction l as [|a l IH]; cbn [sort fold_right]; [constructor|].
  fold (sort byScoreDesc l). inversion Hl; subst. apply insert_sorted; auto.
  eapply Permutation_Forall; [symmetry; apply sort_perm|assumption].
Qed.

Lemma filter_StronglySorted (A : Type) (R : A -> A -> Prop) (f : A -> bool)
  (l : list A) :
  StronglySorted R l -> StronglySorted R (filter f l).
Proof.
  induction 1 as [|a l Hs IH Hall]; simpl; [constructor|].
  destruct (f a); [|assumption]. constructor; [assumption|].
  apply Forall_forall. intros b Hb. apply filter_In in Hb.
  rewrite Forall_forall in Hall. apply Hall, Hb.
Qed.

Lemma In_firstn (A : Type) (n : nat) (l : list A) (a : A) :
  In a (firstn n l) -> In a l.
Proof.
  intro H. rewrite <- (firstn_skipn n l). apply in_or_app. left. exact H.
Qed.

(** *** Point in path *)

(** A path of fewer than three points contains no point. *)
Lemma isPointInPath_short (px0 py0 : num) (path : list Point) :
  (List.length path < 3)%nat -> isPointInPath px0 py0 path = false.
Proof.
  intro H. unfold isPointInPath.
  destruct (List.length path <? 3)%nat eqn:E; [reflexivity|].
  apply Nat.ltb_ge in E. lia.
Qed.

(** A tight outline around a single chair: the chair is returned, with a
    score above 0.3 and an enclosure factor above 0.8. *)
Example chair_scenario :
  analyzeUserIntention chairOutline [chair] = [chair]
  /\ (score (scoreObject chairOutline chair) >? Fin 0.3) = true
  /\ (enclosure (factors (scoreObject chairOutline chair)) >? Fin 0.8) = true.
Proof. repeat split; vm_compute; reflexivity. Qed.

(** *** C5 *)

(** C5: with an empty drawing path the resolver returns the candidate list
    itself, every candidate in its original position. *)
Theorem C5_empty_path_returns_candidates (objects : list DetectedObject) :
  analyzeUserIntention [] objects = objects.
Proof. reflexivity. Qed.

(** *** C2 *)

Lemma analyze_nonempty (path : list Point) (objects : list DetectedObject) :
  path <> [] ->
  analyzeUserIntention path objects
  = selectCandidates (sort byScoreDesc (map (scoreObject path) objects)).
Proof. destruct path; [congruence|reflexivity]. Qed.

Lemma meaningful_In (c : ScoredCandidate) (l : list ScoredCandidate) :
  In c (meaningful l) <-> In c l /\ (score c >? Fin 0.3) = true.
Proof. apply filter_In. Qed.

(** A score above the cutoff is truthy: [score || 0] is the score. *)
Lemma or_above_cutoff (s : num) : (s >? Fin 0.3) = true -> s ||n Fin 0 = s.
Proof.
  unfold or, gt. destruct s; simpl; try congruence. intro H. qhyps.
  destruct (Qeq_bool q 0) eqn:E; [|reflexivity]. qhyps. exfalso. lra.
Qed.

Lemma selectCandidates_spec (l : list ScoredCandidate) :
  match meaningful l with
  | [] => selectCandidates l = []
  | top :: rest =>
      let second := match rest with s :: _ => score s | [] => Fin 0 end in
      if score top - second >? Fin 0.2
      then selectCandidates l = [object top]
      else selectCandidates l = map object (firstn 3 (meaningful l))
  end.
Proof.
  unfold selectCandidates.
  destruct (meaningful l) as [|top rest] eqn:E; [reflexivity|].
  assert (Hsecond :
            match nth_error (top :: rest) 1 with
            | Some second => score second ||n Fin 0
            | None => Fin 0
            end = match rest with s :: _ => score s | [] => Fin 0 end).
  { destruct rest as [|s rest']; [reflexivity|]. cbn [nth_error].
    apply or_above_cutoff.
    assert (Hin : In s (meaningful l)) by (rewrite E; right; left; reflexivity).
    apply meaningful_In in Hin. apply Hin. }
  rewrite Hsecond. cbv zeta.
  destruct (score top - _ >? Fin 0.2); [reflexivity|].
  f_equal. destruct rest as [|? [|? ?]]; reflexivity.
Qed.

Lemma selectCandidates_sub (l : list ScoredCandidate) (o : DetectedObject) :
  In o (selectCandidates l) ->
  exists c, In c (meaningful l) /\ object c = o.
Proof.
  pose proof (selectCandidates_spec l) as H.
  destruct (meaningful l) as [|top rest] eqn:E.
  - rewrite H. intros [].
  - cbv zeta in H. destruct (score top - _ >? Fin 0.2); rewrite H.
    + intros [<-|[]]. exists top. split; [left|]; reflexivity.
    + intro Hin. apply in_map_iff in Hin. destruct Hin as [c [Hc Hin]].
      exists c. split; [|assumption]. eapply In_firstn, Hin.
Qed.

Lemma selectCandidates_length (l : list ScoredCandidate) :
  (List.length (selectCandidates l) <= 3)%nat.
Proof.
  pose proof (selectCandidates_spec l) as H.
  destruct (meaningful l) as [|top rest] eqn:E.
  - rewrite H. simpl. lia.
  - cbv zeta in H. destruct (score top - _ >? Fin 0.2); rewrite H.
    + simpl. lia.
    + rewrite length_map. apply firstn_le_length.
Qed.

(** The selection is made on the kept candidates as [spec_selection]
    describes it. *)
Lemma analyze_selection (path : list Point) (objects : list DetectedObject) :
  path <> [] ->
  analyzeUserIntention path objects
  = map object
      (ResolverSpec.spec_selection
         (meaningful (sort byScoreDesc (map (scoreObject path) objects)))).
Proof.
  intro Hpath. rewrite (analyze_nonempty path objects Hpath).
  pose proof (selectCandidates_spec
                (sort byScoreDesc (map (scoreObject path) objects))) as H.
  unfold ResolverSpec.spec_selection.
  destruct (meaningful (sort byScoreDesc (map (scoreObject path) objects)))
    as [|top rest]; [exact H|].
  cbv zeta in H |- *. destruct (score top - _ >? Fin 0.2); exact H.
Qed.

Lemma selection_prefix (kept : list ScoredCandidate) :
  exists n, ResolverSpec.spec_selection kept = firstn n kept.
Proof.
  destruct kept as [|top rest]; [exists 0%nat; reflexivity|].
  cbn [ResolverSpec.spec_selection]. cbv zeta.
  destruct (_ >? _); [exists 1%nat|exists 3%nat]; reflexivity.
Qed.

(** In a sorted list every element of a prefix is related to every element
    after it. *)
Lemma sorted_prefix_dominates (A : Type) (R : A -> A -> Prop) (l : list A)
  (n : nat) (a b : A) :
  StronglySorted R l -> In a (firstn n l) -> In b (skipn n l) -> R a b.
Proof.
  intro Hs. revert n. induction Hs as [|c l Hs IH Hall]; intros [|n];
    simpl; try contradiction.
  intros [<-|Ha] Hb.
  - rewrite Forall_forall in Hall. apply Hall.
    rewrite <- (firstn_skipn n l). apply in_or_app. right. exact Hb.
  - exact (IH n Ha Hb).
Qed.

(** When every score is a number the kept candidates are in descending
    order of score. *)
Lemma kept_sorted (path : list Point) (objects : list DetectedObject) :
  Forall (fun o => is_nan (score (scoreObject path o)) = false) objects ->
  StronglySorted scoreGe
    (meaningful (sort byScoreDesc (map (scoreObject path) objects))).
Proof.
  intro Hnum. apply filter_StronglySorted, sort_sorted.
  apply Forall_map. exact Hnum.
Qed.

Lemma selection_top_ranked (path : list Point)
  (objects : list DetectedObject) :
  path <> [] ->
  Forall (fun o => is_nan (score (scoreObject path o)) = false) objects ->
  ResolverSpec.spec_top_ranked path objects
    (analyzeUserIntention path objects).
Proof.
  intros Hpath Hnum o r Ho Hs Hout Hr.
  rewrite (analyze_selection path objects Hpath) in Hout, Hr.
  pose proof (kept_sorted path objects Hnum) as Hsorted.
  pose proof (filter_sort_perm _ byScoreDesc
                (fun item => score item >? Fin 0.3)
                (map (scoreObject path) objects)) as Hperm.
  fold (meaningful (sort byScoreDesc (map (scoreObject path) objects))) in Hperm.
  fold (meaningful (map (scoreObject path) objects)) in Hperm.
  set (kept := meaningful (sort byScoreDesc (map (scoreObject path) objects)))
    in *.
  destruct (selection_prefix kept) as [n Hn]. rewrite Hn in Hout, Hr.
  assert (Hko : In (scoreObject path o) kept).
  { apply (Permutation_in _ (Permutation_sym Hperm)).
    apply meaningful_In. split; [apply in_map, Ho|exact Hs]. }
  rewrite <- (firstn_skipn n kept) in Hko. apply in_app_or in Hko.
  destruct Hko as [Hko|Hko].
  { exfalso. apply Hout. apply in_map_iff.
    exists (scoreObject path o). split; [reflexivity|exact Hko]. }
  apply in_map_iff in Hr. destruct Hr as [c [Hc Hin]].
  assert (Hcr : c = scoreObject path r).
  { assert (Hk : In c kept) by (eapply In_firstn, Hin).
    apply (Permutation_in _ Hperm) in Hk. apply meaningful_In in Hk.
    destruct Hk as [Hk _]. apply in_map_iff in Hk.
    destruct Hk as [o' [<- _]]. simpl in Hc. now subst r. }
  subst c.
  exact (sorted_prefix_dominates _ scoreGe kept n _ _ Hsorted Hin Hko).
Qed.




(** *** C10 *)

Lemma gap_without_second (s : num) :
  (s >? Fin 0.3) = true -> (s - Fin 0 >? Fin 0.2) = true.
Proof.
  unfold gt, sub. destruct s; simpl; try congruence. intro H. qhyps.
  apply Qlt_bool_iff. lra.
Qed.



End ResolverProofs.

(* ================================================================= *)
(** ** Scoring factors *)

Module FactorProofs.

Import JS JSFacts PenSelector Samples Predicates.
Local Open Scope js_scope.

(** *** Finite numbers *)

Lemma is_finite_Fin (a : num) : is_finite a = true -> exists q, a = Fin q.
Proof. destruct a; try discriminate. eauto. Qed.

Lemma of_nat_ratio (n m : nat) :
  (n <= m)%nat -> (0 < m)%nat -> in_unit_interval (of_nat n / of_nat m).
Proof.
  intros Hnm Hm. unfold in_unit_interval, of_nat, div.
  assert (H0 : (0 <= inject_Z (Z.of_nat n))%Q)
    by (change 0%Q with (inject_Z 0); rewrite <- Zle_Qle; lia).
  assert (H1 : (0 < inject_Z (Z.of_nat m))%Q)
    by (change 0%Q with (inject_Z 0); rewrite <- Zlt_Qlt; lia).
  assert (H2 : (inject_Z (Z.of_nat n) <= inject_Z (Z.of_nat m))%Q)
    by (rewrite <- Zle_Qle; lia).
  destruct (Qeq_bool (inject_Z (Z.of_nat m)) 0) eqn:E.
  - qhyps. exfalso. lra.
  - simpl. split; apply Qle_bool_iff.
    + apply Qle_shift_div_l; [assumption|]. lra.
    + apply Qle_shift_div_r; [assumption|]. lra.
Qed.

(** The enclosure and containment factors are fractions of a count. *)
Lemma enclosure_range (path : list Point) (obj : DetectedObject) :
  in_unit_interval (calculateEnclosureScore path obj).
Proof.
  unfold calculateEnclosureScore. apply of_nat_ratio.
  - etransitivity; [apply filter_length_le|]. vm_compute. lia.
  - vm_compute. lia.
Qed.

Lemma containment_range (path : list Point) (obj : DetectedObject) :
  in_unit_interval (calculateContainmentScore path obj).
Proof.
  unfold calculateContainmentScore. apply of_nat_ratio.
  - apply filter_length_le.
  - simpl. lia.
Qed.

(** *** Bounds of a finite path *)

Lemma fold_min_finite (xs : list num) (q : Q) :
  Forall (fun a => is_finite a = true) xs ->
  exists m, fold_left Math_min xs (Fin q) = Fin m /\ (m <= q)%Q.
Proof.
  revert q. induction xs as [|a xs IH]; intros q Hall; simpl.
  - exists q. split; [reflexivity|lra].
  - inversion Hall as [|? ? Ha Hxs]; subst.
    destruct (is_finite_Fin a Ha) as [p ->].
    unfold Math_min at 2. simpl. destruct (Qlt_bool p q) eqn:E; qhyps.
    + destruct (IH p Hxs) as [m [-> Hm]]. exists m. split; [reflexivity|lra].
    + destruct (IH q Hxs) as [m [-> Hm]]. exists m. split; [reflexivity|lra].
Qed.

Lemma fold_max_finite (xs : list num) (q : Q) :
  Forall (fun a => is_finite a = true) xs ->
  exists m, fold_left Math_max xs (Fin q) = Fin m /\ (q <= m)%Q.
Proof.
  revert q. induction xs as [|a xs IH]; intros q Hall; simpl.
  - exists q. split; [reflexivity|lra].
  - inversion Hall as [|? ? Ha Hxs]; subst.
    destruct (is_finite_Fin a Ha) as [p ->].
    unfold Math_max at 2. simpl. destruct (Qlt_bool q p) eqn:E; qhyps.
    + destruct (IH p Hxs) as [m [-> Hm]]. exists m. split; [reflexivity|lra].
    + destruct (IH q Hxs) as [m [-> Hm]]. exists m. split; [reflexivity|lra].
Qed.

Lemma min_max_list_finite (xs : list num) :
  xs <> [] -> Forall (fun a => is_finite a = true) xs ->
  exists lo hi, Math_min_list xs = Fin lo /\ Math_max_list xs = Fin hi
                /\ (lo <= hi)%Q.
Proof.
  intros Hne Hall. destruct xs as [|a xs]; [congruence|].
  inversion Hall as [|? ? Ha Hxs]; subst.
  destruct (is_finite_Fin a Ha) as [p ->].
  unfold Math_min_list, Math_max_list. cbn [fold_left].
  change (Math_min PInf (Fin p)) with (Fin p).
  change (Math_max NInf (Fin p)) with (Fin p).
  destruct (fold_min_finite xs p Hxs) as [lo [-> Hlo]].
  destruct (fold_max_finite xs p Hxs) as [hi [-> Hhi]].
  exists lo, hi. repeat split; try reflexivity. lra.
Qed.

Lemma getPathBounds_finite (path : list Point) :
  path <> [] -> Forall finite_point path ->
  exists bx by_ bw bh,
    getPathBounds path
    = {| bounds_x := Fin bx; bounds_y := Fin by_;
         bounds_width := Fin bw; bounds_height := Fin bh |}
    /\ (0 <= bw)%Q /\ (0 <= bh)%Q.
Proof.
  intros Hne Hall.
  assert (Hxs : Forall (fun a => is_finite a = true) (map px path)).
  { apply Forall_map. eapply Forall_impl; [|exact Hall]. intros p Hp; apply Hp. }
  assert (Hys : Forall (fun a => is_finite a = true) (map py path)).
  { apply Forall_map. eapply Forall_impl; [|exact Hall]. intros p Hp; apply Hp. }
  assert (Hnx : map px path <> []) by (destruct path; [congruence|discriminate]).
  assert (Hny : map py path <> []) by (destruct path; [congruence|discriminate]).
  destruct (min_max_list_finite _ Hnx Hxs) as [lox [hix [Ex1 [Ex2 Hx]]]].
  destruct (min_max_list_finite _ Hny Hys) as [loy [hiy [Ey1 [Ey2 Hy]]]].
  exists lox, loy, (hix + - lox)%Q, (hiy + - loy)%Q.
  split; [|split; lra].
  unfold getPathBounds. destruct path as [|p path]; [congruence|].
  rewrite Ex1, Ex2, Ey1, Ey2. reflexivity.
Qed.

(** *** The square root *)

Lemma Qsqrt_nonneg (p : Q) : (0 <= Qsqrt p)%Q.
Proof.
  unfold Qsqrt, Qle. simpl. rewrite Z.mul_1_r. apply Z.sqrt_nonneg.
Qed.

Lemma sqrt_sum_squares (a b : Q) :
  exists d, Math_sqrt (Math_pow2 (Fin a) + Math_pow2 (Fin b)) = Fin d
            /\ (0 <= d)%Q.
Proof.
  unfold Math_pow2. simpl.
  destruct (Qlt_bool (a * a + b * b) 0) eqn:E.
  - qhyps. exfalso. nra.
  - eexists. split; [reflexivity|]. apply Qsqrt_nonneg.
Qed.

Lemma centre_finite (a w : Q) : exists c, Fin a + Fin w / Fin 2 = Fin c.
Proof. eexists. reflexivity. Qed.

Lemma centreDistance_finite (path : list Point) (obj : DetectedObject) :
  path <> [] -> Forall finite_point path -> finite_box obj ->
  exists d, centreDistance path obj = Fin d /\ (0 <= d)%Q.
Proof.
  intros Hne Hall [Hx [Hy [Hw Hh]]].
  destruct (getPathBounds_finite path Hne Hall)
    as [bx [by_ [bw [bh [Eb _]]]]].
  apply is_finite_Fin in Hx, Hy, Hw, Hh.
  destruct Hx as [ox Ex], Hy as [oy Ey], Hw as [ow Ew], Hh as [oh Eh].
  unfold centreDistance. rewrite Eb, Ex, Ey, Ew, Eh.
  cbn [bounds_x bounds_y bounds_width bounds_height].
  destruct (centre_finite bx bw) as [c1 ->].
  destruct (centre_finite by_ bh) as [c2 ->].
  destruct (centre_finite ox ow) as [c3 ->].
  destruct (centre_finite oy oh) as [c4 ->].
  change (Fin c1 - Fin c3) with (Fin (c1 + - c3)).
  change (Fin c2 - Fin c4) with (Fin (c2 + - c4)).
  apply sqrt_sum_squares.
Qed.

Lemma pathDiagonal_finite (path : list Point) :
  path <> [] -> Forall finite_point path ->
  exists m, pathDiagonal path = Fin m /\ (0 <= m)%Q.
Proof.
  intros Hne Hall.
  destruct (getPathBounds_finite path Hne Hall)
    as [bx [by_ [bw [bh [Eb _]]]]].
  unfold pathDiagonal. rewrite Eb. cbn [bounds_width bounds_height].
  apply sqrt_sum_squares.
Qed.

Lemma distanceScore_range (d m : Q) :
  (0 <= d)%Q -> (0 <= m)%Q ->
  let s := Fin 1 - Fin d / Math_max (Fin m) (Fin 1) in
  (s <=? Fin 1) = true
  /\ (s <? Fin 0) = (Math_max (Fin m) (Fin 1) <? Fin d).
Proof.
  intros Hd Hm. unfold Math_max. cbn [is_nan orb lt].
  assert (Hdiv : forall k : Q, (1 <= k)%Q ->
            (Fin 1 - Fin d / Fin k <=? Fin 1) = true
            /\ (Fin 1 - Fin d / Fin k <? Fin 0) = (Fin k <? Fin d)).
  { intros k Hk. unfold div.
    destruct (Qeq_bool k 0) eqn:E; [qhyps; exfalso; lra|].
    cbn [sub opp add le lt].
    assert (H0 : (0 <= d / k)%Q) by (apply Qle_shift_div_l; lra).
    split; [apply Qle_bool_iff; lra|].
    destruct (Qlt_bool k d) eqn:E2; qhyps.
    - apply Qlt_bool_iff.
      assert (1 < d / k)%Q by (apply Qlt_shift_div_l; lra). lra.
    - apply Qlt_bool_false_iff.
      assert (d / k <= 1)%Q by (apply Qle_shift_div_r; lra). lra. }
  destruct (Qlt_bool m 1) eqn:E; qhyps; apply Hdiv; lra.
Qed.

Lemma size_range (p o : Q) :
  (0 <= p)%Q -> (0 <= o)%Q ->
  (Math_max (Fin p) (Fin o) >? Fin 0) = true ->
  in_unit_interval (Math_min (Fin p) (Fin o) / Math_max (Fin p) (Fin o)).
Proof.
  intros Hp Ho. unfold Math_max, Math_min, gt. cbn [is_nan orb lt].
  assert (Hdiv : forall a b : Q, (0 <= a)%Q -> (a <= b)%Q -> (0 < b)%Q ->
            in_unit_interval (Fin a / Fin b)).
  { intros a b Ha Hab Hb. unfold in_unit_interval, div.
    destruct (Qeq_bool b 0) eqn:E; [qhyps; exfalso; lra|].
    cbn [le]. split; apply Qle_bool_iff.
    - apply Qle_shift_div_l; lra.
    - apply Qle_shift_div_r; lra. }
  destruct (Qlt_bool p o) eqn:E1, (Qlt_bool o p) eqn:E2; cbn [lt];
    intro Hpos; qhyps; apply Hdiv; lra.
Qed.

(** *** C3 *)

(** The centre the distance is measured from is the centre of the path's
    bounding box, not the mean of its points. *)
Example distance_from_bounding_box_centre :
  num_eq (distance (factors (scoreObject lopsidedOutline rug))) (Fin 1)
  /\ num_eq (ResolverSpec.spec_distance_factor lopsidedOutline rug)
            (Fin 0.75).
Proof. split; vm_compute; reflexivity. Qed.

(** The divisor is the diagonal or 1, whichever is larger: a path of a
    single point has diagonal 0 and still gets a finite factor. *)
Example distance_divisor_at_least_one :
  num_eq (distance (factors (scoreObject singlePoint dot))) (Fin 0.5)
  /\ ResolverSpec.spec_distance_factor singlePoint dot = NInf.
Proof. split; vm_compute; reflexivity. Qed.

(** C3, counterexample: a candidate whose centre is 50 away from the centre
    of a 3 x 4 outline (diagonal 5) gets the distance factor 1 - 50/5 = -9,
    outside [0, 1]. *)
Lemma C3_counterexample :
  smallOutline <> []
  /\ num_eq (distance (factors (scoreObject smallOutline farLamp))) (Fin (-9))
  /\ ~ in_unit_interval (distance (factors (scoreObject smallOutline farLamp))).
Proof.
  split; [discriminate|]. split; [vm_compute; reflexivity|].
  intros [H _]. vm_compute in H. discriminate H.
Qed.

(** C3, as amended: for a non-empty path and a candidate with finite
    coordinates, the enclosure and containment factors lie in [0, 1]; the
    confidence factor is the candidate's confidence as the detector gave
    it; the size factor lies in [0, 1] when the candidate's width and
    height are not negative and the two areas are not both zero; the
    distance factor is 1 minus the Euclidean distance from the centre of
    the path's bounding box to the candidate's centre divided by the larger
    of the bounding box's diagonal and 1, it never exceeds 1, and it is
    negative exactly when that distance exceeds the divisor. *)
Theorem C3_factor_ranges (path : list Point) (obj : DetectedObject)
  (Hpath : path <> []) (Hpoints : Forall finite_point path)
  (Hobj : finite_box obj) :
  let f := factors (scoreObject path obj) in
  in_unit_interval (enclosure f)
  /\ in_unit_interval (containment f)
  /\ confidenceFactor f = confidence obj
  /\ ((Fin 0 <=? width obj) = true -> (Fin 0 <=? height obj) = true ->
      (Math_max (pathArea path) (objArea obj) >? Fin 0) = true ->
      in_unit_interval (size f))
  /\ distance f
     = Fin 1 - centreDistance path obj / Math_max (pathDiagonal path) (Fin 1)
  /\ (distance f <=? Fin 1) = true
  /\ (distance f <? Fin 0)
     = (Math_max (pathDiagonal path) (Fin 1) <? centreDistance path obj).
Proof.
  intro f. subst f.
  assert (Hdist : distance (factors (scoreObject path obj))
                  = Fin 1 - centreDistance path obj
                            / Math_max (pathDiagonal path) (Fin 1))
    by reflexivity.
  split; [apply enclosure_range|]. split; [apply containment_range|].
  split; [reflexivity|]. split; [|split; [exact Hdist|]].
  - intros Hw Hh Hpos.
    change (size (factors (scoreObject path obj)))
      with (Math_min (pathArea path) (objArea obj)
            / Math_max (pathArea path) (objArea obj)).
    destruct (getPathBounds_finite path Hpath Hpoints)
      as [bx [by_ [bw [bh [Eb [Hbw Hbh]]]]]].
    destruct Hobj as [_ [_ [Fw Fh]]].
    apply is_finite_Fin in Fw, Fh. destruct Fw as [ow Ew], Fh as [oh Eh].
    unfold pathArea, objArea in *. rewrite Eb, Ew, Eh in *.
    cbn [bounds_width bounds_height mul] in *.
    cbn [le] in Hw, Hh. qhyps.
    apply size_range; try assumption; nra.
  - destruct (centreDistance_finite path obj Hpath Hpoints Hobj)
      as [d [Ed Hd]].
    destruct (pathDiagonal_finite path Hpath Hpoints) as [m [Em Hm]].
    rewrite Hdist, Ed, Em. apply distanceScore_range; assumption.
Qed.

(** C3, witness: the chair inside its outline. *)
Lemma C3_witness :
  in_unit_interval (enclosure (factors (scoreObject chairOutline chair)))
  /\ in_unit_interval (size (factors (scoreObject chairOutline chair)))
  /\ (distance (factors (scoreObject chairOutline chair)) <=? Fin 1) = true.
Proof.
  assert (H1 : chairOutline <> []) by discriminate.
  assert (H2 : Forall finite_point chairOutline)
    by (repeat constructor).
  assert (H3 : finite_box chair) by (repeat split).
  destruct (C3_factor_ranges chairOutline chair H1 H2 H3)
    as [He [_ [_ [Hs [_ [Hd _]]]]]].
  split; [exact He|]. split; [|exact Hd].
  apply Hs; vm_compute; reflexivity.
Defined.

End FactorProofs.

(* ================================================================= *)
(** ** The image service and the replacement workflows *)

Module ServiceProofs.

Import JS JSFacts Exc Predicates ReferenceLib ServiceSpec ServiceSamples.
Import FactorProofs.
Local Open Scope js_scope.

(** *** The crop rectangle *)

Section Crop.
Import GrokImageService.

Lemma splitCoords_pairs (n : nat) (points : list num) :
  List.length points = (2 * n)%nat ->
  Forall (fun a => is_finite a = true) points ->
  Forall (fun a => is_finite a = true) (fst (splitCoords points))
  /\ Forall (fun a => is_finite a = true) (snd (splitCoords points))
  /\ (points <> [] ->
      fst (splitCoords points) <> [] /\ snd (splitCoords points) <> []).
Proof.
  revert points. induction n as [|n IH]; intros points Hlen Hfin.
  - destruct points; [|discriminate Hlen]. simpl. repeat split; auto; congruence.
  - destruct points as [|a [|b rest]]; try (simpl in Hlen; lia).
    inversion Hfin as [|? ? Ha Hfin']; subst.
    inversion Hfin' as [|? ? Hb Hrest]; subst.
    assert (Hlen' : List.length rest = (2 * n)%nat) by (simpl in Hlen; lia).
    destruct (IH rest Hlen' Hrest) as [Hxs [Hys _]].
    cbn [splitCoords]. destruct (splitCoords rest) as [xs ys]. simpl in *.
    repeat split; try (constructor; assumption); discriminate.
Qed.

Lemma clamp_low (q : Q) :
  exists k, Math_max (Fin 0) (Math_floor (Fin q)) = Fin k /\ (0 <= k)%Q.
Proof.
  unfold Math_max, Math_floor. cbn [is_nan orb lt].
  destruct (Qlt_bool 0 (inject_Z (Qfloor q))) eqn:E; qhyps;
    eexists; (split; [reflexivity|lra]).
Qed.

Lemma clamp_high (w q : Q) :
  exists k, Math_min (Fin w) (Math_ceil (Fin q)) = Fin k /\ (k <= w)%Q.
Proof.
  unfold Math_min, Math_ceil. cbn [is_nan orb lt].
  destruct (Qlt_bool (inject_Z (Qceiling q)) w) eqn:E; qhyps;
    eexists; (split; [reflexivity|lra]).
Qed.

Lemma cropBounds_finite (points : list num) (w h : Q) :
  points <> [] -> Forall (fun a => is_finite a = true) points ->
  Nat.even (List.length points) = true ->
  exists x0 x1 y0 y1,
    cropBounds points (Fin w) (Fin h)
    = {| minX := Fin x0; maxX := Fin x1; minY := Fin y0; maxY := Fin y1 |}
    /\ (0 <= x0)%Q /\ (x1 <= w)%Q /\ (0 <= y0)%Q /\ (y1 <= h)%Q.
Proof.
  intros Hne Hfin Heven. apply Nat.even_spec in Heven. destruct Heven as [n Hn].
  destruct (splitCoords_pairs n points Hn Hfin) as [Hxs [Hys Hnn]].
  destruct (Hnn Hne) as [Hnx Hny].
  unfold cropBounds. destruct (splitCoords points) as [xs ys]. simpl in *.
  destruct (min_max_list_finite xs Hnx Hxs) as [lox [hix [-> [-> _]]]].
  destruct (min_max_list_finite ys Hny Hys) as [loy [hiy [-> [-> _]]]].
  destruct (clamp_low lox) as [x0 [-> Hx0]].
  destruct (clamp_high w hix) as [x1 [-> Hx1]].
  destruct (clamp_low loy) as [y0 [-> Hy0]].
  destruct (clamp_high h hiy) as [y1 [-> Hy1]].
  exists x0, x1, y0, y1. repeat split; assumption.
Qed.

(** A polygon lying entirely at or beyond the right edge of the image gets
    a crop width that is not positive. *)
Lemma crop_beyond_right_edge (points : list num) (W H : Z) :
  points <> [] -> Forall (fun a => is_finite a = true) points ->
  Nat.even (List.length points) = true ->
  (of_Z W <=? Math_min_list (fst (splitCoords points))) = true ->
  (cropWidth (cropBounds points (of_Z W) (of_Z H)) <=? Fin 0) = true.
Proof.
  intros Hne Hfin Heven Hout. apply Nat.even_spec in Heven.
  destruct Heven as [n Hn].
  destruct (splitCoords_pairs n points Hn Hfin) as [Hxs [_ Hnn]].
  destruct (Hnn Hne) as [Hnx _].
  unfold cropWidth, cropBounds. destruct (splitCoords points) as [xs ys].
  cbn [fst snd maxX minX] in *.
  destruct (min_max_list_finite xs Hnx Hxs) as [lo [hi [Elo [Ehi _]]]].
  rewrite Elo in Hout |- *. rewrite Ehi. cbn [le of_Z] in Hout. qhyps.
  assert (Hfl : (inject_Z W <= inject_Z (Qfloor lo))%Q).
  { rewrite <- Zle_Qle. rewrite <- (Qfloor_Z W). apply Qfloor_resp_le, Hout. }
  unfold Math_max, Math_min, Math_floor, Math_ceil, of_Z.
  cbn [is_nan orb lt].
  destruct (Qlt_bool 0 (inject_Z (Qfloor lo))) eqn:E1,
           (Qlt_bool (inject_Z (Qceiling hi)) (inject_Z W)) eqn:E2;
    qhyps; cbn [sub opp add le]; apply Qle_bool_iff; lra.
Qed.

Lemma dimension_positive (d : Z) : (0 < d)%Z -> dimension (Some d) = Some d.
Proof. destruct d; simpl; [lia|reflexivity|reflexivity]. Qed.

(** The reference library refuses empty extract regions. *)
Lemma reference_rejects_empty (source : ReferenceLib.Dims)
  (generation : exc (option (option string))) :
  rejects_empty_area (ReferenceLib.lib source generation).
Proof.
  intros buf left top w h Hempty. simpl. unfold ReferenceLib.extractArea.
  repeat match goal with
         | |- exists m, (if ?c then _ else _) = _ =>
             destruct c eqn:?; [eexists; reflexivity|]
         end.
  destruct (w >? Fin 0) eqn:Ew, (h >? Fin 0) eqn:Eh; simpl;
    try (eexists; reflexivity).
  destruct Hempty; discriminate.
Qed.

(** *** C8 *)

(** C8, counterexample: for a polygon lying entirely to the right of a
    100 x 100 image the left edge of the computed rectangle is 150, which
    is not in [0, 100]. *)
Lemma C8_counterexample :
  minX (cropBounds outsidePolygon (of_Z 100) (of_Z 100)) = Fin 150
  /\ ~ spec_clamped (cropBounds outsidePolygon (of_Z 100) (of_Z 100))
                    (of_Z 100) (of_Z 100).
Proof.
  split; [reflexivity|]. intros [[_ H] _]. vm_compute in H. discriminate H.
Qed.

(** C8, as amended: for a polygon with finite coordinates and a loaded
    image of positive size, the crop clamps the left and top edges of the
    polygon's integer bounding box from below at 0 and its right and bottom
    edges from above at the image width and height, so the rectangle never
    extends past the right or bottom edge; whenever the resulting width or
    height is not positive (a zero area included) and the image library
    refuses such an extract region, the crop returns a failure with an
    error and no image; and a success carries that rectangle, with positive
    width and height. *)
Theorem C8_crop_clamps_and_reports_empty
  (Buffer : Type) (lib : ImageLib Buffer) (Hrej : rejects_empty_area lib)
  (imageUrl : string) (points : list num) (buf : Buffer) (W H : Z)
  (Hfetch : fetch lib imageUrl = Ok buf)
  (Hmeta : metadata lib buf = Ok (Some W, Some H))
  (HW : (0 < W)%Z) (HH : (0 < H)%Z)
  (Hne : points <> []) (Hfin : Forall (fun a => is_finite a = true) points)
  (Heven : Nat.even (List.length points) = true) :
  let b := cropBounds points (of_Z W) (of_Z H) in
  let r := cropObjectFromImage lib imageUrl points in
  ((Fin 0 <=? minX b) = true /\ (maxX b <=? of_Z W) = true
   /\ (Fin 0 <=? minY b) = true /\ (maxY b <=? of_Z H) = true)
  /\ ((minX b + cropWidth b <=? of_Z W) = true
      /\ (minY b + cropHeight b <=? of_Z H) = true)
  /\ ((cropWidth b >? Fin 0) = false \/ (cropHeight b >? Fin 0) = false ->
      crop_success r = false /\ croppedImageBase64 r = None
      /\ exists message, crop_error r = Some message)
  /\ (crop_success r = true ->
      boundingBox r
      = Some {| box_x := minX b; box_y := minY b;
                box_width := cropWidth b; box_height := cropHeight b |}
      /\ (cropWidth b >? Fin 0) = true /\ (cropHeight b >? Fin 0) = true).
Proof.
  intros b r.
  destruct (cropBounds_finite points (inject_Z W) (inject_Z H) Hne Hfin Heven)
    as [x0 [x1 [y0 [y1 [Eb [Hx0 [Hx1 [Hy0 Hy1]]]]]]]].
  fold (of_Z W) in Eb. fold (of_Z H) in Eb. fold b in Eb.
  assert (Er : r = match composite lib buf
                           (svgBuffer lib (cropMaskSvg points (of_Z W) (of_Z H)))
                           DestIn with
                   | Ok maskedImage =>
                       match extract lib maskedImage (minX b) (minY b)
                               (cropWidth b) (cropHeight b) with
                       | Ok croppedImage =>
                           {| crop_success := true;
                              croppedImageBase64 :=
                                Some (toBase64 lib croppedImage);
                              boundingBox :=
                                Some {| box_x := minX b; box_y := minY b;
                                        box_width := cropWidth b;
                                        box_height := cropHeight b |};
                              crop_error := None |}
                       | Throw message => cropFailure message
                       end
                   | Throw message => cropFailure message
                   end).
  { subst r. unfold cropObjectFromImage. rewrite Hfetch. cbn [bind].
    rewrite Hmeta. cbn [bind fst snd].
    rewrite (dimension_positive W HW), (dimension_positive H HH). fold b.
    destruct (composite lib buf _ DestIn) as [maskedImage|m]; [|reflexivity].
    cbn [bind]. destruct (extract lib maskedImage _ _ _ _); reflexivity. }
  split; [|split; [|split]].
  - rewrite Eb. cbn [minX maxX minY maxY le of_Z].
    repeat split; apply Qle_bool_iff; assumption.
  - unfold cropWidth, cropHeight. rewrite Eb.
    cbn [minX maxX minY maxY le of_Z sub add opp].
    split; apply Qle_bool_iff; lra.
  - intro Hempty. rewrite Er.
    destruct (composite lib buf _ DestIn) as [maskedImage|m].
    + destruct (Hrej maskedImage (minX b) (minY b) _ _ Hempty) as [m ->].
      simpl. eauto.
    + simpl. eauto.
  - intro Hok. rewrite Er in Hok |- *.
    destruct (composite lib buf _ DestIn) as [maskedImage|m];
      [|discriminate Hok].
    destruct (extract lib maskedImage _ _ _ _) as [croppedImage|m] eqn:Ex;
      [|discriminate Hok].
    split; [reflexivity|].
    destruct (cropWidth b >? Fin 0) eqn:Ew.
    + destruct (cropHeight b >? Fin 0) eqn:Eh; [split; reflexivity|].
      destruct (Hrej maskedImage (minX b) (minY b) (cropWidth b)
                  (cropHeight b) (or_intror Eh)) as [m Hm].
      rewrite Ex in Hm. discriminate Hm.
    + destruct (Hrej maskedImage (minX b) (minY b) (cropWidth b)
                  (cropHeight b) (or_introl Ew)) as [m Hm].
      rewrite Ex in Hm. discriminate Hm.
Qed.

(** C8, witness: in a 100 x 100 image a polygon of zero width is reported
    as a failure, and a polygon reaching past the right and bottom edges is
    cropped to the part inside the image. *)
Lemma C8_witness :
  (crop_success (cropObjectFromImage failingGenerator "image.png" flatPolygon)
   = false
   /\ exists message,
        crop_error (cropObjectFromImage failingGenerator "image.png" flatPolygon)
        = Some message)
  /\ boundingBox
       (cropObjectFromImage failingGenerator "image.png" overhangingPolygon)
     = Some {| box_x := Fin 80; box_y := Fin 90;
               box_width := Fin 20; box_height := Fin 10 |}.
Proof.
  assert (Hrej : rejects_empty_area failingGenerator)
    by apply reference_rejects_empty.
  split.
  - assert (Hne : flatPolygon <> []) by discriminate.
    assert (Hfin : Forall (fun a => is_finite a = true) flatPolygon)
      by (repeat constructor).
    destruct (C8_crop_clamps_and_reports_empty
                ReferenceLib.Dims failingGenerator Hrej "image.png" flatPolygon
                image100 100 100 eq_refl eq_refl eq_refl eq_refl Hne Hfin
                eq_refl)
      as [_ [_ [Hempty _]]].
    destruct Hempty as [H1 [_ H2]]; [left; reflexivity|].
    split; assumption.
  - assert (Hne : overhangingPolygon <> []) by discriminate.
    assert (Hfin : Forall (fun a => is_finite a = true) overhangingPolygon)
      by (repeat constructor).
    destruct (C8_crop_clamps_and_reports_empty
                ReferenceLib.Dims failingGenerator Hrej "image.png"
                overhangingPolygon image100 100 100 eq_refl eq_refl eq_refl
                eq_refl Hne Hfin eq_refl)
      as [_ [_ [_ Hok]]].
    destruct Hok as [Hbox _]; [reflexivity|].
    rewrite Hbox. reflexivity.
Defined.

End Crop.

(** *** C7 *)

Section Mask.
Import GrokImageService.

(** The mask built from a coordinate list has the target dimensions and
    consists of one white path, closed, drawn without a [fill-rule]
    attribute on an empty (transparent) canvas. *)
Lemma createSegmentationMaskSVG_shape (segmentationCoords : list num)
  (width height : num) :
  let doc := createSegmentationMaskSVG segmentationCoords width height in
  Svg.svg_width doc = width /\ Svg.svg_height doc = height
  /\ exists d, Svg.elements doc = [Svg.Plain (Svg.Path d Svg.White None (Some "none"))]
               /\ last d Svg.ClosePath = Svg.ClosePath.
Proof.
  simpl. repeat split. eexists. split; [reflexivity|].
  unfold pathData. destruct (coordPairs segmentationCoords) as [|[x0 y0] rest];
    [reflexivity|].
  change (Svg.MoveTo x0 y0 :: map (fun p => Svg.LineTo (fst p) (snd p)) rest
          ++ [Svg.ClosePath])
    with ((Svg.MoveTo x0 y0 :: map (fun p => Svg.LineTo (fst p) (snd p)) rest)
          ++ [Svg.ClosePath]).
  apply last_last.
Qed.

(** C7: on a pentagram the mask built from the coordinate list selects the
    doubly wound inner pentagon, which even-odd filling leaves out (and
    which the mask built by [extractObjectUsingSegmentation] from the same
    path, with [fill-rule="evenodd"], does leave out); the dimensions and
    the transparent background are as stated. *)
Theorem C7_coordinate_mask_fills_nonzero :
  Svg.svg_width (createSegmentationMaskSVG pentagram (Fin 100) (Fin 100))
  = Fin 100
  /\ Svg.svg_height (createSegmentationMaskSVG pentagram (Fin 100) (Fin 100))
     = Fin 100
  /\ Svg.elements (createSegmentationMaskSVG pentagram (Fin 100) (Fin 100))
     = [Svg.Plain (Svg.Path (pathData (coordPairs pentagram)) Svg.White None
                            (Some "none"))]
  /\ Svg.windingNumber (Fin 50.5) (Fin 50.5) (coordPairs pentagram) = 2%Z
  /\ Svg.inside Svg.EvenOdd (Fin 50.5) (Fin 50.5) (coordPairs pentagram)
     = false
  /\ Svg.selected (createSegmentationMaskSVG pentagram (Fin 100) (Fin 100))
                  50 50 = true
  /\ Svg.selected
       (extractionMaskSvg (pathData (coordPairs pentagram)) (Fin 100) (Fin 100))
       50 50 = false
  /\ Svg.selected (createSegmentationMaskSVG pentagram (Fin 100) (Fin 100))
                  5 5 = false.
Proof. repeat split; vm_compute; reflexivity. Qed.

End Mask.

(** *** Generation failure in the workflows without a removal step *)

Section Replacement.

(** With a generator that is unavailable the scene workflow returns a
    failure that carries no image at all, and the step-by-step workflow
    returns a failure whose only image is the cropped object; neither
    carries a cleaned image. *)
Example unavailable_generator_results :
  GrokImageService.success
    (GrokImageService.replaceObjectWithSceneDiff failingGenerator noDifferences
       "image.png" pentagram "a red sofa" "couch") = false
  /\ ~ scene_carries_image
         (GrokImageService.replaceObjectWithSceneDiff failingGenerator
            noDifferences "image.png" pentagram "a red sofa" "couch")
  /\ GrokReplacementService.finalImageBase64
       (snd (GrokReplacementService.replaceObjectStepByStep cropOk
               generateFails "image.png" pentagram "a red sofa")) = None
  /\ GrokReplacementService.croppedObject
       (snd (GrokReplacementService.replaceObjectStepByStep cropOk
               generateFails "image.png" pentagram "a red sofa"))
     = GrokReplacementService.croppedImageBase64 (cropOk "image.png" pentagram).
Proof.
  split; [reflexivity|]. split; [|split; reflexivity].
  intros [H|[H|[H|H]]]; apply H; reflexivity.
Qed.

Import GrokReplacementService.

(** When cropping has succeeded and replacement generation
    fails, the step-by-step workflow returns a failure whose error is
    "Generation failed: ..." and whose only image is the cropped object;
    when scene generation fails, the scene workflow returns a failure that
    carries the error "Scene generation failed: ..." and no image.  Neither
    returns a final or cleaned image. *)
Lemma generation_failure_without_removal
  (cropObject : string -> list num -> CropResult)
  (generateReplacement : string -> string -> string -> GenerateResult)
  (Buffer : Type) (lib : GrokImageService.ImageLib Buffer)
  (extractImageDifferences :
     string -> string -> list num -> GrokImageService.DiffResult)
  (imageUrl : string) (segmentationMask : list num)
  (replacementPrompt objectName croppedImage : string) (buf : Buffer)
  (Hcrop : crop_success (cropObject imageUrl segmentationMask) = true)
  (Hcropped :
     present (croppedImageBase64 (cropObject imageUrl segmentationMask))
     = Some croppedImage)
  (Hgen :
     gen_success (generateReplacement croppedImage replacementPrompt imageUrl)
     = false
     \/ present (generatedImageBase64
                   (generateReplacement croppedImage replacementPrompt imageUrl))
        = None)
  (Hfetch : GrokImageService.fetch lib imageUrl = Ok buf)
  (request : GrokImageService.SceneRequest)
  (Hrequest :
     request
     = {| GrokImageService.req_replacementPrompt := replacementPrompt;
          GrokImageService.req_originalImageBase64 :=
            GrokImageService.toBase64 lib buf;
          GrokImageService.req_objectName := objectName;
          GrokImageService.req_croppedObjectImage := "";
          GrokImageService.req_originalImageUrl := imageUrl |})
  (Hscene :
     GrokImageService.scene_success
       (GrokImageService.generateSceneReplacement lib request) = false
     \/ GrokImageService.present
          (GrokImageService.generatedImageBase64
             (GrokImageService.generateSceneReplacement lib request))
        = false) :
  snd (replaceObjectStepByStep cropObject generateReplacement imageUrl
         segmentationMask replacementPrompt)
  = {| success := false; finalImageBase64 := None;
       croppedObject := Some croppedImage;
       generatedReplacement := None; resultBoundingBox := None;
       revisedPrompt := None;
       error :=
         Some ("Generation failed: "
               ++ show (gen_error (generateReplacement croppedImage
                                     replacementPrompt imageUrl)))%string |}
  /\ GrokImageService.replaceObjectWithSceneDiff lib extractImageDifferences
       imageUrl segmentationMask replacementPrompt objectName
     = GrokImageService.sceneDiffFailure
         ("Scene generation failed: "
          ++ GrokImageService.show
               (GrokImageService.scene_error
                  (GrokImageService.generateSceneReplacement lib request))).
Proof.
  split.
  - unfold replaceObjectStepByStep. rewrite Hcrop, Hcropped.
    assert (E : (if gen_success
                      (generateReplacement croppedImage replacementPrompt
                         imageUrl)
                 then present (generatedImageBase64
                                 (generateReplacement croppedImage
                                    replacementPrompt imageUrl))
                 else None) = None).
    { destruct Hgen as [-> | ->]; [reflexivity|].
      destruct (gen_success _); reflexivity. }
    rewrite E. cbn [snd]. f_equal.
    unfold present in Hcropped.
    destruct (croppedImageBase64 (cropObject imageUrl segmentationMask))
      as [[|c s]|]; congruence.
  - unfold GrokImageService.replaceObjectWithSceneDiff.
    rewrite Hfetch. cbn [bind]. rewrite <- Hrequest.
    destruct Hscene as [-> | Hp]; [reflexivity|].
    rewrite Hp. destruct (GrokImageService.scene_success _); reflexivity.
Qed.

(** Cropping succeeds and both generators fail. *)
Lemma generation_failure_without_removal_sample :
  error (snd (replaceObjectStepByStep cropOk generateFails "image.png"
                pentagram "a red sofa"))
  = Some "Generation failed: Generation request failed: 500"
  /\ croppedObject (snd (replaceObjectStepByStep cropOk generateFails
                           "image.png" pentagram "a red sofa"))
     = Some "Q1JPUA=="
  /\ GrokImageService.replaceObjectWithSceneDiff failingGenerator
       noDifferences "image.png" pentagram "a red sofa" "couch"
     = GrokImageService.sceneDiffFailure
         "Scene generation failed: 503 Service Unavailable".
Proof.
  destruct (generation_failure_without_removal cropOk generateFails
              ReferenceLib.Dims failingGenerator noDifferences
              "image.png" pentagram "a red sofa" "couch" "Q1JPUA==" image100
              eq_refl eq_refl (or_introl eq_refl) eq_refl _ eq_refl
              (or_introl eq_refl))
    as [Hstep Hscene].
  rewrite Hstep. split; [reflexivity|]. split; [reflexivity|]. exact Hscene.
Defined.

End Replacement.

End ServiceProofs.

(* ================================================================= *)
(** ** The two-step replacement *)

Module TwoStepProofs.

Import JS Exc OpenAIService ReplacementSpec TwoStepSamples.

(** A removal that returns has succeeded. *)
Lemma removal_succeeds (imagesGenerate : string -> exc (option string))
  (imageUrl : string) (objectBounds : Bounds) (objectMask : option string)
  (removal : RemovalResult) :
  removeObjectWithInpainting imagesGenerate imageUrl objectBounds objectMask
  = Ok removal ->
  removal_success removal = true.
Proof.
  unfold removeObjectWithInpainting, rethrow.
  destruct (imagesGenerate removalPrompt) as [response|e]; cbn [bind];
    [|discriminate].
  destruct (present response); [|discriminate].
  intro H. injection H as <-. reflexivity.
Qed.

(** The message of a failed generation step names the step. *)
Lemma generation_failure_message
  (imagesGenerate : string -> exc (option string))
  (cleanedImageUrl objectName modificationPrompt : string)
  (targetBounds : Bounds) (message : string) :
  generateAndPlaceObject imagesGenerate cleanedImageUrl objectName
    modificationPrompt targetBounds = Throw message ->
  exists reason, message = ("Object generation failed: " ++ reason)%string.
Proof.
  unfold generateAndPlaceObject, rethrow.
  destruct (imagesGenerate _) as [response|e]; cbn [bind].
  - destruct (present response); [discriminate|].
    intro H. injection H as <-. eexists. reflexivity.
  - intro H. injection H as <-. eexists. reflexivity.
Qed.

Lemma two_step_generation_failure
  (imagesGenerate : string -> exc (option string)) (request : Request)
  (removal : RemovalResult) (message : string) :
  removeObjectWithInpainting imagesGenerate (originalImageUrl request)
    (objectBounds request) (objectMask request) = Ok removal ->
  generateAndPlaceObject imagesGenerate (removal_cleanedImageUrl removal)
    (objectName request) (modificationPrompt request) (objectBounds request)
  = Throw message ->
  replaceObjectTwoStep imagesGenerate request
  = Throw ("Object replacement failed: " ++ message).
Proof.
  intros Hremoved Hfails. unfold replaceObjectTwoStep.
  rewrite Hremoved. cbn [bind].
  rewrite (removal_succeeds _ _ _ _ _ Hremoved). cbn [negb].
  rewrite Hfails. reflexivity.
Qed.

(** C4, counterexample: the image service answers the removal request with
    a cleaned image and refuses the generation request that follows.  The
    object has been removed and generation fails: [replaceObjectTwoStep]
    throws, so its caller gets no result, and the route answers 500 with
    an error message; the cleaned image is in neither. *)
Lemma C4_counterexample :
  removeObjectWithInpainting removalOnly (originalImageUrl sofaRequest)
    (objectBounds sofaRequest) (objectMask sofaRequest)
  = Ok {| removal_success := true;
          removal_cleanedImageUrl := "https://images.example/cleaned.png";
          method := Some "OpenAI Inpainting" |}
  /\ generateAndPlaceObject removalOnly "https://images.example/cleaned.png"
       (objectName sofaRequest) (modificationPrompt sofaRequest)
       (objectBounds sofaRequest)
     = Throw "Object generation failed: 429 Rate limit reached"
  /\ replaceObjectTwoStep removalOnly sofaRequest
     = Throw "Object replacement failed: Object generation failed: 429 Rate limit reached"
  /\ ~ returns_cleaned_image "https://images.example/cleaned.png"
         (replaceObjectTwoStep removalOnly sofaRequest)
  /\ replaceRoute removalOnly chatUnavailable (Fin 7) sofaBody
     = {| GrokRoutes.status := 500;
          GrokRoutes.json :=
            failed "Failed to replace object"
              "Object replacement failed: Object generation failed: 429 Rate limit reached"
              "Two-step replacement process failed" |}
  /\ ~ answers_cleaned_image "https://images.example/cleaned.png"
         (replaceRoute removalOnly chatUnavailable (Fin 7) sofaBody).
Proof.
  split; [reflexivity|]. split; [reflexivity|]. split; [reflexivity|].
  split; [intros [result [H _]]; discriminate H|].
  split; [reflexivity|].
  intros [replacement [s1 [s2 [t [H _]]]]]. discriminate H.
Qed.

(** C4, as amended: when the removal step of the two-step replacement has
    returned a cleaned image and the generation step then throws, the
    workflow [replaceObjectTwoStep] throws [Object replacement failed: ...]
    with the message of the generation step, which starts with
    [Object generation failed: ]; it returns no result, so the cleaned
    image does not reach the caller, and the route
    [POST /api/objects/:objectId/replace] answers 500 with the message
    [Failed to replace object], that error and no image. *)
Theorem C4_generation_failure_result
  (imagesGenerate chatCompletion : string -> exc (option string))
  (objectId : num) (body : Body)
  (modificationPrompt objectName originalImageUrl : string)
  (removal : RemovalResult) (message : string)
  (Hprompt : present (body_modificationPrompt body) = Some modificationPrompt)
  (Hname : present (body_objectName body) = Some objectName)
  (Hurl : present (body_originalImageUrl body) = Some originalImageUrl) :
  let request :=
    {| OpenAIService.objectName := objectName;
       OpenAIService.originalImageUrl := originalImageUrl;
       OpenAIService.modificationPrompt :=
         analyzeObjectForModification chatCompletion objectName
           modificationPrompt;
       objectBounds :=
         match body_objectBounds body with
         | Some objectBounds => objectBounds
         | None => defaultBounds
         end;
       objectMask := body_objectMask body |} in
  removeObjectWithInpainting imagesGenerate originalImageUrl
    (objectBounds request) (objectMask request) = Ok removal ->
  generateAndPlaceObject imagesGenerate (removal_cleanedImageUrl removal)
    objectName (OpenAIService.modificationPrompt request)
    (objectBounds request) = Throw message ->
  replaceObjectTwoStep imagesGenerate request
  = Throw ("Object replacement failed: " ++ message)
  /\ (exists reason,
         message = ("Object generation failed: " ++ reason)%string)
  /\ ~ returns_cleaned_image (removal_cleanedImageUrl removal)
         (replaceObjectTwoStep imagesGenerate request)
  /\ replaceRoute imagesGenerate chatCompletion objectId body
     = {| GrokRoutes.status := 500;
          GrokRoutes.json :=
            failed "Failed to replace object"
              ("Object replacement failed: " ++ message)
              "Two-step replacement process failed" |}
  /\ ~ answers_cleaned_image (removal_cleanedImageUrl removal)
         (replaceRoute imagesGenerate chatCompletion objectId body).
Proof.
  intros request Hremoved Hfails.
  pose proof (two_step_generation_failure imagesGenerate request removal
                message Hremoved Hfails) as Hthrow.
  assert (Hroute :
            replaceRoute imagesGenerate chatCompletion objectId body
            = {| GrokRoutes.status := 500;
                 GrokRoutes.json :=
                   failed "Failed to replace object"
                     ("Object replacement failed: " ++ message)
                     "Two-step replacement process failed" |}).
  { unfold replaceRoute. rewrite Hprompt, Hname, Hurl. cbv zeta.
    fold request. rewrite Hthrow. reflexivity. }
  split; [exact Hthrow|].
  split; [exact (generation_failure_message _ _ _ _ _ _ Hfails)|].
  split.
  { rewrite Hthrow. intros [result [H _]]. discriminate H. }
  split; [exact Hroute|].
  rewrite Hroute. intros [replacement [s1 [s2 [t [H _]]]]]. discriminate H.
Qed.

(** C4, witness: the request for a red sofa, with the image service that
    answers the removal request only. *)
Lemma C4_witness :
  replaceObjectTwoStep removalOnly sofaRequest
  = Throw "Object replacement failed: Object generation failed: 429 Rate limit reached"
  /\ GrokRoutes.status
       (replaceRoute removalOnly chatUnavailable (Fin 7) sofaBody) = 500%nat.
Proof.
  destruct (C4_generation_failure_result removalOnly chatUnavailable (Fin 7)
              sofaBody "a red sofa" "sofa" "https://images.example/room.png"
              {| removal_success := true;
                 removal_cleanedImageUrl :=
                   "https://images.example/cleaned.png";
                 method := Some "OpenAI Inpainting" |}
              "Object generation failed: 429 Rate limit reached"
              eq_refl eq_refl eq_refl eq_refl eq_refl)
    as [Hthrow [_ [_ [Hroute _]]]].
  split; [exact Hthrow|]. rewrite Hroute. reflexivity.
Defined.

End TwoStepProofs.

(* ================================================================= *)
(** * Further properties *)

Module IntervalFacts.

Import JS JSFacts.
Local Open Scope js_scope.

(** The overlap of two intervals [x1, x1 + w1] and [x2, x2 + w2]. *)
Lemma overlap_extent (x1 w1 x2 w2 : Q) :
  (0 <= w1)%Q -> (0 <= w2)%Q ->
  exists o,
    Math_max (Fin 0)
      (Math_min (Fin x1 + Fin w1) (Fin x2 + Fin w2)
       - Math_max (Fin x1) (Fin x2)) = Fin o
    /\ (0 <= o)%Q /\ (o <= w1)%Q /\ (o <= w2)%Q
    /\ ((x1 + w1 <= x2)%Q -> o == 0)%Q
    /\ ((x2 + w2 <= x1)%Q -> o == 0)%Q
    /\ ((x1 == x2)%Q -> (w1 == w2)%Q -> o == w1)%Q
    /\ ((x2 <= x1)%Q -> (x1 + w1 <= x2 + w2)%Q -> o == w1)%Q.
Proof.
  intros H1 H2. unfold Math_max, Math_min. cbn [add is_nan orb lt].
  destruct (Qlt_bool (x2 + w2) (x1 + w1)) eqn:E1,
           (Qlt_bool x1 x2) eqn:E2; cbn [sub opp add is_nan orb lt];
    qhyps;
    match goal with
    | |- context [Qlt_bool 0 ?e] => destruct (Qlt_bool 0 e) eqn:E3
    end; qhyps; eexists; (split; [reflexivity|]); repeat split;
    intros; lra.
Qed.

End IntervalFacts.

Module FusionFacts.

Import JS JSFacts PenSelector FusionSpec Samples Predicates.
Import FusionProofs FactorProofs IntervalFacts.
Local Open Scope js_scope.

(** *** Boxes with finite coordinates *)

(** Destructs the fields of a box into rationals. *)
Ltac finite_fields obj H :=
  let Hx := fresh "Hx" in let Hy := fresh "Hy" in
  let Hw := fresh "Hw" in let Hh := fresh "Hh" in
  destruct H as [Hx [Hy [Hw Hh]]];
  apply is_finite_Fin in Hx, Hy, Hw, Hh;
  let bx := fresh "bx" in let by_ := fresh "by_" in
  let bw := fresh "bw" in let bh := fresh "bh" in
  destruct Hx as [bx Hx], Hy as [by_ Hy], Hw as [bw Hw], Hh as [bh Hh].

Lemma overlapRatio_finite (a b : DetectedObject) :
  finite_box a -> finite_box b ->
  (Fin 0 <=? width a) = true -> (Fin 0 <=? height a) = true ->
  (Fin 0 <=? width b) = true -> (Fin 0 <=? height b) = true ->
  exists ov un : Q,
    overlapRatio a b = Fin ov / Fin un
    /\ (0 <= ov)%Q /\ (ov <= un)%Q
    /\ (exists wa ha wb hb,
          width a = Fin wa /\ height a = Fin ha
          /\ width b = Fin wb /\ height b = Fin hb
          /\ (wa * ha <= un)%Q /\ (wb * hb <= un)%Q
          /\ (ov <= wa * ha)%Q /\ (ov <= wb * hb)%Q)
    /\ ((x a + width a <=? x b) = true \/ (x b + width b <=? x a) = true
        \/ (y a + height a <=? y b) = true
        \/ (y b + height b <=? y a) = true -> ov == 0)%Q
    /\ (x a = x b -> y a = y b -> width a = width b -> height a = height b ->
        ov == un)%Q.
Proof.
  intros Fa Fb Hwa Hha Hwb Hhb.
  finite_fields a Fa. finite_fields b Fb.
  unfold overlapRatio. rewrite Hx, Hy, Hw, Hh, Hx0, Hy0, Hw0, Hh0 in *.
  cbn [le] in Hwa, Hha, Hwb, Hhb. qhyps.
  destruct (overlap_extent bx bw bx0 bw0 Hwa Hwb)
    as [ox [-> [Hox0 [Hox1 [Hox2 [Hsep [Hsep' [Hsame _]]]]]]]].
  destruct (overlap_extent by_ bh by_0 bh0 Hha Hhb)
    as [oy [-> [Hoy0 [Hoy1 [Hoy2 [Hsepy [Hsepy' [Hsamey _]]]]]]]].
  cbn [mul add sub opp].
  exists (ox * oy)%Q, (bw * bh + bw0 * bh0 + - (ox * oy))%Q.
  split; [reflexivity|].
  assert (Ha : (ox * oy <= bw * bh)%Q) by nra.
  assert (Hb : (ox * oy <= bw0 * bh0)%Q) by nra.
  assert (H0 : (0 <= ox * oy)%Q) by nra.
  split; [exact H0|]. split; [lra|]. split.
  - exists bw, bh, bw0, bh0. repeat split; lra.
  - split.
    + cbn [add le]. intros [H|[H|[H|H]]]; qhyps.
      * rewrite (Hsep H). lra.
      * rewrite (Hsep' H). lra.
      * rewrite (Hsepy H). lra.
      * rewrite (Hsepy' H). lra.
    + intros Ex Ey Ew Eh. injection Ex as Ex. injection Ey as Ey.
      injection Ew as Ew. injection Eh as Eh. subst.
      assert (E1 : (ox == bw0)%Q) by (apply Hsame; reflexivity).
      assert (E2 : (oy == bh0)%Q) by (apply Hsamey; reflexivity).
      rewrite E1, E2. lra.
Qed.


(** X1: the intersection-over-union of two boxes with finite coordinates and
    non-negative extents, one of them of positive area, is a number (the
    union is not empty), and it is not negative. *)
Theorem overlapRatio_is_nonnegative (a b : DetectedObject)
  (Fa : finite_box a) (Fb : finite_box b)
  (Hwa : (Fin 0 <=? width a) = true) (Hha : (Fin 0 <=? height a) = true)
  (Hwb : (Fin 0 <=? width b) = true) (Hhb : (Fin 0 <=? height b) = true)
  (Hpos : (Fin 0 <? objArea a) = true \/ (Fin 0 <? objArea b) = true) :
  is_finite (overlapRatio a b) = true
  /\ (Fin 0 <=? overlapRatio a b) = true.
Proof.
  destruct (overlapRatio_finite a b Fa Fb Hwa Hha Hwb Hhb)
    as [ov [un [-> [H0 [H1 [[wa [ha [wb [hb [Ewa [Eha [Ewb [Ehb
         [Ua [Ub _]]]]]]]]]] _]]]]]].
  assert (Hun : (0 < un)%Q).
  { unfold objArea in Hpos. rewrite Ewa, Eha, Ewb, Ehb in Hpos.
    cbn [mul lt] in Hpos. destruct Hpos as [H|H]; qhyps; lra. }
  unfold div.
  destruct (Qeq_bool un 0) eqn:E; qhyps; [exfalso; lra|].
  split; [reflexivity|]. cbn [le]. apply Qle_bool_iff.
  apply Qle_shift_div_l; lra.
Qed.

Lemma overlapRatio_is_nonnegative_witness :
  is_finite (overlapRatio googleTable yoloTable) = true
  /\ (Fin 0 <=? overlapRatio googleTable yoloTable) = true.
Proof.
  apply (overlapRatio_is_nonnegative googleTable yoloTable);
    try (repeat split; reflexivity).
  left. reflexivity.
Defined.

(** X2: two boxes that merely touch, or lie apart, along one axis overlap at no
    threshold that is not negative. *)
Theorem separated_boxes_never_overlap (a b : DetectedObject) (t : num)
  (Fa : finite_box a) (Fb : finite_box b)
  (Hwa : (Fin 0 <=? width a) = true) (Hha : (Fin 0 <=? height a) = true)
  (Hwb : (Fin 0 <=? width b) = true) (Hhb : (Fin 0 <=? height b) = true)
  (Ht : (Fin 0 <=? t) = true)
  (Hsep : (x a + width a <=? x b) = true \/ (x b + width b <=? x a) = true
          \/ (y a + height a <=? y b) = true
          \/ (y b + height b <=? y a) = true) :
  objectsOverlap a b t = false.
Proof.
  destruct (overlapRatio_finite a b Fa Fb Hwa Hha Hwb Hhb)
    as [ov [un [E [H0 [H1 [_ [Hz _]]]]]]].
  specialize (Hz Hsep). unfold objectsOverlap, gt. rewrite E.
  destruct t as [q| | |]; try discriminate Ht; cbn [le] in Ht; qhyps.
  - unfold div. destruct (Qeq_bool un 0) eqn:E0; qhyps.
    + unfold inf_of_sign.
      destruct (Qlt_bool 0 ov) eqn:E1; qhyps; [exfalso; lra|].
      destruct (Qlt_bool ov 0) eqn:E2; qhyps; [exfalso; lra|]. reflexivity.
    + cbn [lt]. apply Qlt_bool_false_iff.
      assert (Ed : (ov / un == 0)%Q) by (rewrite Hz; field; exact E0).
      rewrite Ed. exact Ht.
  - destruct (Fin ov / Fin un); reflexivity.
Qed.

Lemma separated_boxes_never_overlap_witness :
  objectsOverlap (detection "chair" 0.9 0 0 10 10)
                 (detection "chair" 0.9 10 0 10 10) (Fin 0.1) = false.
Proof.
  apply separated_boxes_never_overlap; try (repeat split; reflexivity).
  left. reflexivity.
Defined.

(** X3: the conflict test of the fusion step is one comparison of the
    intersection-over-union: with 0.1 when the two names are equal ignoring
    letter case, with 0.3 otherwise. *)
Theorem conflicts_threshold (g y0 : DetectedObject) :
  conflicts g y0
  = (overlapRatio g y0
     >? (if String.eqb (toLowerCase (name g)) (toLowerCase (name y0))
         then Fin 0.1 else Fin 0.3)).
Proof.
  unfold conflicts, objectsOverlap, gt.
  destruct (String.eqb _ _).
  - rewrite andb_true_l.
    destruct (overlapRatio g y0) as [q| | |]; cbn [lt orb]; try reflexivity.
    destruct (Qlt_bool 0.3 q) eqn:E1, (Qlt_bool 0.1 q) eqn:E2;
      try reflexivity; qhyps; exfalso; lra.
  - rewrite andb_false_l, orb_false_r. reflexivity.
Qed.

(** X4: a bbox-only detection whose box is that of some polygon-capable
    detection (accepted or not, of any name), of positive area, is dropped
    by the fusion step. *)
Theorem same_box_is_dropped (yoloObjects before after : list DetectedObject)
  (g y0 : DetectedObject)
  (Hin : In y0 yoloObjects)
  (Fg : finite_box g)
  (Hw : (Fin 0 <? width g) = true) (Hh : (Fin 0 <? height g) = true)
  (Ex : x g = x y0) (Ey : y g = y y0)
  (Ew : width g = width y0) (Eh : height g = height y0) :
  hasOverlapWithYolo yoloObjects g = true
  /\ objects (hybridDetection yoloObjects (before ++ g :: after))
     = objects (hybridDetection yoloObjects (before ++ after)).
Proof.
  assert (Hc : hasOverlapWithYolo yoloObjects g = true).
  { apply hasOverlapWithYolo_iff. exists y0. split; [exact Hin|].
    apply conflicts_iff. left.
    assert (Fy : finite_box y0).
    { destruct Fg as [? [? [? ?]]]. unfold finite_box.
      rewrite <- Ex, <- Ey, <- Ew, <- Eh. tauto. }
    assert (Hw0 : (Fin 0 <=? width g) = true).
    { destruct Fg as [_ [_ [F _]]].
      destruct (width g); try discriminate; cbn [lt le] in *; qhyps.
      apply Qle_bool_iff. lra. }
    assert (Hh0 : (Fin 0 <=? height g) = true).
    { destruct Fg as [_ [_ [_ F]]].
      destruct (height g); try discriminate; cbn [lt le] in *; qhyps.
      apply Qle_bool_iff. lra. }
    assert (Hw1 : (Fin 0 <=? width y0) = true) by (rewrite <- Ew; exact Hw0).
    assert (Hh1 : (Fin 0 <=? height y0) = true) by (rewrite <- Eh; exact Hh0).
    destruct (overlapRatio_finite g y0 Fg Fy Hw0 Hh0 Hw1 Hh1)
      as [ov [un [-> [H0 [H1 [[wa [ha [wb [hb [Ewa [Eha [Ewb [Ehb
           [Ua [Ub _]]]]]]]]]] [_ Hsame]]]]]]].
    specialize (Hsame Ex Ey Ew Eh).
    rewrite Ewa in Hw. rewrite Eha in Hh. cbn [lt] in Hw, Hh. qhyps.
    assert (Hun : (0 < un)%Q) by nra.
    unfold gt, div. destruct (Qeq_bool un 0) eqn:E; qhyps; [exfalso; lra|].
    cbn [lt]. apply Qlt_bool_iff.
    assert (Ed : (ov / un == 1)%Q) by (rewrite Hsame; field; lra).
    rewrite Ed. reflexivity. }
  split; [exact Hc|].
  rewrite !hybridDetection_objects. f_equal. f_equal.
  rewrite !filter_app. cbn [filter]. rewrite Hc. reflexivity.
Qed.

Lemma same_box_is_dropped_witness :
  objects (hybridDetection [faintTable]
             ([] ++ detection "desk" 0.9 0 0 10 10 :: [smallDesk]))
  = objects (hybridDetection [faintTable] ([] ++ [smallDesk])).
Proof.
  apply (same_box_is_dropped [faintTable] [] [smallDesk]
           (detection "desk" 0.9 0 0 10 10) faintTable);
    try reflexivity.
  - left. reflexivity.
  - repeat split.
Defined.

(** *** Counts and degenerate inputs of the fusion step *)

(** X5: the two counts of the fusion result add up to the number of objects;
    the bbox-only count is the number of detections without conflict; with
    no detection from one detector the result is the (tagged) output of the
    other. *)
Theorem fusion_counts (yoloObjects googleObjects : list DetectedObject) :
  let r := hybridDetection yoloObjects googleObjects in
  (yoloCount r + googleCount r = List.length (objects r))%nat
  /\ googleCount r
     = List.length
         (filter (fun g => negb (hasOverlapWithYolo yoloObjects g))
                 googleObjects)
  /\ (yoloCount r <= List.length yoloObjects)%nat
  /\ (googleCount r <= List.length googleObjects)%nat
  /\ objects (hybridDetection [] googleObjects) = map tagGoogle googleObjects
  /\ objects (hybridDetection yoloObjects [])
     = map tagYolo (highConfidenceYolo yoloObjects).
Proof.
  cbv zeta.
  assert (Hg : googleCount (hybridDetection yoloObjects googleObjects)
               = List.length
                   (filter (fun g => negb (hasOverlapWithYolo yoloObjects g))
                           googleObjects)).
  { unfold hybridDetection; cbn [googleCount].
    rewrite processGoogle_spec, length_app, !length_map. lia. }
  assert (Hl : List.length
                 (objects (hybridDetection yoloObjects googleObjects))
               = (List.length (highConfidenceYolo yoloObjects)
                  + List.length
                      (filter
                         (fun g => negb (hasOverlapWithYolo yoloObjects g))
                         googleObjects))%nat).
  { rewrite hybridDetection_objects, length_app, !length_map. reflexivity. }
  split; [|split; [|split; [|split; [|split]]]].
  - rewrite Hg, Hl. reflexivity.
  - exact Hg.
  - apply filter_length_le.
  - rewrite Hg. apply filter_length_le.
  - rewrite hybridDetection_objects. cbn [highConfidenceYolo filter map app].
    f_equal. clear Hg Hl. induction googleObjects as [|g l IH]; [reflexivity|].
    cbn [filter hasOverlapWithYolo existsb negb]. f_equal. exact IH.
  - rewrite hybridDetection_objects. cbn [filter map]. apply app_nil_r.
Qed.

(** X6: fusion changes no name, box or outline: every object of the result
    carries those of one input detection; a polygon-capable detection keeps
    its confidence, a bbox-only one gets 0.6 when its confidence is missing
    or zero. *)
Theorem fusion_preserves_detections
  (yoloObjects googleObjects : list DetectedObject) :
  Forall
    (fun o =>
       exists i,
         name o = name i /\ x o = x i /\ y o = y i
         /\ width o = width i /\ height o = height i
         /\ refinedPath o = refinedPath i /\ segmentation o = segmentation i
         /\ ((In i yoloObjects /\ source o = Some "YOLO11"
              /\ confidence o = confidence i)
             \/ (In i googleObjects /\ source o = Some "Google Vision"
                 /\ confidence o = (confidence i ||n Fin 0.6))))
    (objects (hybridDetection yoloObjects googleObjects)).
Proof.
  rewrite hybridDetection_objects. apply Forall_app. split.
  - apply Forall_map, Forall_forall. intros i Hi. exists i.
    unfold highConfidenceYolo in Hi. apply filter_In in Hi.
    cbn. repeat split; try reflexivity. left. tauto.
  - apply Forall_map, Forall_forall. intros i Hi. exists i.
    apply filter_In in Hi. cbn. repeat split; try reflexivity. right. tauto.
Qed.

End FusionFacts.

Module CapabilityFacts.

Import JS JSFacts YOLO11API Samples CapabilityPredicates.

Lemma lower_ascii_idempotent (c : ascii) :
  lower_ascii (lower_ascii c) = lower_ascii c.
Proof.
  destruct c as [[] [] [] [] [] [] [] []]; reflexivity.
Qed.

Lemma toLowerCase_idempotent (s : string) :
  toLowerCase (toLowerCase s) = toLowerCase s.
Proof.
  induction s as [|c s IH]; [reflexivity|].
  cbn [toLowerCase]. rewrite lower_ascii_idempotent, IH. reflexivity.
Qed.

Lemma lookup_In {A} (k : string) (t : list (string * A)) (v : A) :
  lookup k t = Some v -> In v (map snd t).
Proof.
  induction t as [|[k' v'] t IH]; [discriminate|].
  cbn [lookup map snd]. destruct (String.eqb k k').
  - intro H. injection H as ->. left. reflexivity.
  - intro H. right. apply IH, H.
Qed.

(** The target of every mapping is a supported class, written in lower
    case. *)
Lemma mappings_supported (c : string) :
  In c (map snd mappings) ->
  includes supportedClasses c = true /\ toLowerCase c = c /\ c <> "".
Proof.
  cbn [mappings map snd In].
  intros [<-|[<-|[<-|[<-|[<-|[<-|[<-|[<-|[]]]]]]]]];
    (split; [reflexivity|split; [reflexivity|discriminate]]).
Qed.

(** X7: whatever class [mapToYOLOClass] answers is one of the supported
    classes, is accepted by [canSegment] (of the base and of every custom
    model) and is mapped to itself.  The name and the model version are
    taken not to be names inherited from [Object.prototype]. *)
Theorem mapped_class_is_supported (this : YOLO11APIDetector)
  (objectName c : string)
  (Hname : ownKey (toLowerCase objectName))
  (Hversion : ownKey (modelVersion this))
  (Hmap : mapToYOLOClass this objectName = Some c) :
  includes supportedClasses c = true
  /\ canSegment this c = true
  /\ mapToYOLOClass this c = Some c.
Proof.
  assert (H : includes supportedClasses c = true /\ toLowerCase c = c).
  { unfold mapToYOLOClass in Hmap.
    destruct (includes supportedClasses (toLowerCase objectName)) eqn:E.
    - injection Hmap as <-. split; [exact E|apply toLowerCase_idempotent].
    - destruct (lookup (toLowerCase objectName) mappings) as [v|] eqn:El;
        [|discriminate].
      destruct (mappings_supported v (lookup_In _ _ _ El)) as [H1 [H2 H3]].
      destruct v as [|a v]; [congruence|]. injection Hmap as <-.
      split; assumption. }
  destruct H as [H1 H2]. split; [exact H1|]. split.
  - unfold canSegment. rewrite H2, H1.
    destruct (useCustomModel this); [apply orb_true_r|reflexivity].
  - unfold mapToYOLOClass. rewrite H2, H1. reflexivity.
Qed.

Lemma mapped_class_is_supported_witness :
  canSegment yolo11APIDetector "couch" = true
  /\ mapToYOLOClass yolo11APIDetector "couch" = Some "couch".
Proof.
  apply (mapped_class_is_supported yolo11APIDetector "Sofa" "couch");
    reflexivity.
Defined.

(** X8: both capability queries ignore the letter case of the name. *)
Theorem capability_ignores_case (this : YOLO11APIDetector)
  (objectName : string) :
  canSegment this (toLowerCase objectName) = canSegment this objectName
  /\ mapToYOLOClass this (toLowerCase objectName)
     = mapToYOLOClass this objectName.
Proof.
  unfold canSegment, mapToYOLOClass. rewrite toLowerCase_idempotent.
  split; reflexivity.
Qed.

(** X9: for the base model, a name can be segmented exactly when it is mapped
    to itself (in lower case); a name the mapping table translates
    ("sofa") cannot be segmented under that name. *)
Theorem base_model_segments_own_classes (objectName : string) :
  canSegment yolo11APIDetector objectName = true
  <-> mapToYOLOClass yolo11APIDetector objectName
      = Some (toLowerCase objectName).
Proof.
  unfold canSegment, mapToYOLOClass. cbn [useCustomModel yolo11APIDetector].
  destruct (includes supportedClasses (toLowerCase objectName)) eqn:E.
  - split; reflexivity.
  - split; [discriminate|]. intro H. exfalso.
    destruct (lookup (toLowerCase objectName) mappings) as [v|] eqn:El.
    + destruct (mappings_supported v (lookup_In _ _ _ El)) as [H1 [H2 H3]].
      destruct v as [|a v]; [discriminate|]. injection H as H.
      rewrite H in H1. congruence.
    + discriminate.
Qed.

(** The walls-and-floors detector segments the classes of its custom
    model, which the mapping does not know. *)
Example custom_model_segments_unmapped :
  canSegment MoreSamples.wallsFloorsYOLODetector "Wall" = true
  /\ mapToYOLOClass MoreSamples.wallsFloorsYOLODetector "Wall" = None
  /\ canSegment yolo11APIDetector "Wall" = false.
Proof. repeat split. Qed.

End CapabilityFacts.

Module TagFacts.

Import JS JSFacts YOLO11API PenSelector Samples CapabilityFacts.

(** X10: the tags of a bbox-only detection that is kept are consistent: either
    it can be segmented, its YOLO class is its own name in lower case and
    the note names that class (never "null"), or it cannot and the note says
    so. *)
Theorem google_tags_consistent (googleObj : DetectedObject) :
  let o := tagGoogle googleObj in
  let lower := toLowerCase (name googleObj) in
  (PenSelector.canSegment o = Some true
   /\ yoloEquivalent o = Some lower
   /\ segmentationNote o
      = Some ("Can be re-detected with YOLO as '" ++ lower
              ++ "' for segmentation")%string)
  \/ (PenSelector.canSegment o = Some false
      /\ yoloEquivalent o <> Some lower
      /\ segmentationNote o = Some "No YOLO equivalent - bounding box only").
Proof.
  cbv zeta. unfold tagGoogle.
  cbn [PenSelector.canSegment yoloEquivalent segmentationNote].
  destruct (YOLO11API.canSegment yolo11APIDetector (name googleObj)) eqn:E.
  - left. apply base_model_segments_own_classes in E. rewrite E.
    repeat split.
  - right. split; [reflexivity|]. split; [|reflexivity].
    intro H. apply base_model_segments_own_classes in H. congruence.
Qed.

(** A "sofa" is tagged with the YOLO class "couch" and, at the same time,
    with the note that there is no YOLO equivalent. *)
Example sofa_tags :
  let o := tagGoogle (detection "sofa" 0.9 0 0 10 10) in
  PenSelector.canSegment o = Some false
  /\ yoloEquivalent o = Some "couch"
  /\ segmentationNote o = Some "No YOLO equivalent - bounding box only".
Proof. repeat split. Qed.

End TagFacts.

Module GeometryFacts.

Import JS JSFacts PenSelector Samples Predicates GeometryPredicates.
Import FactorProofs.
Local Open Scope js_scope.

(** *** The bounding box of a path *)

Lemma fold_min_lower (xs : list num) (q : Q) :
  Forall (fun a => is_finite a = true) xs ->
  exists m, fold_left Math_min xs (Fin q) = Fin m /\ (m <= q)%Q
            /\ Forall (fun a => exists p, a = Fin p /\ (m <= p)%Q) xs.
Proof.
  revert q. induction xs as [|a xs IH]; intros q Hall; cbn [fold_left].
  - exists q. split; [reflexivity|]. split; [lra|constructor].
  - inversion Hall as [|? ? Ha Hxs]; subst.
    destruct (is_finite_Fin a Ha) as [p ->].
    unfold Math_min at 2. cbn [is_nan orb lt].
    destruct (Qlt_bool p q) eqn:E; qhyps.
    + destruct (IH p Hxs) as [m [-> [Hm Hf]]]. exists m.
      split; [reflexivity|]. split; [lra|]. constructor; [|exact Hf].
      exists p. split; [reflexivity|lra].
    + destruct (IH q Hxs) as [m [-> [Hm Hf]]]. exists m.
      split; [reflexivity|]. split; [lra|]. constructor; [|exact Hf].
      exists p. split; [reflexivity|lra].
Qed.

Lemma fold_max_upper (xs : list num) (q : Q) :
  Forall (fun a => is_finite a = true) xs ->
  exists m, fold_left Math_max xs (Fin q) = Fin m /\ (q <= m)%Q
            /\ Forall (fun a => exists p, a = Fin p /\ (p <= m)%Q) xs.
Proof.
  revert q. induction xs as [|a xs IH]; intros q Hall; cbn [fold_left].
  - exists q. split; [reflexivity|]. split; [lra|constructor].
  - inversion Hall as [|? ? Ha Hxs]; subst.
    destruct (is_finite_Fin a Ha) as [p ->].
    unfold Math_max at 2. cbn [is_nan orb lt].
    destruct (Qlt_bool q p) eqn:E; qhyps.
    + destruct (IH p Hxs) as [m [-> [Hm Hf]]]. exists m.
      split; [reflexivity|]. split; [lra|]. constructor; [|exact Hf].
      exists p. split; [reflexivity|lra].
    + destruct (IH q Hxs) as [m [-> [Hm Hf]]]. exists m.
      split; [reflexivity|]. split; [lra|]. constructor; [|exact Hf].
      exists p. split; [reflexivity|lra].
Qed.

Lemma min_max_list_bounds (xs : list num) :
  xs <> [] -> Forall (fun a => is_finite a = true) xs ->
  exists lo hi,
    Math_min_list xs = Fin lo /\ Math_max_list xs = Fin hi
    /\ Forall (fun a => exists p, a = Fin p /\ (lo <= p)%Q /\ (p <= hi)%Q) xs.
Proof.
  intros Hne Hall. destruct xs as [|a xs]; [congruence|].
  inversion Hall as [|? ? Ha Hxs]; subst.
  destruct (is_finite_Fin a Ha) as [p ->].
  unfold Math_min_list, Math_max_list. cbn [fold_left].
  change (Math_min PInf (Fin p)) with (Fin p).
  change (Math_max NInf (Fin p)) with (Fin p).
  destruct (fold_min_lower xs p Hxs) as [lo [-> [Hlo Flo]]].
  destruct (fold_max_upper xs p Hxs) as [hi [-> [Hhi Fhi]]].
  exists lo, hi. split; [reflexivity|]. split; [reflexivity|].
  constructor.
  - exists p. split; [reflexivity|lra].
  - rewrite Forall_forall in *. intros a Hin.
    destruct (Flo a Hin) as [p1 [E1 H1]]. destruct (Fhi a Hin) as [p2 [E2 H2]].
    exists p1. split; [exact E1|]. split; [exact H1|].
    rewrite E1 in E2. injection E2 as ->. exact H2.
Qed.

Lemma getPathBounds_within (path : list Point) :
  path <> [] -> Forall finite_point path ->
  exists lox hix loy hiy,
    getPathBounds path
    = {| bounds_x := Fin lox; bounds_y := Fin loy;
         bounds_width := Fin (hix + - lox);
         bounds_height := Fin (hiy + - loy) |}
    /\ Forall (within lox hix loy hiy) path.
Proof.
  intros Hne Hall.
  assert (Hxs : Forall (fun a => is_finite a = true) (map px path)).
  { apply Forall_map. eapply Forall_impl; [|exact Hall]. intros p [H _]. exact H. }
  assert (Hys : Forall (fun a => is_finite a = true) (map py path)).
  { apply Forall_map. eapply Forall_impl; [|exact Hall]. intros p [_ H]. exact H. }
  assert (Hnx : map px path <> []) by (destruct path; [congruence|discriminate]).
  assert (Hny : map py path <> []) by (destruct path; [congruence|discriminate]).
  destruct (min_max_list_bounds _ Hnx Hxs) as [lox [hix [Ex1 [Ex2 Fx]]]].
  destruct (min_max_list_bounds _ Hny Hys) as [loy [hiy [Ey1 [Ey2 Fy]]]].
  exists lox, hix, loy, hiy. split.
  - destruct path as [|p path]; [congruence|].
    unfold getPathBounds. rewrite Ex1, Ex2, Ey1, Ey2. reflexivity.
  - rewrite Forall_map in Fx, Fy. rewrite Forall_forall in *.
    intros [a b] Hin. destruct (Fx _ Hin) as [a' [Ea Ha]].
    destruct (Fy _ Hin) as [b' [Eb Hb]]. cbn in Ea, Eb. subst.
    exists a', b'. split; [reflexivity|]. split; assumption.
Qed.

(** X11: the box [getPathBounds] returns for a path with finite coordinates
    starts at or before every point of the path on both axes, no point lies
    farther from its left and top borders than its width and its height,
    and these are not negative. *)
Theorem path_bounds_contain_path (path : list Point) (p : Point)
  (Hfinite : Forall finite_point path) (Hin : In p path) :
  let b := getPathBounds path in
  (bounds_x b <=? px p) = true
  /\ (px p - bounds_x b <=? bounds_width b) = true
  /\ (bounds_y b <=? py p) = true
  /\ (py p - bounds_y b <=? bounds_height b) = true
  /\ (Fin 0 <=? bounds_width b) = true
  /\ (Fin 0 <=? bounds_height b) = true.
Proof.
  assert (Hne : path <> []) by (intros ->; destruct Hin).
  destruct (getPathBounds_within path Hne Hfinite)
    as [lox [hix [loy [hiy [-> Hall]]]]].
  rewrite Forall_forall in Hall. destruct (Hall p Hin) as [a [b [-> [Ha Hb]]]].
  cbn. repeat split; apply Qle_bool_iff; lra.
Qed.

Lemma path_bounds_contain_path_witness :
  (bounds_x (getPathBounds chairOutline) <=? Fin 155) = true
  /\ (Fin 155 - bounds_x (getPathBounds chairOutline)
      <=? bounds_width (getPathBounds chairOutline)) = true.
Proof.
  destruct (path_bounds_contain_path chairOutline (point 155 95))
    as [H1 [H2 _]].
  - repeat constructor.
  - right. left. reflexivity.
  - split; [exact H1|exact H2].
Defined.

(** *** Ray casting *)

Lemma last_cons_default {A} (l : list A) (a d : A) :
  last (a :: l) d = last l a.
Proof.
  revert a d. induction l as [|b l IH]; intros a d; [reflexivity|].
  change (last (a :: b :: l) d) with (last (b :: l) d).
  rewrite (IH b d), (IH b a). reflexivity.
Qed.

Lemma last_Forall {A} (P : A -> Prop) (l : list A) (d : A) :
  P d -> Forall P l -> P (last l d).
Proof.
  intros Hd Hl. revert d Hd. induction Hl as [|a l Ha Hl IH]; intros d Hd.
  - exact Hd.
  - rewrite last_cons_default. apply IH, Ha.
Qed.

Section RayCast.
Variables x y : num.
Variable P : Point -> Prop.

(** No edge between points of [P] is crossed: the flag is unchanged. *)
Lemma rayCast_never :
  (forall p q, P p -> P q -> edgeCrossed x y p q = false) ->
  forall rest pj inside,
    P pj -> Forall P rest -> rayCast x y pj rest inside = inside.
Proof.
  intros Hnever rest. induction rest as [|p rest IH]; intros pj inside Hpj Hall.
  - reflexivity.
  - inversion Hall as [|? ? Hp Hrest]; subst. cbn [rayCast].
    rewrite (Hnever p pj Hp Hpj). apply IH; assumption.
Qed.

End RayCast.

(** Some edge is crossed when the loop changes the flag. *)
Lemma rayCast_crossed (x y : num) (rest : list Point) :
  forall pj inside,
    rayCast x y pj rest inside <> inside ->
    exists p q, In p (pj :: rest) /\ In q (pj :: rest)
                /\ edgeCrossed x y p q = true.
Proof.
  induction rest as [|pi rest IH]; intros pj inside H.
  - exfalso. apply H. reflexivity.
  - cbn [rayCast] in H. destruct (edgeCrossed x y pi pj) eqn:E.
    + exists pi, pj. split; [right; left; reflexivity|].
      split; [left; reflexivity|exact E].
    + destruct (IH pi inside H) as [p [q [Hp [Hq Hc]]]].
      exists p, q. split; [right; exact Hp|]. split; [right; exact Hq|exact Hc].
Qed.

Lemma last_In {A} (l : list A) (d : A) : l <> [] -> In (last l d) l.
Proof.
  induction l as [|a l IH]; [congruence|]. intros _.
  destruct l as [|b l]; [left; reflexivity|].
  right. apply IH. discriminate.
Qed.

(** The two end points of a crossed edge lie on different sides of the
    horizontal line through the point: the test [py > y] holds of one and
    fails of the other. *)
Lemma isPointInPath_sides (x y : num) (path : list Point) :
  isPointInPath x y path = true ->
  exists p q, In p path /\ In q path
              /\ (py p >? y) = false /\ (py q >? y) = true.
Proof.
  unfold isPointInPath. destruct (List.length path <? 3)%nat; [discriminate|].
  intro H.
  assert (Hne : path <> []) by (intros ->; discriminate H).
  destruct (rayCast_crossed x y path (last path origin) false)
    as [p [q [Hp [Hq Hc]]]]; [rewrite H; discriminate|].
  assert (Hp' : In p path)
    by (destruct Hp as [<-|Hp]; [apply last_In, Hne|exact Hp]).
  assert (Hq' : In q path)
    by (destruct Hq as [<-|Hq]; [apply last_In, Hne|exact Hq]).
  unfold edgeCrossed in Hc. apply andb_prop in Hc. destruct Hc as [Hc _].
  destruct (py p >? y) eqn:E1, (py q >? y) eqn:E2; try discriminate Hc.
  - exists q, p. repeat split; assumption.
  - exists p, q. repeat split; assumption.
Qed.

(** X12: a point that [isPointInPath] finds inside a path with finite
    coordinates has an ordinate that is at least the ordinate of one vertex
    of the path and less than the ordinate of another; it is at least the
    ordinate of the top border of the bounding box of the path, and exceeds
    it by no more than the height of the box. *)
Theorem point_in_path_between_vertices (x y : num) (path : list Point)
  (Hfinite : Forall finite_point path)
  (Hin : isPointInPath x y path = true) :
  let b := getPathBounds path in
  (exists p q, In p path /\ In q path
               /\ (py p <=? y) = true /\ (y <? py q) = true)
  /\ (bounds_y b <=? y) = true
  /\ (y - bounds_y b <=? bounds_height b) = true.
Proof.
  destruct (isPointInPath_sides x y path Hin)
    as [p [q [Hp [Hq [Ep Eq]]]]].
  assert (Hne : path <> []) by (intros ->; destruct Hp).
  destruct (getPathBounds_within path Hne Hfinite)
    as [lox [hix [loy [hiy [-> Hall]]]]].
  rewrite Forall_forall in Hall.
  destruct (Hall p Hp) as [a1 [b1 [E1 [_ Hb1]]]].
  destruct (Hall q Hq) as [a2 [b2 [E2 [_ Hb2]]]].
  subst p q. cbn [py] in Ep, Eq.
  destruct y as [qy| | |]; try discriminate Eq; try discriminate Ep.
  cbn [gt lt] in Ep, Eq. qhyps.
  cbv zeta. cbn [bounds_y bounds_height].
  split.
  - exists {| px := Fin a1; py := Fin b1 |}, {| px := Fin a2; py := Fin b2 |}.
    split; [exact Hp|]. split; [exact Hq|]. cbn [py le lt].
    split; [apply Qle_bool_iff; exact Ep|apply Qlt_bool_iff; exact Eq].
  - cbn. split; apply Qle_bool_iff; lra.
Qed.

Lemma point_in_path_between_vertices_witness :
  (bounds_y (getPathBounds chairOutline) <=? Fin 100) = true
  /\ (Fin 100 - bounds_y (getPathBounds chairOutline)
      <=? bounds_height (getPathBounds chairOutline)) = true.
Proof.
  destruct (point_in_path_between_vertices (Fin 100) (Fin 100) chairOutline)
    as [_ [H1 H2]].
  - repeat constructor.
  - reflexivity.
  - split; [exact H1|exact H2].
Defined.

(** *** Candidates below the outline *)

Lemma filter_none {A} (f : A -> bool) (l : list A) :
  (forall a, In a l -> f a = false) -> filter f l = [].
Proof.
  induction l as [|a l IH]; intro H; [reflexivity|].
  cbn [filter]. rewrite (H a (or_introl eq_refl)). apply IH.
  intros b Hb. apply H. right. exact Hb.
Qed.

(** No vertex has an ordinate greater than [y]: no edge is crossed on the
    horizontal line through [y], and no point of the line is inside. *)
Lemma isPointInPath_no_vertex_below (x y : num) (path : list Point) :
  Forall (fun q => (py q >? y) = false) path ->
  isPointInPath x y path = false.
Proof.
  intro Hall. unfold isPointInPath.
  destruct (List.length path <? 3)%nat; [reflexivity|].
  destruct path as [|p0 l]; [reflexivity|].
  apply (rayCast_never x y (fun q => (py q >? y) = false)).
  - intros p q Hp Hq. unfold edgeCrossed. rewrite Hp, Hq. reflexivity.
  - rewrite last_cons_default. inversion Hall; subst.
    apply last_Forall; assumption.
  - exact Hall.
Qed.

(** The sample ordinate [y + (height * j) / (samplePoints - 1)] is at least
    the ordinate of the top border of the box. *)
Lemma sample_not_before (o w : Q) (i : nat) :
  (0 <= w)%Q ->
  exists t, Fin o + (Fin w * of_nat i) / of_nat (samplePoints - 1) = Fin t
            /\ (o <= t)%Q.
Proof.
  intros Hw. unfold of_nat, samplePoints in *.
  cbn [mul div add Nat.sub].
  change (Qeq_bool (inject_Z (Z.of_nat 14)) 0) with false. cbv iota.
  eexists. split; [reflexivity|].
  set (k := inject_Z (Z.of_nat i)).
  assert (Hk0 : (0 <= k)%Q)
    by (unfold k; change 0%Q with (inject_Z 0); rewrite <- Zle_Qle; lia).
  change (inject_Z (Z.of_nat 14)) with 14%Q.
  set (u := (w * k / 14)%Q).
  assert (Eu : (u * 14 == w * k)%Q) by (unfold u; field).
  nra.
Qed.

Lemma not_gt_later (a : num) (o t : Q) :
  (a <=? Fin o) = true -> (o <= t)%Q -> (a >? Fin t) = false.
Proof.
  destruct a as [q| | |]; cbn [le gt lt]; try discriminate; try reflexivity.
  intros H Ht. qhyps. apply Qlt_bool_false_iff. lra.
Qed.

(** X13: a candidate lying below the outline on the screen, where ordinates
    grow downwards (no vertex of the path has an ordinate greater than that
    of the top border of its box), whose height is not negative, has none
    of its sample points and none of its corners inside the outline: its
    enclosure and containment factors are 0. *)
Theorem candidate_below_outline_scores_nothing (path : list Point)
  (obj : DetectedObject)
  (Hy : is_finite (y obj) = true) (Hfinite : is_finite (height obj) = true)
  (Hh : (Fin 0 <=? height obj) = true)
  (Hbelow : Forall (fun q => (py q <=? y obj) = true) path) :
  num_eq (calculateEnclosureScore path obj) (Fin 0)
  /\ num_eq (calculateContainmentScore path obj) (Fin 0).
Proof.
  apply is_finite_Fin in Hy, Hfinite.
  destruct Hy as [oy Ey], Hfinite as [oh Eh].
  rewrite Eh in Hh. cbn [le] in Hh. qhyps. rewrite Ey in Hbelow.
  assert (Hpt : forall (tx : num) (ty : Q),
            (oy <= ty)%Q -> isPointInPath tx (Fin ty) path = false).
  { intros tx ty Hty. apply isPointInPath_no_vertex_below.
    eapply Forall_impl; [|exact Hbelow]. intros q Hq.
    exact (not_gt_later _ oy ty Hq Hty). }
  split.
  - unfold calculateEnclosureScore. rewrite filter_none; [reflexivity|].
    intros ij _. rewrite Ey, Eh.
    destruct (sample_not_before oy oh (snd ij) Hh) as [ty [-> Hty]].
    apply Hpt. exact Hty.
  - unfold calculateContainmentScore. rewrite filter_none; [reflexivity|].
    unfold objCorners. rewrite Ey, Eh. cbn [add].
    intros c [<-|[<-|[<-|[<-|[]]]]]; cbn [px py]; apply Hpt; lra.
Qed.

Lemma candidate_below_outline_scores_nothing_witness :
  num_eq (calculateEnclosureScore smallOutline farLamp) (Fin 0)
  /\ num_eq (calculateContainmentScore smallOutline farLamp) (Fin 0).
Proof.
  apply (candidate_below_outline_scores_nothing smallOutline farLamp).
  - reflexivity.
  - reflexivity.
  - reflexivity.
  - repeat constructor.
Defined.

End GeometryFacts.

Module SuppressionFacts.

Import JS JSFacts PenSelector Samples Predicates NMSPredicates.
Import ResolverProofs.
Local Open Scope js_scope.

(** *** Sorting by a numeric key, descending *)

Section KeySort.
Variable A : Type.
Variable key : A -> num.

Lemma insert_sorted_key (a : A) (l : list A) :
  is_nan (key a) = false -> Forall (fun b => is_nan (key b) = false) l ->
  Sorted (fun b c => (key b >=? key c) = true) l ->
  Sorted (fun b c => (key b >=? key c) = true)
         (insert (fun b c => key c - key b) a l).
Proof.
  intros Ha Hl Hs. induction l as [|b l IH]; cbn [insert].
  - repeat constructor.
  - inversion Hl as [|? ? Hb Hl']; subst. inversion Hs as [|? ? Hs' Hhd]; subst.
    rewrite (sub_gt_0 _ _ Ha Hb).
    destruct (key a <? key b) eqn:Hlt.
    + constructor; [apply IH; assumption|].
      destruct l as [|c l]; cbn [insert].
      * constructor. apply lt_ge, Hlt.
      * destruct (key c - key a >? Fin 0).
        -- inversion Hhd; subst. constructor. assumption.
        -- constructor. apply lt_ge, Hlt.
    + constructor; [assumption|]. constructor.
      apply not_lt_ge; assumption.
Qed.

Lemma sort_sorted_key (l : list A) :
  Forall (fun b => is_nan (key b) = false) l ->
  StronglySorted (fun b c => (key b >=? key c) = true)
                 (sort (fun b c => key c - key b) l).
Proof.
  intro Hl. apply Sorted_StronglySorted.
  { intros a b c. apply ge_trans. }
  induction l as [|a l IH]; cbn [sort fold_right]; [constructor|].
  fold (sort (fun b c => key c - key b) l). inversion Hl; subst.
  apply insert_sorted_key; auto.
  eapply Permutation_Forall; [symmetry; apply sort_perm|assumption].
Qed.

End KeySort.

Lemma StronglySorted_remove {A} (R : A -> A -> Prop) (l1 l2 : list A) (a : A) :
  StronglySorted R (l1 ++ a :: l2) -> StronglySorted R (l1 ++ l2).
Proof.
  induction l1 as [|b l1 IH]; cbn [app]; intro H.
  - inversion H; assumption.
  - inversion H as [|? ? Hs Hall]; subst. constructor; [apply IH, Hs|].
    rewrite Forall_app in *. destruct Hall as [H1 H2].
    inversion H2; subst. split; assumption.
Qed.

Lemma StronglySorted_firstn {A} (R : A -> A -> Prop) (n : nat) (l : list A) :
  StronglySorted R l -> StronglySorted R (firstn n l).
Proof.
  intro H. revert n. induction H as [|a l Hs IH Hall]; intro n.
  - rewrite firstn_nil. constructor.
  - destruct n as [|n]; cbn [firstn]; constructor; [apply IH|].
    rewrite Forall_forall in *. intros b Hb. apply Hall.
    eapply In_firstn, Hb.
Qed.

Lemma ForallOrdPairs_snoc {A} (R : A -> A -> Prop) (l : list A) (a : A) :
  ForallOrdPairs R l -> Forall (fun b => R b a) l ->
  ForallOrdPairs R (l ++ [a]).
Proof.
  induction 1 as [|b l Hb Hl IH]; cbn [app]; intro Hall.
  - repeat constructor.
  - inversion Hall; subst. constructor; [|apply IH; assumption].
    apply Forall_app. split; [assumption|]. repeat constructor. assumption.
Qed.

Lemma ForallOrdPairs_firstn {A} (R : A -> A -> Prop) (n : nat) (l : list A) :
  ForallOrdPairs R l -> ForallOrdPairs R (firstn n l).
Proof.
  intro H. revert n. induction H as [|a l Ha Hl IH]; intro n.
  - rewrite firstn_nil. constructor.
  - destruct n as [|n]; cbn [firstn]; constructor; [|apply IH].
    rewrite Forall_forall in *. intros b Hb. apply Ha.
    eapply In_firstn, Hb.
Qed.

(** *** The suppression loop *)

Lemma shouldKeep_true (kept : list DetectedObject) (d : DetectedObject) :
  YOLOv8.shouldKeep kept d = true <-> Forall (fun k => compatible k d) kept.
Proof.
  unfold YOLOv8.shouldKeep, compatible. rewrite negb_true_iff.
  rewrite Forall_forall. split.
  - intros H k Hk.
    destruct (YOLOv8.calculateIoU d k >? YOLOv8.iouThreshold) eqn:E;
      [|reflexivity].
    assert (Hex : existsb
              (fun kept0 => YOLOv8.calculateIoU d kept0 >? YOLOv8.iouThreshold)
              kept = true)
      by (apply existsb_exists; exists k; split; assumption).
    congruence.
  - intro H. apply not_true_iff_false. intro Hex.
    apply existsb_exists in Hex. destruct Hex as [k [Hk E]].
    rewrite (H k Hk) in E. discriminate E.
Qed.

Lemma shouldKeep_false (kept : list DetectedObject) (d : DetectedObject) :
  YOLOv8.shouldKeep kept d = false ->
  exists k, In k kept
            /\ (YOLOv8.calculateIoU d k >? YOLOv8.iouThreshold) = true.
Proof.
  unfold YOLOv8.shouldKeep. rewrite negb_false_iff. apply existsb_exists.
Qed.

Lemma suppress_prefix (ds kept : list DetectedObject) :
  exists l, YOLOv8.suppress ds kept = kept ++ l.
Proof.
  revert kept. induction ds as [|d ds IH]; intro kept; cbn [YOLOv8.suppress].
  - exists []. symmetry. apply app_nil_r.
  - destruct (YOLOv8.shouldKeep kept d).
    + destruct (IH (kept ++ [d])) as [l ->]. exists (d :: l).
      rewrite <- app_assoc. reflexivity.
    + apply IH.
Qed.

Lemma suppress_In (ds kept : list DetectedObject) (d : DetectedObject) :
  In d (YOLOv8.suppress ds kept) -> In d kept \/ In d ds.
Proof.
  revert kept. induction ds as [|a ds IH]; intro kept; cbn [YOLOv8.suppress].
  - tauto.
  - destruct (YOLOv8.shouldKeep kept a); intro H; apply IH in H.
    + rewrite in_app_iff in H. cbn [In] in *. tauto.
    + cbn [In]. tauto.
Qed.

Lemma suppress_compatible (ds kept : list DetectedObject) :
  ForallOrdPairs compatible kept ->
  ForallOrdPairs compatible (YOLOv8.suppress ds kept).
Proof.
  revert kept. induction ds as [|d ds IH]; intros kept H;
    cbn [YOLOv8.suppress]; [exact H|].
  destruct (YOLOv8.shouldKeep kept d) eqn:E; [|apply IH, H].
  apply IH, ForallOrdPairs_snoc; [exact H|]. apply shouldKeep_true, E.
Qed.

Lemma suppress_maximal (ds kept : list DetectedObject) (d : DetectedObject) :
  In d ds ->
  In d (YOLOv8.suppress ds kept)
  \/ exists k, In k (YOLOv8.suppress ds kept)
               /\ (YOLOv8.calculateIoU d k >? YOLOv8.iouThreshold) = true.
Proof.
  revert kept. induction ds as [|a ds IH]; intros kept Hin; [destruct Hin|].
  cbn [YOLOv8.suppress]. destruct Hin as [->|Hin].
  - destruct (YOLOv8.shouldKeep kept d) eqn:E.
    + left. destruct (suppress_prefix ds (kept ++ [d])) as [l ->].
      rewrite !in_app_iff. cbn [In]. tauto.
    + right. destruct (shouldKeep_false kept d E) as [k [Hk Hi]].
      exists k. split; [|exact Hi].
      destruct (suppress_prefix ds kept) as [l ->]. apply in_or_app. tauto.
  - destruct (YOLOv8.shouldKeep kept a); apply IH, Hin.
Qed.

Lemma suppress_sorted (R : DetectedObject -> DetectedObject -> Prop)
  (ds kept : list DetectedObject) :
  StronglySorted R (kept ++ ds) -> StronglySorted R (YOLOv8.suppress ds kept).
Proof.
  revert kept. induction ds as [|d ds IH]; intros kept H;
    cbn [YOLOv8.suppress].
  - rewrite app_nil_r in H. exact H.
  - destruct (YOLOv8.shouldKeep kept d).
    + apply IH. rewrite <- app_assoc. exact H.
    + apply IH. eapply StronglySorted_remove, H.
Qed.

(** The loop of [yolo11-real.ts] is the loop of [yolo-detector.ts]. *)
Lemma suppress_same (ds kept : list DetectedObject) :
  YOLO11Real.suppress ds kept = YOLOv8.suppress ds kept.
Proof.
  revert kept. induction ds as [|d ds IH]; intro kept; [reflexivity|].
  cbn [YOLO11Real.suppress YOLOv8.suppress].
  change (YOLO11Real.shouldKeep kept d) with (YOLOv8.shouldKeep kept d).
  rewrite !IH. reflexivity.
Qed.

Lemma applyNMS_same (ds : list DetectedObject) :
  YOLO11Real.applyNMS ds = firstn 10 (YOLOv8.applyNMS ds).
Proof.
  unfold YOLO11Real.applyNMS, YOLOv8.applyNMS. rewrite suppress_same.
  reflexivity.
Qed.

(** X15: non-maximum suppression ([yolo11-real.ts]) returns at most ten of the
    detections it was given, and no detection it returns overlaps an
    earlier one with an intersection-over-union above 0.5. *)
Theorem nms_keeps_compatible_detections (detections : list DetectedObject) :
  let kept := YOLO11Real.applyNMS detections in
  (List.length kept <= 10)%nat
  /\ (forall d, In d kept -> In d detections)
  /\ ForallOrdPairs
       (fun a b =>
          (YOLO11Real.calculateIoU b a >? YOLO11Real.iouThreshold) = false)
       kept.
Proof.
  cbv zeta. rewrite applyNMS_same. split; [|split].
  - rewrite length_firstn. lia.
  - intros d Hd. apply In_firstn in Hd. unfold YOLOv8.applyNMS in Hd.
    apply suppress_In in Hd. destruct Hd as [[]|Hd].
    eapply Permutation_in; [apply sort_perm|exact Hd].
  - apply ForallOrdPairs_firstn. unfold YOLOv8.applyNMS.
    apply (suppress_compatible _ []). constructor.
Qed.

(** X16: non-maximum suppression ([yolo-detector.ts]) drops a detection only
    for a kept one: every detection is returned, or overlaps a returned
    detection with an intersection-over-union above 0.5. *)
Theorem nms_drops_only_overlapping (detections : list DetectedObject)
  (d : DetectedObject) (Hin : In d detections) :
  let kept := YOLOv8.applyNMS detections in
  (forall k, In k kept -> In k detections)
  /\ (In d kept
      \/ exists k, In k kept
           /\ (YOLOv8.calculateIoU d k >? YOLOv8.iouThreshold) = true).
Proof.
  cbv zeta. unfold YOLOv8.applyNMS. split.
  - intros k Hk. apply suppress_In in Hk. destruct Hk as [[]|Hk].
    eapply Permutation_in; [apply sort_perm|exact Hk].
  - apply suppress_maximal. eapply Permutation_in; [|exact Hin].
    symmetry. apply sort_perm.
Qed.

Lemma nms_drops_only_overlapping_witness :
  In googleTable (YOLOv8.applyNMS [googleTable; yoloTable])
  \/ exists k, In k (YOLOv8.applyNMS [googleTable; yoloTable])
       /\ (YOLOv8.calculateIoU googleTable k >? YOLOv8.iouThreshold) = true.
Proof.
  apply (nms_drops_only_overlapping [googleTable; yoloTable] googleTable).
  left. reflexivity.
Defined.

(** X17: when every confidence is a number, the detections come out of
    non-maximum suppression in descending order of confidence, and the
    first of them is a detection of the highest confidence of all. *)
Theorem nms_most_confident_first (detections : list DetectedObject)
  (Hnum : Forall numericConfidence detections) :
  StronglySorted confidenceGe (YOLOv8.applyNMS detections)
  /\ StronglySorted confidenceGe (YOLO11Real.applyNMS detections)
  /\ (detections <> [] ->
      exists top rest,
        YOLOv8.applyNMS detections = top :: rest
        /\ YOLO11Real.applyNMS detections = top :: firstn 9 rest
        /\ In top detections
        /\ Forall (confidenceGe top) detections).
Proof.
  assert (Hs : StronglySorted confidenceGe
                 (sort YOLOv8.byConfidenceDesc detections))
    by (apply (sort_sorted_key _ confidence), Hnum).
  assert (H8 : StronglySorted confidenceGe (YOLOv8.applyNMS detections))
    by (apply (suppress_sorted _ _ []), Hs).
  split; [exact H8|]. split.
  - rewrite applyNMS_same. apply StronglySorted_firstn, H8.
  - intro Hne. rewrite applyNMS_same. unfold YOLOv8.applyNMS in *.
    pose proof (sort_perm _ YOLOv8.byConfidenceDesc detections) as Hp.
    destruct (sort YOLOv8.byConfidenceDesc detections) as [|top sorted] eqn:E.
    { apply Permutation_nil in Hp. congruence. }
    cbn [YOLOv8.suppress YOLOv8.shouldKeep existsb negb app] in *.
    destruct (suppress_prefix sorted [top]) as [rest Er].
    rewrite Er in *. cbn [app firstn] in *. exists top, rest.
    split; [reflexivity|]. split; [reflexivity|]. split.
    + eapply Permutation_in; [exact Hp|]. left. reflexivity.
    + inversion Hs as [|? ? _ Hall]; subst.
      eapply Permutation_Forall; [exact Hp|]. constructor; [|exact Hall].
      unfold confidenceGe, ge.
      assert (Ht : numericConfidence top).
      { rewrite Forall_forall in Hnum. apply Hnum.
        eapply Permutation_in; [exact Hp|]. left. reflexivity. }
      unfold numericConfidence in Ht.
      destruct (confidence top); try discriminate Ht; try reflexivity.
      cbn [le]. apply Qle_bool_iff. lra.
Qed.

Lemma nms_most_confident_first_witness :
  StronglySorted confidenceGe (YOLOv8.applyNMS [smallDesk; yoloTable]).
Proof.
  apply (nms_most_confident_first [smallDesk; yoloTable]).
  repeat constructor.
Defined.

End SuppressionFacts.

Module VisionFilterFacts.

Import JS JSFacts PenSelector Samples Predicates GeometryPredicates.
Import MoreSamples FactorProofs IntervalFacts GeometryFacts.
Import GoogleVision.
Local Open Scope js_scope.

(** On a non-empty list of points the box of the drawing is the one
    [getPathBounds] of the pen selector computes. *)
Lemma calculatePathBounds_getPathBounds (pts : list Point) :
  pts <> [] -> calculatePathBounds pts = getPathBounds pts.
Proof. destruct pts; [congruence|reflexivity]. Qed.

Lemma pathBounds_proper (pts : list Point) :
  pts <> [] -> Forall finite_point pts ->
  proper_bounds (calculatePathBounds pts).
Proof.
  intros Hne Hall. rewrite (calculatePathBounds_getPathBounds pts Hne).
  destruct (getPathBounds_finite pts Hne Hall)
    as [bx [by_ [bw [bh [-> [Hw Hh]]]]]].
  unfold proper_bounds. cbn. repeat split; apply Qle_bool_iff; assumption.
Qed.

Lemma proper_bounds_Fin (b : Bounds) :
  proper_bounds b ->
  exists bx by_ bw bh,
    b = {| bounds_x := Fin bx; bounds_y := Fin by_;
           bounds_width := Fin bw; bounds_height := Fin bh |}
    /\ (0 <= bw)%Q /\ (0 <= bh)%Q.
Proof.
  destruct b as [bx by_ bw bh]. unfold proper_bounds. cbn.
  intros [Hx [Hy [Hw [Hh [Hw0 Hh0]]]]].
  destruct bx, by_, bw, bh; try discriminate. cbn [le] in *. qhyps.
  repeat eexists; assumption.
Qed.

(** The overlap ratio of an object with the box of the drawing, both with
    finite coordinates: the common area over the area of the object. *)
Lemma overlapRatio_proper (pathBounds : Bounds) (obj : VisionObject) :
  proper_bounds pathBounds -> proper_bounds (boundingBox obj) ->
  exists ov area : Q,
    overlapRatio pathBounds obj
    = (if Qlt_bool 0 area then Fin (ov / area) else Fin 0)
    /\ (0 <= ov <= area)%Q
    /\ bounds_width (boundingBox obj) * bounds_height (boundingBox obj)
       = Fin area
    /\ (insideBounds (boundingBox obj) pathBounds -> ov == area)%Q
    /\ (apartBounds (boundingBox obj) pathBounds -> ov == 0)%Q
    /\ ((bounds_width pathBounds <=? Fin 0) = true
        \/ (bounds_height pathBounds <=? Fin 0) = true -> ov == 0)%Q.
Proof.
  intros Hp Ho.
  destruct (proper_bounds_Fin _ Hp) as [px0 [py0 [pw [ph [-> [Hpw Hph]]]]]].
  destruct (proper_bounds_Fin _ Ho) as [ox [oy [ow [oh [Eo [How Hoh]]]]]].
  unfold overlapRatio, insideBounds, apartBounds. rewrite Eo.
  cbn [bounds_x bounds_y bounds_width bounds_height].
  destruct (overlap_extent ox ow px0 pw How Hpw)
    as [vx [-> [Hx0 [Hx1 [Hx2 [Hxs [Hxs' [_ Hxin]]]]]]]].
  destruct (overlap_extent oy oh py0 ph Hoh Hph)
    as [vy [-> [Hy0 [Hy1 [Hy2 [Hys [Hys' [_ Hyin]]]]]]]].
  cbn [mul gt lt add le]. exists (vx * vy)%Q, (ow * oh)%Q. split.
  - destruct (Qlt_bool 0 (ow * oh)) eqn:E; [|reflexivity]. qhyps.
    unfold div. destruct (Qeq_bool (ow * oh) 0) eqn:E0; [|reflexivity].
    qhyps. exfalso. lra.
  - split; [nra|]. split; [reflexivity|]. split; [|split].
    + intros [H1 [H2 [H3 H4]]]. qhyps.
      rewrite (Hxin H1 H2), (Hyin H3 H4). reflexivity.
    + intros [H|[H|[H|H]]]; qhyps.
      * rewrite (Hxs H). lra.
      * rewrite (Hxs' H). lra.
      * rewrite (Hys H). lra.
      * rewrite (Hys' H). lra.
    + intros [H|H]; qhyps.
      * assert (E : (vx == 0)%Q) by lra. rewrite E. lra.
      * assert (E : (vy == 0)%Q) by lra. rewrite E. lra.
Qed.

Lemma filter_with_points (objects : list VisionObject) (pts : list Point) :
  pts <> [] ->
  filterObjectsByDrawingPath objects {| points := Some pts |}
  = filter (intersects (calculatePathBounds pts)) objects.
Proof. destruct pts; [congruence|reflexivity]. Qed.

Lemma intersects_inside (pathBounds : Bounds) (obj : VisionObject) :
  proper_bounds pathBounds -> proper_bounds (boundingBox obj) ->
  (Fin 0 <? bounds_width (boundingBox obj)) = true ->
  (Fin 0 <? bounds_height (boundingBox obj)) = true ->
  insideBounds (boundingBox obj) pathBounds ->
  intersects pathBounds obj = true.
Proof.
  intros Hp Hbox Hw Hh Hinside. unfold intersects.
  destruct (overlapRatio_proper _ obj Hp Hbox)
    as [ov [area [-> [Hov [Ea [Hi _]]]]]].
  specialize (Hi Hinside).
  destruct (proper_bounds_Fin _ Hbox) as [ox [oy [ow [oh [Eo _]]]]].
  rewrite Eo in Ea, Hw, Hh. cbn in Ea, Hw, Hh. injection Ea as Ea. qhyps.
  assert (Hpos : (0 < area)%Q) by (subst area; nra).
  assert (E : Qlt_bool 0 area = true) by (apply Qlt_bool_iff; exact Hpos).
  rewrite E. unfold gt. cbn [lt]. apply Qlt_bool_iff.
  assert (Ed : (ov / area == 1)%Q) by (rewrite Hi; field; lra).
  rewrite Ed. reflexivity.
Qed.

Lemma intersects_off (pathBounds : Bounds) (obj : VisionObject) :
  proper_bounds pathBounds -> proper_bounds (boundingBox obj) ->
  (bounds_width (boundingBox obj) * bounds_height (boundingBox obj)
   <=? Fin 0) = true
  \/ apartBounds (boundingBox obj) pathBounds
  \/ (bounds_width pathBounds <=? Fin 0) = true
  \/ (bounds_height pathBounds <=? Fin 0) = true ->
  intersects pathBounds obj = false.
Proof.
  intros Hp Hbox Hoff. unfold intersects.
  destruct (overlapRatio_proper _ obj Hp Hbox)
    as [ov [area [-> [Hov [Ea [_ [Hapart Hflat]]]]]]].
  destruct (Qlt_bool 0 area) eqn:E; [|reflexivity]. qhyps.
  assert (Hz : (ov == 0)%Q).
  { destruct Hoff as [H|[H|H]].
    - rewrite Ea in H. cbn [le] in H. qhyps. exfalso. lra.
    - apply Hapart, H.
    - apply Hflat, H. }
  unfold gt. cbn [lt]. apply Qlt_bool_false_iff.
  assert (Ed : (ov / area == 0)%Q) by (rewrite Hz; field; lra).
  rewrite Ed. discriminate.
Qed.

(** X18: an object of positive area whose box lies in the box of the drawing
    passes the filter. *)
Theorem object_inside_drawing_is_kept (objects : list VisionObject)
  (pts : list Point) (obj : VisionObject)
  (Hne : pts <> []) (Hfinite : Forall finite_point pts)
  (Hin : In obj objects)
  (Hbox : proper_bounds (boundingBox obj))
  (Hw : (Fin 0 <? bounds_width (boundingBox obj)) = true)
  (Hh : (Fin 0 <? bounds_height (boundingBox obj)) = true)
  (Hinside : insideBounds (boundingBox obj) (calculatePathBounds pts)) :
  In obj (filterObjectsByDrawingPath objects {| points := Some pts |}).
Proof.
  rewrite (filter_with_points objects pts Hne). apply filter_In.
  split; [exact Hin|].
  apply intersects_inside; try assumption.
  apply pathBounds_proper; assumption.
Qed.

Lemma object_inside_drawing_is_kept_witness :
  In visionChair
     (filterObjectsByDrawingPath [visionLamp; visionChair]
        {| points := Some chairOutline |}).
Proof.
  apply object_inside_drawing_is_kept.
  - discriminate.
  - repeat constructor.
  - right. left. reflexivity.
  - repeat split.
  - reflexivity.
  - reflexivity.
  - repeat split.
Defined.

(** X19: an object without area, an object whose box lies apart from the box of
    the drawing, and every object when the drawing has no width or no
    height (a single point, a straight horizontal or vertical stroke) are
    filtered out. *)
Theorem object_off_drawing_is_dropped (objects : list VisionObject)
  (pts : list Point) (obj : VisionObject)
  (Hne : pts <> []) (Hfinite : Forall finite_point pts)
  (Hbox : proper_bounds (boundingBox obj))
  (Hoff : (bounds_width (boundingBox obj) * bounds_height (boundingBox obj)
           <=? Fin 0) = true
          \/ apartBounds (boundingBox obj) (calculatePathBounds pts)
          \/ (bounds_width (calculatePathBounds pts) <=? Fin 0) = true
          \/ (bounds_height (calculatePathBounds pts) <=? Fin 0) = true) :
  intersects (calculatePathBounds pts) obj = false
  /\ ~ In obj (filterObjectsByDrawingPath objects {| points := Some pts |}).
Proof.
  assert (H : intersects (calculatePathBounds pts) obj = false).
  { apply intersects_off; try assumption.
    apply pathBounds_proper; assumption. }
  split; [exact H|]. rewrite (filter_with_points objects pts Hne).
  intro Hin. apply filter_In in Hin. destruct Hin as [_ Hin]. congruence.
Qed.

Lemma object_off_drawing_is_dropped_witness :
  ~ In visionSpeck
       (filterObjectsByDrawingPath [visionSpeck; visionChair]
          {| points := Some chairOutline |}).
Proof.
  apply (object_off_drawing_is_dropped [visionSpeck; visionChair]
           chairOutline visionSpeck).
  - discriminate.
  - repeat constructor.
  - repeat split.
  - left. reflexivity.
Defined.

End VisionFilterFacts.

Module DetectorFilterFacts.

Import JS JSFacts PenSelector Samples Predicates GeometryPredicates.
Import MoreSamples FactorProofs VisionFilterFacts.
Import YOLOv8.
Local Open Scope js_scope.

(** The detection as the filter of the vision service sees an object. *)
Lemma overlapsPath_intersects (pathBounds : Bounds) (d : DetectedObject) :
  overlapsPath pathBounds d
  = GoogleVision.intersects pathBounds
      {| GoogleVision.name := name d;
         GoogleVision.confidence := confidence d;
         GoogleVision.boundingBox := boxOf d |}.
Proof. reflexivity. Qed.

(** The box of the drawing, scaled to an image of finite size, is the
    box of the scaled points. *)
Lemma calculatePathBounds_proper (points : list Point)
  (imageElement : ImageElement) :
  points <> [] -> Forall finite_point points ->
  is_finite (naturalWidth imageElement) = true ->
  is_finite (naturalHeight imageElement) = true ->
  proper_bounds (calculatePathBounds points imageElement).
Proof.
  intros Hne Hall Hw Hh.
  apply is_finite_Fin in Hw, Hh. destruct Hw as [w Ew], Hh as [h Eh].
  unfold calculatePathBounds. rewrite Ew, Eh.
  set (scaled := map (fun p => {| px := px p * (Fin w / Fin 800);
                                   py := py p * (Fin h / Fin 600) |})
                     points).
  change (proper_bounds (GoogleVision.calculatePathBounds scaled)).
  apply pathBounds_proper.
  - unfold scaled. destruct points; [congruence|discriminate].
  - unfold scaled. apply Forall_map. eapply Forall_impl; [|exact Hall].
    intros [a b] [Ha Hb]. cbn [px py] in *.
    apply is_finite_Fin in Ha, Hb. destruct Ha as [qa ->], Hb as [qb ->].
    split; reflexivity.
Qed.

(** X20: the filter of the browser detector: with a drawing of finite
    coordinates on an image of finite size, a detection of positive area
    whose box lies in the scaled box of the drawing is kept, and a
    detection without area, or lying apart from that box, is dropped, as
    is every detection when the box has no width or no height. *)
Theorem detector_filter_by_drawing (detections : list DetectedObject)
  (drawingPath : list Point) (imageElement : ImageElement)
  (d : DetectedObject)
  (Hne : drawingPath <> []) (Hfinite : Forall finite_point drawingPath)
  (Hwidth : is_finite (naturalWidth imageElement) = true)
  (Hheight : is_finite (naturalHeight imageElement) = true)
  (Hbox : proper_bounds (boxOf d)) :
  let pathBounds := calculatePathBounds drawingPath imageElement in
  ((Fin 0 <? width d) = true -> (Fin 0 <? height d) = true ->
   insideBounds (boxOf d) pathBounds -> In d detections ->
   In d (filterByDrawingPath detections drawingPath imageElement))
  /\ ((width d * height d <=? Fin 0) = true
      \/ apartBounds (boxOf d) pathBounds
      \/ (bounds_width pathBounds <=? Fin 0) = true
      \/ (bounds_height pathBounds <=? Fin 0) = true ->
      ~ In d (filterByDrawingPath detections drawingPath imageElement)).
Proof.
  cbv zeta.
  pose proof (calculatePathBounds_proper drawingPath imageElement Hne Hfinite
                Hwidth Hheight) as Hp.
  unfold filterByDrawingPath. split.
  - intros Hw Hh Hinside Hin. apply filter_In. split; [exact Hin|].
    rewrite overlapsPath_intersects. apply intersects_inside; assumption.
  - intros Hoff Hin. apply filter_In in Hin. destruct Hin as [_ Hin].
    rewrite overlapsPath_intersects in Hin.
    rewrite intersects_off in Hin; [discriminate Hin|exact Hp| |];
      assumption.
Qed.

(** The outline is drawn on the 800 x 600 canvas: on an image of twice
    that size the chair at (200, 200) lies in its scaled box, and the
    chair at (100, 100) does not. *)
Lemma detector_filter_by_drawing_witness :
  In (detection "chair" 0.9 200 200 100 160)
     (filterByDrawingPath [detection "chair" 0.9 200 200 100 160]
        chairOutline doubleSized)
  /\ filterByDrawingPath [chair] chairOutline doubleSized = [].
Proof.
  destruct (detector_filter_by_drawing
              [detection "chair" 0.9 200 200 100 160] chairOutline
              doubleSized (detection "chair" 0.9 200 200 100 160))
    as [Hkept _]; try reflexivity.
  - discriminate.
  - repeat constructor.
  - repeat split.
  - split; [|reflexivity].
    apply Hkept; try reflexivity.
    + repeat split.
    + left. reflexivity.
Defined.

End DetectorFilterFacts.

Module ImageDiffFacts.

Import Exc ImageDiff ImageDiffPredicates.
Local Open Scope nat_scope.

(** *** Stores and reads *)

Lemma set_length (buf : Buffer) (i : nat) (v : option Byte.byte) :
  List.length (set buf i v) = List.length buf.
Proof.
  revert i. induction buf as [|b buf IH]; intro i; [reflexivity|].
  destruct i as [|i]; cbn [set List.length]; [reflexivity|].
  rewrite IH. reflexivity.
Qed.

Lemma get_set_other (buf : Buffer) (i j : nat) (v : option Byte.byte) :
  j <> i -> get (set buf i v) j = get buf j.
Proof.
  unfold get. revert i j. induction buf as [|b buf IH]; intros i j Hne;
    [reflexivity|].
  destruct i as [|i], j as [|j]; cbn [set nth_error]; try reflexivity.
  - congruence.
  - apply IH. congruence.
Qed.

Lemma get_set_same (buf : Buffer) (i : nat) (v : option Byte.byte)
  (old : Byte.byte) :
  get buf i = Some old ->
  get (set buf i v) i = Some (match v with Some b => b | None => Byte.x00 end).
Proof.
  unfold get. revert i. induction buf as [|b buf IH]; intros i H.
  - destruct i; discriminate H.
  - destruct i as [|i]; cbn [set nth_error] in *; [reflexivity|].
    apply IH, H.
Qed.

Lemma black_length (buf : Buffer) (i : nat) :
  List.length (black buf i) = List.length buf.
Proof. unfold black. rewrite !set_length. reflexivity. Qed.

(** Three consecutive stores at [i], [i + 1], [i + 2]. *)
Lemma get_set3 (buf : Buffer) (i j : nat) (v0 v1 v2 : option Byte.byte)
  (old : Byte.byte) :
  get buf j = Some old ->
  get (set (set (set buf i v0) (i + 1) v1) (i + 2) v2) j
  = Some (if (j =? i)%nat
          then match v0 with Some b => b | None => Byte.x00 end
          else if (j =? i + 1)%nat
          then match v1 with Some b => b | None => Byte.x00 end
          else if (j =? i + 2)%nat
          then match v2 with Some b => b | None => Byte.x00 end
          else old).
Proof.
  intro H.
  destruct (Nat.eqb_spec j i) as [->|N0].
  - rewrite !get_set_other by lia. apply (get_set_same _ _ _ old H).
  - destruct (Nat.eqb_spec j (i + 1)) as [->|N1].
    + rewrite get_set_other by lia. apply (get_set_same _ _ _ old).
      rewrite get_set_other by lia. exact H.
    + destruct (Nat.eqb_spec j (i + 2)) as [->|N2].
      * apply (get_set_same _ _ _ old). rewrite !get_set_other by lia. exact H.
      * rewrite !get_set_other by lia. exact H.
Qed.

(** *** The loop over the pixels *)

Section Loop.
Variable body : nat -> nat -> Buffer -> Buffer.
(* what the body stores at [j] when it runs at [i], [maskIndex] *)
Variable pix : nat -> nat -> nat -> Byte.byte -> Byte.byte.

Hypothesis body_length :
  forall i mi buf, List.length (body i mi buf) = List.length buf.
Hypothesis body_other :
  forall i mi buf j, j < i \/ i + 3 <= j -> get (body i mi buf) j = get buf j.
Hypothesis body_pixel :
  forall i mi buf j old, i <= j < i + 3 -> get buf j = Some old ->
    get (body i mi buf) j = Some (pix i mi j old).

Lemma forPixels_length (len fuel i mi : nat) (buf : Buffer) :
  List.length (forPixels body len fuel i mi buf) = List.length buf.
Proof.
  revert i mi buf. induction fuel as [|fuel IH]; intros i mi buf;
    cbn [forPixels]; [reflexivity|].
  destruct (i <? len)%nat; [|reflexivity].
  rewrite IH. apply body_length.
Qed.

Lemma forPixels_get (fuel i mi : nat) (buf : Buffer) (j : nat)
  (old : Byte.byte) :
  List.length buf <= i + 3 * fuel -> i = 3 * mi ->
  get buf j = Some old ->
  get (forPixels body (List.length buf) fuel i mi buf) j
  = Some (if (i <=? j)%nat then pix (3 * (j / 3)) (j / 3) j old else old).
Proof.
  revert i mi buf old. induction fuel as [|fuel IH];
    intros i mi buf old Hfuel Hi Hj; cbn [forPixels].
  - assert (Hlt : j < List.length buf)
      by (apply nth_error_Some; unfold get in Hj; congruence).
    destruct (Nat.leb_spec i j); [lia|exact Hj].
  - assert (Hlt : j < List.length buf)
      by (apply nth_error_Some; unfold get in Hj; congruence).
    destruct (Nat.ltb_spec i (List.length buf)) as [Hil|Hil].
    + rewrite <- (body_length i mi buf).
      destruct (Nat.leb_spec i j) as [Hij|Hij].
      * destruct (Nat.lt_ge_cases j (i + 3)) as [Hj3|Hj3].
        -- rewrite (IH (i + 3) (mi + 1) _ (pix i mi j old)).
           ++ destruct (Nat.leb_spec (i + 3) j); [lia|].
              assert (Ediv : j / 3 = mi)
                by (symmetry; apply (Nat.div_unique j 3 mi (j - 3 * mi)); lia).
              rewrite Ediv, <- Hi. reflexivity.
           ++ rewrite body_length. lia.
           ++ lia.
           ++ apply body_pixel; [lia|exact Hj].
        -- rewrite (IH (i + 3) (mi + 1) _ old).
           ++ destruct (Nat.leb_spec (i + 3) j); [reflexivity|lia].
           ++ rewrite body_length. lia.
           ++ lia.
           ++ rewrite body_other by lia. exact Hj.
      * rewrite (IH (i + 3) (mi + 1) _ old).
        -- destruct (Nat.leb_spec (i + 3) j); [lia|reflexivity].
        -- rewrite body_length. lia.
        -- lia.
        -- rewrite body_other by lia. exact Hj.
    + destruct (Nat.leb_spec i j); [lia|exact Hj].
Qed.

End Loop.

(** *** The two bodies *)

Lemma diffPixel_length (o g : Buffer) (i mi : nat) (buf : Buffer) :
  List.length (diffPixel o g i mi buf) = List.length buf.
Proof.
  unfold diffPixel. destruct (exceeds _); [|apply black_length].
  rewrite !set_length. reflexivity.
Qed.

Lemma diffPixel_other (o g : Buffer) (i mi : nat) (buf : Buffer) (j : nat) :
  j < i \/ i + 3 <= j -> get (diffPixel o g i mi buf) j = get buf j.
Proof.
  intro H. unfold diffPixel, black.
  destruct (exceeds _); rewrite !get_set_other by lia; reflexivity.
Qed.

Lemma diffPixel_pixel (o g : Buffer) (i mi : nat) (buf : Buffer) (j : nat)
  (old : Byte.byte) :
  i <= j < i + 3 -> get buf j = Some old ->
  get (diffPixel o g i mi buf) j
  = Some (if exceeds (totalDiff o g i)
          then match get g j with Some b => b | None => Byte.x00 end
          else Byte.x00).
Proof.
  intros Hj Hold. unfold diffPixel, black.
  destruct (exceeds _); rewrite (get_set3 _ _ _ _ _ _ old Hold).
  - destruct (Nat.eqb_spec j i) as [->|N0]; [reflexivity|].
    destruct (Nat.eqb_spec j (i + 1)) as [->|N1]; [reflexivity|].
    destruct (Nat.eqb_spec j (i + 2)) as [->|N2]; [reflexivity|lia].
  - destruct (Nat.eqb_spec j i) as [->|N0]; [reflexivity|].
    destruct (Nat.eqb_spec j (i + 1)) as [->|N1]; [reflexivity|].
    destruct (Nat.eqb_spec j (i + 2)) as [->|N2]; [reflexivity|lia].
Qed.

Lemma maskPixel_length (m : Buffer) (i mi : nat) (buf : Buffer) :
  List.length (maskPixel m i mi buf) = List.length buf.
Proof.
  unfold maskPixel. destruct (masked _ _); [apply black_length|reflexivity].
Qed.

Lemma maskPixel_other (m : Buffer) (i mi : nat) (buf : Buffer) (j : nat) :
  j < i \/ i + 3 <= j -> get (maskPixel m i mi buf) j = get buf j.
Proof.
  intro H. unfold maskPixel, black.
  destruct (masked _ _); [|reflexivity].
  rewrite !get_set_other by lia. reflexivity.
Qed.

Lemma maskPixel_pixel (m : Buffer) (i mi : nat) (buf : Buffer) (j : nat)
  (old : Byte.byte) :
  i <= j < i + 3 -> get buf j = Some old ->
  get (maskPixel m i mi buf) j
  = Some (if masked m mi then Byte.x00 else old).
Proof.
  intros Hj Hold. unfold maskPixel, black.
  destruct (masked _ _); [|exact Hold].
  rewrite (get_set3 _ _ _ _ _ _ old Hold).
  destruct (Nat.eqb_spec j i) as [->|N0]; [reflexivity|].
  destruct (Nat.eqb_spec j (i + 1)) as [->|N1]; [reflexivity|].
  destruct (Nat.eqb_spec j (i + 2)) as [->|N2]; [reflexivity|lia].
Qed.

Lemma get_alloc (n j : nat) : j < n -> get (alloc n) j = Some Byte.x00.
Proof.
  intro H. unfold get, alloc. rewrite nth_error_repeat by exact H. reflexivity.
Qed.

Lemma get_lt (buf : Buffer) (j : nat) (b : Byte.byte) :
  get buf j = Some b -> j < List.length buf.
Proof. intro H. apply nth_error_Some. unfold get in H. congruence. Qed.

Lemma lt_get (buf : Buffer) (j : nat) :
  j < List.length buf -> exists b, get buf j = Some b.
Proof.
  intro H. unfold get. destruct (nth_error buf j) as [b|] eqn:E; [eauto|].
  apply nth_error_None in E. lia.
Qed.

(** A buffer all of whose samples are 0 is the freshly allocated one. *)
Lemma all_black (buf : Buffer) :
  (forall j b, get buf j = Some b -> b = Byte.x00) ->
  buf = alloc (List.length buf).
Proof.
  induction buf as [|b buf IH]; intro H; [reflexivity|].
  cbn [List.length alloc repeat]. f_equal.
  - apply (H 0). reflexivity.
  - apply IH. intros j c Hc. apply (H (S j)). exact Hc.
Qed.

Lemma thresholdLoop_length (o g : Buffer) :
  List.length (thresholdLoop o g) = List.length o.
Proof.
  unfold thresholdLoop. rewrite forPixels_length.
  - apply repeat_length.
  - intros. apply diffPixel_length.
Qed.

Lemma thresholdLoop_get (o g : Buffer) (j : nat) :
  j < List.length o ->
  get (thresholdLoop o g) j = Some (differenceSample o g j).
Proof.
  intro Hj. unfold thresholdLoop, differenceSample.
  pose proof (forPixels_get (diffPixel o g)
                (fun i _ j _ =>
                   if exceeds (totalDiff o g i)
                   then match get g j with Some b => b | None => Byte.x00 end
                   else Byte.x00)
                (diffPixel_length o g) (diffPixel_other o g)
                (diffPixel_pixel o g)
                (List.length o) 0 0 (alloc (List.length o)) j Byte.x00) as H.
  replace (List.length (alloc (List.length o))) with (List.length o) in H
    by (symmetry; apply repeat_length).
  rewrite H; [reflexivity|lia|reflexivity|apply get_alloc, Hj].
Qed.

Lemma maskLoop_length (m d : Buffer) :
  List.length (maskLoop m d) = List.length d.
Proof.
  unfold maskLoop. apply forPixels_length. intros. apply maskPixel_length.
Qed.

Lemma maskLoop_get (m d : Buffer) (j : nat) (old : Byte.byte) :
  get d j = Some old -> get (maskLoop m d) j = Some (maskedSample m j old).
Proof.
  intro Hj. unfold maskLoop, maskedSample.
  rewrite (forPixels_get (maskPixel m)
             (fun _ mi _ old => if masked m mi then Byte.x00 else old)
             (maskPixel_length m) (maskPixel_other m) (maskPixel_pixel m)
             (List.length d) 0 0 d j old); [reflexivity|lia|reflexivity|exact Hj].
Qed.

(** Two reads of the same sample never differ. *)
Lemma totalDiff_same (o : Buffer) (i : nat) : exceeds (totalDiff o o i) = false.
Proof.
  unfold totalDiff, absDiff.
  destruct (get o i), (get o (i + 1)), (get o (i + 2)); cbn [plus exceeds];
    try reflexivity.
  rewrite !Z.sub_diag. reflexivity.
Qed.

Lemma thresholdLoop_black (o g : Buffer) :
  (forall i, exceeds (totalDiff o g i) = false) ->
  thresholdLoop o g = alloc (List.length o).
Proof.
  intro H. rewrite <- (thresholdLoop_length o g). apply all_black.
  intros j b Hb. pose proof (get_lt _ _ _ Hb) as Hj.
  rewrite thresholdLoop_length in Hj. rewrite (thresholdLoop_get o g j Hj) in Hb.
  injection Hb as <-. unfold differenceSample. rewrite H. reflexivity.
Qed.

Lemma maskLoop_black (m : Buffer) (n : nat) : maskLoop m (alloc n) = alloc n.
Proof.
  rewrite <- (repeat_length Byte.x00 n) at 2. fold (alloc n).
  rewrite <- (maskLoop_length m (alloc n)). apply all_black.
  intros j b Hb. pose proof (get_lt _ _ _ Hb) as Hj.
  rewrite maskLoop_length in Hj. unfold alloc in Hj. rewrite repeat_length in Hj.
  rewrite (maskLoop_get m (alloc n) j Byte.x00 (get_alloc n j Hj)) in Hb.
  injection Hb as <-. unfold maskedSample. destruct (masked _ _); reflexivity.
Qed.

(** *** The properties *)

(** X21: the difference buffer has the length of the original data, and each of
    its samples is 0 or the sample of the generated image at the same
    index: the generated one exactly when the three colour differences of
    its pixel add up to more than 30. *)
Theorem difference_buffer_samples (originalData generatedData : Buffer) :
  List.length (thresholdLoop originalData generatedData)
  = List.length originalData
  /\ forall j, j < List.length originalData ->
       get (thresholdLoop originalData generatedData) j
       = Some (differenceSample originalData generatedData j)
       /\ (differenceSample originalData generatedData j = Byte.x00
           \/ get generatedData j
              = Some (differenceSample originalData generatedData j)).
Proof.
  split; [apply thresholdLoop_length|]. intros j Hj.
  split; [apply thresholdLoop_get, Hj|].
  unfold differenceSample. destruct (exceeds _); [|left; reflexivity].
  destruct (get generatedData j); [right|left]; reflexivity.
Qed.

(** X22: where no pixel differs by more than the threshold, the difference
    buffer is all zero; so it is for two equal images. *)
Theorem no_change_no_difference (originalData generatedData : Buffer)
  (Hclose : forall i,
     exceeds (totalDiff originalData generatedData i) = false) :
  thresholdLoop originalData generatedData
  = alloc (List.length originalData)
  /\ thresholdLoop originalData originalData
     = alloc (List.length originalData).
Proof.
  split; apply thresholdLoop_black; [exact Hclose|apply totalDiff_same].
Qed.

Lemma no_change_no_difference_witness :
  thresholdLoop MoreSamples.twoPixels MoreSamples.twoPixels
  = alloc (List.length MoreSamples.twoPixels).
Proof.
  apply (no_change_no_difference MoreSamples.twoPixels MoreSamples.twoPixels).
  apply totalDiff_same.
Defined.

(** X23: the mask loop keeps the length of the buffer, blackens the three
    samples of every pixel whose mask sample is below 128 and leaves the
    other samples as they were (also those of pixels the mask buffer does
    not reach). *)
Theorem mask_loop_samples (maskBuffer diffBuffer : Buffer) :
  List.length (maskLoop maskBuffer diffBuffer) = List.length diffBuffer
  /\ forall j old, get diffBuffer j = Some old ->
       get (maskLoop maskBuffer diffBuffer) j
       = Some (if masked maskBuffer (j / 3) then Byte.x00 else old).
Proof.
  split; [apply maskLoop_length|]. intros j old H.
  apply (maskLoop_get maskBuffer diffBuffer j old H).
Qed.

(** X24: two images that decode to the same raw data give the encoding of an
    all-zero buffer, with or without a mask. *)
Theorem identical_images_have_no_difference (lib : RawLib)
  (originalBase64 generatedBase64 : string) (segmentationMask : list JS.num)
  (data : Buffer) (info info' : Z * Z)
  (Horiginal : rawResized lib originalBase64 = Ok (data, info))
  (Hgenerated : rawResized lib generatedBase64 = Ok (data, info'))
  (Hmask :
     segmentationMask = []
     \/ exists maskBuffer,
          rawMask lib
            (GrokImageService.createSegmentationMaskSVG segmentationMask
               (JS.Fin 1024) (JS.Fin 1024)) = Ok maskBuffer) :
  extractImageDifferences lib originalBase64 generatedBase64 segmentationMask
  = encoded lib (alloc (List.length data)) info.
Proof.
  unfold extractImageDifferences, encoded.
  rewrite Horiginal, Hgenerated. cbn [bind fst snd].
  rewrite (thresholdLoop_black data data (totalDiff_same data)).
  destruct Hmask as [->|[maskBuffer Hm]].
  - cbn [bind]. destruct (pngBase64 lib _ _); reflexivity.
  - destruct segmentationMask as [|c rest].
    + cbn [bind]. destruct (pngBase64 lib _ _); reflexivity.
    + rewrite Hm. cbn [bind]. rewrite maskLoop_black.
      destruct (pngBase64 lib _ _); reflexivity.
Qed.

Lemma identical_images_have_no_difference_witness :
  extractImageDifferences MoreSamples.constantLib "b3JpZw==" "Z2Vu"
    [JS.Fin 0; JS.Fin 0; JS.Fin 1; JS.Fin 0; JS.Fin 1; JS.Fin 1]
  = encoded MoreSamples.constantLib (alloc 6) (2, 1)%Z.
Proof.
  apply (identical_images_have_no_difference MoreSamples.constantLib
           "b3JpZw==" "Z2Vu" _ MoreSamples.twoPixels (2, 1)%Z (2, 1)%Z).
  - reflexivity.
  - reflexivity.
  - right. exists MoreSamples.halfMask. reflexivity.
Defined.

(** A changed pixel is copied from the generated image and an unchanged
    one is blackened; the mask then blackens what it does not cover. *)
Example difference_of_two_pixels :
  thresholdLoop MoreSamples.twoPixels MoreSamples.twoPixelsChanged
  = [Byte.x00; Byte.x00; Byte.x00; Byte.x00; Byte.x00; Byte.x80]
  /\ maskLoop [Byte.x00; Byte.xff] MoreSamples.twoPixelsChanged
     = [Byte.x00; Byte.x00; Byte.x00; Byte.x00; Byte.x00; Byte.x80].
Proof. split; reflexivity. Qed.

End ImageDiffFacts.

Module WorkflowFacts.

Import JS JSFacts Exc GrokImageService ReferenceLib ServiceSamples.
Import ReplaceObject.
Local Open Scope js_scope.

(** *** [replaceObject] *)

Lemma replaceObject_cases
  (cropObjectFromImage : string -> list num -> CropResult)
  (placeGeneratedObjectWithMask :
     string -> option string -> list num -> option BoundingBox
     -> exc (option string))
  (imageUrl : string) (segmentationMask : list num)
  (replacementPrompt : string) :
  let cropResult := cropObjectFromImage imageUrl segmentationMask in
  let r := replaceObject cropObjectFromImage placeGeneratedObjectWithMask
             imageUrl segmentationMask replacementPrompt in
  let t := replaceObjectTs cropObjectFromImage
             imageUrl segmentationMask replacementPrompt in
  ro_success r = false /\ ro_finalImageBase64 r = None
  /\ ro_success t = false /\ ro_finalImageBase64 t = None
  /\ (if crop_success cropResult && present (croppedImageBase64 cropResult)
      then ro_error r
           = Some "Generation failed: This method is deprecated. Use replaceObjectWithSceneDiff instead."
           /\ ro_error t
              = Some "This method is deprecated. Use replaceObjectWithSceneDiff instead."
      else ro_error r
           = Some ("Cropping failed: " ++ show (crop_error cropResult))%string
           /\ ro_error t = ro_error r).
Proof.
  cbv zeta. unfold replaceObject, replaceObjectTs.
  destruct (crop_success (cropObjectFromImage imageUrl segmentationMask));
    destruct (present (croppedImageBase64
                         (cropObjectFromImage imageUrl segmentationMask)));
    cbn; repeat split; reflexivity.
Qed.

(** X25: the deprecated workflow never succeeds and never returns an image:
    it reports the failed crop or, after a successful crop, that it is
    deprecated; the placement is never reached.  This holds for the bundled
    and for the TypeScript version. *)
Theorem replaceObject_never_succeeds
  (cropObjectFromImage : string -> list num -> CropResult)
  (placeGeneratedObjectWithMask :
     string -> option string -> list num -> option BoundingBox
     -> exc (option string))
  (imageUrl : string) (segmentationMask : list num)
  (replacementPrompt : string) :
  let cropResult := cropObjectFromImage imageUrl segmentationMask in
  let r := replaceObject cropObjectFromImage placeGeneratedObjectWithMask
             imageUrl segmentationMask replacementPrompt in
  let t := replaceObjectTs cropObjectFromImage
             imageUrl segmentationMask replacementPrompt in
  ro_success r = false /\ ro_finalImageBase64 r = None
  /\ ro_success t = false /\ ro_finalImageBase64 t = None
  /\ (if crop_success cropResult && present (croppedImageBase64 cropResult)
      then ro_error r
           = Some "Generation failed: This method is deprecated. Use replaceObjectWithSceneDiff instead."
           /\ ro_error t
              = Some "This method is deprecated. Use replaceObjectWithSceneDiff instead."
      else ro_error r
           = Some ("Cropping failed: " ++ show (crop_error cropResult))%string
           /\ ro_error t = ro_error r).
Proof.
  apply replaceObject_cases.
Qed.

(** *** [replaceObjectWithSceneDiff] *)

(** X26: the scene workflow returns all of its images or none: a success
    carries the final image, the two scenes and the differences and no
    error; a failure carries an error and nothing else. *)
Theorem scene_workflow_all_or_nothing (Buffer : Type) (lib : ImageLib Buffer)
  (extractImageDifferences : string -> string -> list num -> DiffResult)
  (imageUrl : string) (segmentationMask : list num)
  (replacementPrompt objectName : string) :
  let r := replaceObjectWithSceneDiff lib extractImageDifferences
             imageUrl segmentationMask replacementPrompt objectName in
  (success r = true /\ error r = None
   /\ exists final original generated difference,
        finalImageBase64 r = Some final /\ originalScene r = Some original
        /\ generatedScene r = Some generated /\ generated <> ""
        /\ extractedDifferences r = Some difference /\ difference <> "")
  \/ (success r = false /\ (exists message, error r = Some message)
      /\ finalImageBase64 r = None /\ originalScene r = None
      /\ generatedScene r = None /\ extractedDifferences r = None
      /\ revisedPrompt r = None).
Proof.
  cbv zeta. unfold replaceObjectWithSceneDiff.
  assert (Hfail : forall message,
            let r := sceneDiffFailure message in
            success r = false /\ (exists m, error r = Some m)
            /\ finalImageBase64 r = None /\ originalScene r = None
            /\ generatedScene r = None /\ extractedDifferences r = None
            /\ revisedPrompt r = None).
  { intro message. cbn. repeat split. eexists. reflexivity. }
  assert (Hpresent : forall s v,
            (if present s then s else None) = Some v -> v <> "").
  { intros [s|] v; cbn; [|discriminate].
    destruct (String.eqb_spec s ""); cbn; [discriminate|]. congruence. }
  destruct (fetch lib imageUrl) as [originalBuffer|m]; cbn [bind];
    [|right; apply Hfail].
  match goal with
  | |- context [generateSceneReplacement lib ?req] =>
      set (sceneResult := generateSceneReplacement lib req)
  end.
  destruct (if scene_success sceneResult
            then if present (generatedImageBase64 sceneResult)
                 then generatedImageBase64 sceneResult else None
            else None) as [generated|] eqn:Eg; [|right; apply Hfail].
  match goal with
  | |- context [extractImageDifferences ?a ?b ?c] =>
      set (diffResult := extractImageDifferences a b c)
  end.
  destruct (if diff_success diffResult
            then if present (differenceImageBase64 diffResult)
                 then differenceImageBase64 diffResult else None
            else None) as [difference|] eqn:Ed; [|right; apply Hfail].
  destruct (composite lib _ _ _) as [finalImage|m]; cbn [bind];
    [|right; apply Hfail].
  left. cbn. split; [reflexivity|]. split; [reflexivity|].
  do 4 eexists. repeat split.
  - destruct (scene_success sceneResult); [|discriminate].
    apply (Hpresent _ _ Eg).
  - destruct (diff_success diffResult); [|discriminate].
    apply (Hpresent _ _ Ed).
Qed.

(** *** [cropObjectFromImage] on a mask without full pairs *)

Lemma splitCoords_odd (points : list num) :
  Nat.odd (List.length points) = true ->
  exists ys, snd (splitCoords points) = ys ++ [NaN].
Proof.
  assert (H : forall n (points : list num), (List.length points <= n)%nat ->
            Nat.odd (List.length points) = true ->
            exists ys, snd (splitCoords points) = ys ++ [NaN]).
  { induction n as [|n IH]; intros l Hlen Hodd.
    - destruct l; [discriminate Hodd|cbn in Hlen; lia].
    - destruct l as [|a [|b rest]].
      + discriminate Hodd.
      + exists []. reflexivity.
      + cbn [splitCoords]. destruct (IH rest) as [ys Hys].
        * cbn in Hlen. lia.
        * cbn [List.length] in Hodd. rewrite Nat.odd_succ_succ in Hodd.
          exact Hodd.
        * destruct (splitCoords rest) as [xs ys0]. cbn [snd] in *.
          exists (b :: ys). rewrite Hys. reflexivity. }
  intro Hodd. apply (H (List.length points) points (le_n _) Hodd).
Qed.

Lemma min_list_NaN (ys : list num) : Math_min_list (ys ++ [NaN]) = NaN.
Proof.
  unfold Math_min_list. rewrite fold_left_app. cbn [fold_left].
  unfold Math_min. rewrite orb_true_r. reflexivity.
Qed.

Lemma max_list_NaN (ys : list num) : Math_max_list (ys ++ [NaN]) = NaN.
Proof.
  unfold Math_max_list. rewrite fold_left_app. cbn [fold_left].
  unfold Math_max. rewrite orb_true_r. reflexivity.
Qed.

Lemma crop_extent_without_pairs (points : list num) (w h : Z) :
  points = [] \/ Nat.odd (List.length points) = true ->
  (cropWidth (cropBounds points (of_Z w) (of_Z h)) >? Fin 0) = false
  \/ (cropHeight (cropBounds points (of_Z w) (of_Z h)) >? Fin 0) = false.
Proof.
  intros [->|Hodd].
  - left. reflexivity.
  - right. destruct (splitCoords_odd points Hodd) as [ys Hys].
    unfold cropHeight, cropBounds. destruct (splitCoords points) as [xs ys0].
    cbn [snd] in Hys. subst ys0. cbn [minY maxY].
    rewrite min_list_NaN, max_list_NaN. reflexivity.
Qed.

(** X27: with an empty mask, or one holding an odd number of coordinates, the
    crop fails whatever the image is: the rectangle has no positive extent
    ([-Infinity], or [NaN] for the coordinate without partner), and the
    library refuses it. *)
Theorem crop_needs_coordinate_pairs (Buffer : Type) (lib : ImageLib Buffer)
  (Hrej : rejects_empty_area lib)
  (imageUrl : string) (points : list num)
  (Hpoints : points = [] \/ Nat.odd (List.length points) = true) :
  let r := cropObjectFromImage lib imageUrl points in
  crop_success r = false /\ croppedImageBase64 r = None
  /\ boundingBox r = None /\ exists message, crop_error r = Some message.
Proof.
  cbv zeta. unfold cropObjectFromImage.
  assert (Hfail : forall message,
            let r := cropFailure message in
            crop_success r = false /\ croppedImageBase64 r = None
            /\ boundingBox r = None /\ exists m, crop_error r = Some m).
  { intro message. cbn. repeat split. eexists. reflexivity. }
  destruct (fetch lib imageUrl) as [imageBuffer|m]; cbn [bind];
    [|apply Hfail].
  destruct (metadata lib imageBuffer) as [dims|m]; cbn [bind];
    [|apply Hfail].
  destruct (dimension (fst dims)) as [imgWidth|]; [|apply Hfail].
  destruct (dimension (snd dims)) as [imgHeight|]; [|apply Hfail].
  destruct (composite lib _ _ _) as [maskedImage|m]; cbn [bind];
    [|apply Hfail].
  destruct (Hrej maskedImage
              (minX (cropBounds points (of_Z imgWidth) (of_Z imgHeight)))
              (minY (cropBounds points (of_Z imgWidth) (of_Z imgHeight)))
              _ _ (crop_extent_without_pairs points imgWidth imgHeight Hpoints))
    as [message ->].
  cbn [bind]. apply Hfail.
Qed.

Lemma crop_needs_coordinate_pairs_witness :
  crop_success (cropObjectFromImage failingGenerator "image.png"
                  (coords [10; 10; 50; 10; 50])) = false.
Proof.
  apply (crop_needs_coordinate_pairs _ failingGenerator).
  - apply ServiceProofs.reference_rejects_empty.
  - right. reflexivity.
Defined.

End WorkflowFacts.

Module RouteFacts.

Import JS Exc GrokRoutes GrokReplacementService GrokReplacementClient.
Import MoreSamples.
Local Open Scope nat_scope.

(** *** The generation route *)

Lemma generateReplacementRoute_cases (importService : exc unit)
  (notAFunction : string)
  (croppedObjectImage replacementPrompt originalImageUrl : option string) :
  let r := generateReplacementRoute importService notAFunction
             croppedObjectImage replacementPrompt originalImageUrl in
  (status r = 400 \/ status r = 500)
  /\ gj_success (json r) = false
  /\ gj_generatedImageBase64 (json r) = None
  /\ (status r = 400
      <-> GrokImageService.present croppedObjectImage
          && GrokImageService.present replacementPrompt = false).
Proof.
  cbv zeta. unfold generateReplacementRoute, generateReplacement.
  destruct croppedObjectImage as [c|], replacementPrompt as [p|];
    try (cbn; repeat split; auto; fail).
  - destruct (GrokImageService.present (Some c)
              && GrokImageService.present (Some p)) eqn:E.
    + destruct importService as [[]|m]; cbn;
        (repeat split; auto; discriminate).
    + cbn. repeat split; auto.
  - cbn. rewrite andb_false_r. repeat split; auto.
Qed.

(** X28: the generation route never answers with a success: the answer is 400
    when the image or the prompt is missing or empty, and 500 otherwise,
    the service having no method [generateReplacement]; in both cases the
    body says [success: false] and carries no image. *)
Theorem generation_route_never_succeeds (importService : exc unit)
  (notAFunction : string)
  (croppedObjectImage replacementPrompt originalImageUrl : option string) :
  let r := generateReplacementRoute importService notAFunction
             croppedObjectImage replacementPrompt originalImageUrl in
  (status r = 400 \/ status r = 500)
  /\ gj_success (json r) = false
  /\ gj_generatedImageBase64 (json r) = None
  /\ (status r = 400
      <-> GrokImageService.present croppedObjectImage
          && GrokImageService.present replacementPrompt = false).
Proof. apply generateReplacementRoute_cases. Qed.

(** *** The client against the routes *)

Lemma not_ok_400_500 (s : nat) : s = 400 \/ s = 500 -> ok s = false.
Proof. intros [->| ->]; reflexivity. Qed.

Lemma generateReplacement_fails (importService : exc unit)
  (notAFunction baseUrl : string)
  (postGenerate : string -> string -> string -> string
                  -> exc (Response GenerateResult))
  (Hserved : generateServed importService notAFunction baseUrl postGenerate)
  (croppedObjectImage replacementPrompt originalImageUrl : string) :
  let r := GrokReplacementClient.generateReplacement baseUrl postGenerate
             croppedObjectImage replacementPrompt originalImageUrl in
  gen_success r = false /\ generatedImageBase64 r = None
  /\ exists message, gen_error r = Some message.
Proof.
  cbv zeta. unfold GrokReplacementClient.generateReplacement.
  destruct (postGenerate _ croppedObjectImage replacementPrompt
              originalImageUrl) as [response|m] eqn:E; cbn [bind].
  - apply Hserved in E. subst response. cbn [status onWire].
    destruct (generateReplacementRoute_cases importService notAFunction
                (Some croppedObjectImage) (Some replacementPrompt)
                (Some originalImageUrl)) as [Hs _].
    cbv zeta in Hs. rewrite (not_ok_400_500 _ Hs). cbn.
    repeat split. eexists. reflexivity.
  - cbn. repeat split. eexists. reflexivity.
Qed.

(** X29: against these routes the step-by-step workflow of the client never
    succeeds, whatever the crop returns: the generation request is
    answered 400 or 500 (or does not get through), so the workflow stops
    with an error and without a replacement. *)
Theorem step_by_step_never_succeeds (importService : exc unit)
  (notAFunction baseUrl : string)
  (postCrop : string -> string -> list num -> exc (Response CropResult))
  (postGenerate : string -> string -> string -> string
                  -> exc (Response GenerateResult))
  (Hserved : generateServed importService notAFunction baseUrl postGenerate)
  (imageUrl : string) (segmentationMask : list num)
  (replacementPrompt : string) :
  let r := snd (replaceObjectStepByStep
                  (GrokReplacementClient.cropObject baseUrl postCrop)
                  (GrokReplacementClient.generateReplacement baseUrl
                     postGenerate)
                  imageUrl segmentationMask replacementPrompt) in
  success r = false /\ finalImageBase64 r = None
  /\ generatedReplacement r = None
  /\ exists message, error r = Some message.
Proof.
  cbv zeta. unfold replaceObjectStepByStep.
  set (cropResult := GrokReplacementClient.cropObject baseUrl postCrop
                       imageUrl segmentationMask).
  destruct (if crop_success cropResult
            then present (croppedImageBase64 cropResult) else None)
    as [croppedImage|].
  - destruct (generateReplacement_fails importService notAFunction baseUrl
                postGenerate Hserved croppedImage replacementPrompt imageUrl)
      as [Hs _].
    cbv zeta in Hs. rewrite Hs. cbn. repeat split. eexists. reflexivity.
  - cbn. repeat split. eexists. reflexivity.
Qed.

Lemma step_by_step_never_succeeds_witness :
  success (snd (replaceObjectStepByStep
                  (GrokReplacementClient.cropObject "" deliverCrop)
                  (GrokReplacementClient.generateReplacement "" deliverGenerate)
                  "image.png" ServiceSamples.pentagram "a red sofa")) = false
  /\ error (snd (replaceObjectStepByStep
                   (GrokReplacementClient.cropObject "" deliverCrop)
                   (GrokReplacementClient.generateReplacement ""
                      deliverGenerate)
                   "image.png" ServiceSamples.pentagram "a red sofa"))
     = Some "Generation failed: Generation request failed: 500".
Proof.
  assert (H : generateServed (Ok tt)
                "grokImageService.generateReplacement is not a function" ""
                deliverGenerate).
  { intros c p o response E. injection E as <-. reflexivity. }
  destruct (step_by_step_never_succeeds (Ok tt) _ "" deliverCrop
              deliverGenerate H "image.png" ServiceSamples.pentagram
              "a red sofa") as [H1 _].
  split; [exact H1|reflexivity].
Defined.

(** The request a successful crop leads to: the generation route answers
    500 and the client reports that status. *)
Example generation_request_rejected :
  gen_error (GrokReplacementClient.generateReplacement "" deliverGenerate
               "Q1JPUA==" "a red sofa" "image.png")
  = Some "Generation request failed: 500"
  /\ gen_error (GrokReplacementClient.generateReplacement "" deliverGenerate
                  "Q1JPUA==" "" "image.png")
     = Some "Generation request failed: 400".
Proof. split; reflexivity. Qed.

(** X30: against the route of the deprecated workflow the complete replacement
    of the client never succeeds either: the route answers 400, 500, or
    200 with the failure of [replaceObject]. *)
Theorem complete_replacement_never_succeeds (importService : exc unit)
  (cropObjectFromImage :
     string -> list num -> GrokImageService.CropResult)
  (placeGeneratedObjectWithMask :
     string -> option string -> list num
     -> option GrokImageService.BoundingBox -> exc (option string))
  (baseUrl : string)
  (postComplete : string -> string -> list num -> string
                  -> exc (Response CompleteReplacementResult))
  (Hserved :
     completeServed importService
       (ReplaceObject.replaceObject cropObjectFromImage
          placeGeneratedObjectWithMask)
       baseUrl postComplete)
  (imageUrl : string) (segmentationMask : list num)
  (replacementPrompt : string) :
  let r := replaceObjectComplete baseUrl postComplete
             imageUrl segmentationMask replacementPrompt in
  success r = false /\ finalImageBase64 r = None
  /\ exists message, error r = Some message.
Proof.
  cbv zeta. unfold replaceObjectComplete.
  destruct (postComplete _ imageUrl segmentationMask replacementPrompt)
    as [response|m] eqn:E; cbn [bind].
  - apply Hserved in E. destruct E as [received ->].
    unfold replaceObjectRoute.
    destruct (GrokImageService.present (Some imageUrl)
              && GrokImageService.present (Some replacementPrompt)).
    + destruct importService as [[]|m]; cbn [bind onWire status json ok].
      * change (negb (ok 200)) with false. cbv iota.
        destruct (WorkflowFacts.replaceObject_cases
                    cropObjectFromImage placeGeneratedObjectWithMask
                    imageUrl received replacementPrompt)
          as [H1 [H2 [_ [_ H3]]]].
        cbv zeta in H1, H2, H3. cbn [replaceOnWire success finalImageBase64 error].
        split; [exact H1|]. split; [exact H2|].
        destruct (GrokImageService.crop_success _
                  && GrokImageService.present _);
          destruct H3 as [-> _]; eexists; reflexivity.
      * cbn. repeat split. eexists. reflexivity.
    + cbn. repeat split. eexists. reflexivity.
  - cbn. repeat split. eexists. reflexivity.
Qed.

Lemma complete_replacement_never_succeeds_witness :
  success (replaceObjectComplete "" deliverComplete
             "image.png" ServiceSamples.overhangingPolygon "a red sofa")
  = false.
Proof.
  apply (complete_replacement_never_succeeds (Ok tt)
           (GrokImageService.cropObjectFromImage
              ServiceSamples.failingGenerator)
           neverPlaced "" deliverComplete).
  intros u m p response E. injection E as <-. exists m. reflexivity.
Defined.

End RouteFacts.
